(** * VirtualTreeModel: the lazy shadow tree and its reconciliation pass

    A shallow embedding of [virtualtreemodel.cpp].  The C++ model keeps a
    tree of [InternalNode]s that mirrors an external hierarchical source seen
    through a [VirtualModelAdapter], and brings it up to date with
    [syncNodeList].

    Conventions of the embedding.
    - [int] and [size_t] values are integers of [Z]; the development is
      about trees whose sizes stay below [INT_MAX], so no arithmetic wraps.
    - [void *] item handles are integers, [nullptr] being [0].
    - A node owns its children ([std::vector<std::unique_ptr<InternalNode>>]),
      so the shadow tree is a rose tree.  The non-owning [parent] back pointer
      of a node is its place in the owning tree; a pointer to a node is the
      path of child positions leading to it from [m_root].
    - Undefined behaviour of the C++ code (a null dereference, a vector
      accessed or extended past its end) is the explicit outcome [Fault].
    - Qt notifications are collected in a log of [Signal]s. *)

From Stdlib Require Import ZArith List Bool Lia.
Import ListNotations.
Local Open Scope Z_scope.

(** ** Outcomes *)

Inductive result (A : Type) : Type :=
| Ok (a : A)
| Fault
| OutOfFuel.

Arguments Ok {A} a.
Arguments Fault {A}.
Arguments OutOfFuel {A}.

Definition bind {A B : Type} (r : result A) (k : A -> result B) : result B :=
  match r with
  | Ok a => k a
  | Fault => Fault
  | OutOfFuel => OutOfFuel
  end.

Notation "'let*' x ':=' r 'in' k" := (bind r (fun x => k))
  (at level 10, x pattern, r at level 100, k at level 200).

(** ** Items, variants and the adapter interface *)

Definition Item := Z.
Definition nullptr : Item := 0.

(** [QVariant]: [None] is the default-constructed (invalid) variant. *)
Definition QVariant := option Z.

(** The abstract class [VirtualModelAdapter], declared in the header.  Only
    the queries used by the model are listed; [indexOf] takes the start
    position as its third argument (it defaults to [0]). *)
Record VirtualModelAdapter : Type := mkAdapter {
  getItemsCount : Item -> Z;
  getItem : Item -> Z -> Item;
  hasItems : Item -> bool;
  indexOf : Item -> Item -> Z -> Z;
  getItemParent : Item -> Item;
  adapterData : Item -> Z -> QVariant
}.

(** ** Pointers, model indexes and signals *)

Definition Ptr := list nat.

Inductive QModelIndex : Type :=
| InvalidIndex
| ModelIndex (row column : Z) (internalPointer : Ptr).

(** [QModelIndex::isValid]: an index is valid when it belongs to a model and
    neither its row nor its column is negative.  [InvalidIndex] is the
    default-constructed [QModelIndex()], which belongs to no model;
    [ModelIndex] is what [createIndex] makes, with the row and the column it
    is given. *)
Definition isValid (i : QModelIndex) : bool :=
  match i with
  | InvalidIndex => false
  | ModelIndex row column _ => (0 <=? row) && (0 <=? column)
  end.

(** [QModelIndex::internalPointer]; the default index carries none. *)
Definition internalPointer (i : QModelIndex) : Ptr :=
  match i with
  | InvalidIndex => []
  | ModelIndex _ _ p => p
  end.

(** The calls [beginRemoveRows], [endRemoveRows], [beginInsertRows],
    [endInsertRows] and the signal [dataChanged].  [SyncTreeEntered] is a
    ghost entry: it marks a call of [syncTree] and carries the value of
    [m_updating] at that moment. *)
Inductive Signal : Type :=
| BeginRemoveRows (parent : QModelIndex) (first last : Z)
| EndRemoveRows
| BeginInsertRows (parent : QModelIndex) (first last : Z)
| EndInsertRows
| DataChanged (topLeft bottomRight : QModelIndex)
| SyncTreeEntered (updating : Z).

(** ** The internal tree *)

#[warnings="-register-all"]
Inductive InternalNode : Type :=
  mkNode {
    parentIndex : Z;
    item : Item;
    children : list InternalNode;
    hasChildrenQueryed : bool;
    hasChildren : bool;
    childInitialized : bool
  }.

(** [InternalNode(parent, obj, index)] *)
Definition newNode (obj : Item) (index : Z) : InternalNode :=
  mkNode index obj [] false false false.

Definition setParentIndex (n : InternalNode) (i : Z) : InternalNode :=
  mkNode i (item n) (children n) (hasChildrenQueryed n) (hasChildren n)
         (childInitialized n).

Definition setChildren (n : InternalNode) (cs : list InternalNode)
  : InternalNode :=
  mkNode (parentIndex n) (item n) cs (hasChildrenQueryed n) (hasChildren n)
         (childInitialized n).

Definition setChildInitialized (n : InternalNode) (b : bool) : InternalNode :=
  mkNode (parentIndex n) (item n) (children n) (hasChildrenQueryed n)
         (hasChildren n) b.

Definition setQueried (n : InternalNode) (q h : bool) : InternalNode :=
  mkNode (parentIndex n) (item n) (children n) q h (childInitialized n).

Definition size (cs : list InternalNode) : Z := Z.of_nat (length cs).

(** [it->get()->parentIndex = k++] over a run of nodes. *)
Fixpoint renumber (k : Z) (cs : list InternalNode) : list InternalNode :=
  match cs with
  | [] => []
  | c :: rest => setParentIndex c k :: renumber (k + 1) rest
  end.

Section WithAdapter.

Variable adapter : VirtualModelAdapter.

(** [InternalNode::isInitialized]: returns the node as the call leaves it. *)
Definition isInitialized (n : InternalNode) : InternalNode * bool :=
  if negb (childInitialized n) then
    let n' :=
      if hasChildrenQueryed n then
        if negb (Bool.eqb (hasChildren n) (0 <? getItemsCount adapter (item n)))
        then setChildInitialized n true
        else n
      else n in
    (n', childInitialized n')
  else (n, true).

(** The nodes created by the loop of [loadChildren], for [k] up to
    [childCount]. *)
Fixpoint loadedFrom (obj : Item) (k : Z) (todo : nat) : list InternalNode :=
  match todo with
  | O => []
  | S todo' => newNode (getItem adapter obj k) k :: loadedFrom obj (k + 1) todo'
  end.

(** [InternalNode::loadChildren] *)
Definition loadChildren (n : InternalNode) : InternalNode :=
  if negb (childInitialized n) then
    let n' :=
      if hasItems adapter (item n) then
        let childCount := getItemsCount adapter (item n) in
        setChildren n (children n ++ loadedFrom (item n) 0 (Z.to_nat childCount))
      else n in
    setChildInitialized n' true
  else n.

(** [InternalNode::childCount] *)
Definition childCount (n : InternalNode) : InternalNode * Z :=
  let n' := loadChildren n in
  (n', size (children n')).

(** [InternalNode::eraseChildren(begin, end)], the iterators given as
    positions.  Dereferencing [begin] past the last child, or erasing a range
    that is not inside the vector, is undefined. *)
Definition eraseChildren (n : InternalNode) (b e : Z) : result InternalNode :=
  if (0 <=? b) && (b <=? e) && (e <=? size (children n)) then
    match nth_error (children n) (Z.to_nat b) with
    | None => Fault
    | Some first =>
        let curParent := parentIndex first in
        Ok (setChildren n
              (firstn (Z.to_nat b) (children n)
               ++ renumber curParent (skipn (Z.to_nat e) (children n))))
    end
  else Fault.

(** [InternalNode::insertedChildren(lastIndex)] *)
Definition insertedChildren (n : InternalNode) (lastIndex : Z) : InternalNode :=
  setChildren n
    (firstn (Z.to_nat lastIndex) (children n)
     ++ renumber lastIndex (skipn (Z.to_nat lastIndex) (children n))).

(** [nodes.emplace(nodes.begin() + cur, newNode)]; a position past the end
    is undefined. *)
Definition emplace (cs : list InternalNode) (cur : Z) (c : InternalNode)
  : result (list InternalNode) :=
  if (0 <=? cur) && (cur <=? size cs) then
    Ok (firstn (Z.to_nat cur) cs ++ c :: skipn (Z.to_nat cur) cs)
  else Fault.

(** The insertion loop of [syncNodeList]:
    [for (i = 0, cur = srcCur; i < insertCount; i++, cur++)]. *)
Fixpoint emplaceNew (parent : Item) (destStart : Z) (i cur : Z) (todo : nat)
         (cs : list InternalNode) : result (list InternalNode) :=
  match todo with
  | O => Ok cs
  | S todo' =>
      let obj := getItem adapter parent (destStart + i) in
      let* cs' := emplace cs cur (newNode obj cur) in
      emplaceNew parent destStart (i + 1) (cur + 1) todo' cs'
  end.

(** [VirtualTreeModel::getIndex(node, column)]; [m_root] is the empty path. *)
Definition getIndex (p : Ptr) (n : InternalNode) (column : Z) : QModelIndex :=
  match p with
  | [] => InvalidIndex
  | _ => ModelIndex (parentIndex n) column p
  end.

(** Replace the child at position [i]. *)
Definition setNth (cs : list InternalNode) (i : Z) (c : InternalNode)
  : list InternalNode :=
  firstn (Z.to_nat i) cs ++ c :: skipn (S (Z.to_nat i)) cs.

(** The local variables of [syncNodeList] that live across iterations of its
    [while] loop, together with the node being synchronised and the log. *)
Record SyncState : Type := mkSync {
  syncNode : InternalNode;
  srcStart : Z;
  srcCur : Z;
  destStart : Z;
  syncLog : list Signal
}.

Section Loop.

(** The recursive call of [syncNodeList] on [curNode] and [curNode->item]. *)
Variable sync : Ptr -> InternalNode -> Item -> result (InternalNode * list Signal).
Variable nodePtr : Ptr.
Variable parent : Item.

(** The removal of the skipped source nodes (lines 129-136). *)
Definition syncRemove (index : QModelIndex) (finishing : bool) (st : SyncState)
  : result SyncState :=
  if srcStart st <? srcCur st then
    let* node' := eraseChildren (syncNode st) (srcStart st) (srcCur st) in
    Ok (mkSync node' (srcStart st)
               (if finishing then srcCur st else srcStart st)
               (destStart st)
               (syncLog st
                ++ [BeginRemoveRows index (srcStart st) (srcCur st - 1);
                    EndRemoveRows]))
  else Ok st.

(** The insertion of the skipped new nodes (lines 142-158). *)
Definition syncInsert (index : QModelIndex) (destCur : Z) (st : SyncState)
  : result SyncState :=
  if destStart st <? destCur then
    let insertCount := destCur - destStart st in
    let* nodes' :=
      emplaceNew parent (destStart st) 0 (srcCur st) (Z.to_nat insertCount)
                 (children (syncNode st)) in
    let node' :=
      insertedChildren (setChildren (syncNode st) nodes')
                       (srcCur st + insertCount) in
    Ok (mkSync node' (srcStart st) (srcCur st + insertCount)
               (destStart st + insertCount)
               (syncLog st
                ++ [BeginInsertRows index (srcCur st)
                                    (srcCur st + insertCount - 1);
                    EndInsertRows]))
  else Ok st.

(** The descent into a matched node whose children are materialised
    (lines 161-165).  [curNode] points at the child that now sits at
    position [srcCur]. *)
Definition syncDescend (st : SyncState) : result SyncState :=
  match nth_error (children (syncNode st)) (Z.to_nat (srcCur st)) with
  | None => Fault
  | Some cur =>
      let (cur', initialized) := isInitialized cur in
      if initialized then
        let* r := sync (nodePtr ++ [Z.to_nat (srcCur st)]) cur' (item cur') in
        let (cur'', evs) := r in
        Ok (mkSync (setChildren (syncNode st)
                      (setNth (children (syncNode st)) (srcCur st) cur''))
                   (srcCur st + 1) (srcCur st) (destStart st)
                   (syncLog st ++ evs))
      else
        Ok (mkSync (setChildren (syncNode st)
                      (setNth (children (syncNode st)) (srcCur st) cur'))
                   (srcStart st) (srcCur st) (destStart st) (syncLog st))
  end.

(** One iteration of the [while] loop (lines 119-167). *)
Definition syncIteration (index : QModelIndex) (st : SyncState) : result SyncState :=
  let nodes := children (syncNode st) in
  let finishing := size nodes <=? srcCur st in
  let curNode := if finishing then None
                 else nth_error nodes (Z.to_nat (srcCur st)) in
  let destCur := match curNode with
                 | Some c => indexOf adapter parent (item c) (destStart st)
                 | None => 0
                 end in
  let* st2 :=
    if 0 <=? destCur then
      let* st1 := syncRemove index finishing st in
      let st1 := mkSync (syncNode st1) (srcCur st1 + 1) (srcCur st1)
                        (destStart st1) (syncLog st1) in
      let destCur := if finishing then getItemsCount adapter parent else destCur in
      let* st1 := syncInsert index destCur st1 in
      let st1 := mkSync (syncNode st1) (srcStart st1) (srcCur st1)
                        (destCur + 1) (syncLog st1) in
      match curNode with
      | Some _ => syncDescend st1
      | None => Ok st1
      end
    else Ok st in
  Ok (mkSync (syncNode st2) (srcStart st2) (srcCur st2 + 1) (destStart st2)
             (syncLog st2)).

(** The [while (srcCur <= nodes.size())] loop. *)
Fixpoint syncLoop (fuel : nat) (index : QModelIndex) (st : SyncState)
  : result SyncState :=
  if srcCur st <=? size (children (syncNode st)) then
    match fuel with
    | O => OutOfFuel
    | S fuel' =>
        let* st' := syncIteration index st in
        syncLoop fuel' index st'
    end
  else Ok st.

End Loop.

(** [VirtualTreeModel::syncNodeList(node, parent)].  [fuel] bounds both the
    depth of the recursion and the number of iterations of each loop. *)
Fixpoint syncNodeList (fuel : nat) (p : Ptr) (node : InternalNode) (parent : Item)
  : result (InternalNode * list Signal) :=
  match fuel with
  | O => OutOfFuel
  | S fuel' =>
      let index := getIndex p node 0 in
      let* st := syncLoop (syncNodeList fuel') p parent fuel' index
                          (mkSync node 0 0 0 []) in
      Ok (setChildInitialized (syncNode st) true, syncLog st)
  end.

End WithAdapter.

(** ** The model object *)

Record VirtualTreeModel : Type := mkModel {
  m_syncing : bool;
  m_updating : Z;
  m_root : InternalNode;
  m_adapter : VirtualModelAdapter
}.

Definition setRoot (m : VirtualTreeModel) (r : InternalNode) : VirtualTreeModel :=
  mkModel (m_syncing m) (m_updating m) r (m_adapter m).

Definition setUpdating (m : VirtualTreeModel) (u : Z) : VirtualTreeModel :=
  mkModel (m_syncing m) u (m_root m) (m_adapter m).

Definition setSyncing (m : VirtualTreeModel) (b : bool) : VirtualTreeModel :=
  mkModel b (m_updating m) (m_root m) (m_adapter m).

Definition setAdapter (m : VirtualTreeModel) (a : VirtualModelAdapter)
  : VirtualTreeModel :=
  mkModel (m_syncing m) (m_updating m) (m_root m) a.

(** Following a pointer from the root; [None] is a dangling pointer. *)
Fixpoint nodeAt (n : InternalNode) (p : Ptr) : option InternalNode :=
  match p with
  | [] => Some n
  | i :: p' =>
      match nth_error (children n) i with
      | Some c => nodeAt c p'
      | None => None
      end
  end.

(** Writing through a pointer. *)
Fixpoint updateAt (n : InternalNode) (p : Ptr) (f : InternalNode -> InternalNode)
  : InternalNode :=
  match p with
  | [] => f n
  | i :: p' =>
      match nth_error (children n) i with
      | Some c => setChildren n (setNth (children n) (Z.of_nat i) (updateAt c p' f))
      | None => n
      end
  end.

Definition deref (m : VirtualTreeModel) (p : Ptr) : result InternalNode :=
  match nodeAt (m_root m) p with
  | Some n => Ok n
  | None => Fault
  end.

(** [VirtualTreeModel::getNode]: the node is returned by reference, here as
    the pointer to it. *)
Definition getNode (index : QModelIndex) : Ptr :=
  if isValid index then internalPointer index else [].

(** [VirtualTreeModel::syncTree].  The first entry of the log is not a Qt
    signal: it marks the entry into [syncTree] and records the value
    [m_updating] has at that moment. *)
Definition syncTree (fuel : nat) (m : VirtualTreeModel)
  : result (VirtualTreeModel * list Signal) :=
  let m1 := setSyncing m true in
  let* r := syncNodeList (m_adapter m1) fuel [] (m_root m1) nullptr in
  let (root', evs) := r in
  Ok (setSyncing (setRoot m1 root') false, SyncTreeEntered (m_updating m) :: evs).

(** The constructor [VirtualTreeModel::VirtualTreeModel]. *)
Definition construct (fuel : nat) (adapter : VirtualModelAdapter)
  : result (VirtualTreeModel * list Signal) :=
  syncTree fuel (mkModel false 0 (newNode nullptr 0) adapter).

(** [VirtualTreeModel::data] *)
Definition data (m : VirtualTreeModel) (index : QModelIndex) (role : Z)
  : result QVariant :=
  if negb (isValid index) then Ok None
  else if 0 <? m_updating m then Ok None
  else
    let* n := deref m (getNode index) in
    Ok (adapterData (m_adapter m) (item n) role).

(** [VirtualTreeModel::getItem] *)
Definition getItemOf (m : VirtualTreeModel) (index : QModelIndex) : result Item :=
  let* n := deref m (getNode index) in Ok (item n).

(** The body of [VirtualTreeModel::hasChildren] once the node is at hand. *)
Definition hasChildrenOf (adapter : VirtualModelAdapter) (n : InternalNode)
  : InternalNode * bool :=
  if childInitialized n then (n, 0 <? size (children n))
  else
    let has := hasItems adapter (item n) in
    (setQueried n true has, has).

(** [VirtualTreeModel::hasChildren] *)
Definition hasChildrenAt (m : VirtualTreeModel) (parent : QModelIndex)
  : result (VirtualTreeModel * bool) :=
  if negb (isValid parent) then Ok (m, true)
  else
    let* n := deref m (getNode parent) in
    let (n', has) := hasChildrenOf (m_adapter m) n in
    Ok (setRoot m (updateAt (m_root m) (getNode parent) (fun _ => n')), has).

(** [VirtualTreeModel::getItemNode]: the result is [None] for [nullptr] and
    [Some p] for the node at [p].  [fuel] bounds the walk up the chain of
    ancestors. *)
Fixpoint getItemNode (fuel : nat) (m : VirtualTreeModel) (obj : Item)
  : result (VirtualTreeModel * option Ptr) :=
  let parentItem := getItemParent (m_adapter m) obj in
  if parentItem =? obj then Ok (m, None)
  else if parentItem =? nullptr then Ok (m, Some [])
  else
    match fuel with
    | O => OutOfFuel
    | S fuel' =>
        let* r := getItemNode fuel' m parentItem in
        let (m1, parentNode) := r in
        let index := indexOf (m_adapter m1) parentItem obj 0 in
        if 0 <=? index then
          match parentNode with
          | None => Fault
          | Some p =>
              let* n := deref m1 p in
              let n' := loadChildren (m_adapter m1) n in
              let m2 := setRoot m1 (updateAt (m_root m1) p (fun _ => n')) in
              match nth_error (children n') (Z.to_nat index) with
              | Some _ => Ok (m2, Some (p ++ [Z.to_nat index]))
              | None => Fault
              end
          end
        else Ok (m1, None)
    end.

(** [VirtualTreeModel::getItemIndex] *)
Definition getItemIndex (fuel : nat) (m : VirtualTreeModel) (obj : Item)
  : result (VirtualTreeModel * QModelIndex) :=
  let* r := getItemNode fuel m obj in
  let (m1, node) := r in
  match node with
  | Some p => let* n := deref m1 p in Ok (m1, getIndex p n 0)
  | None => Ok (m1, InvalidIndex)
  end.

(** [VirtualTreeModel::beginUpdate] *)
Definition beginUpdate (m : VirtualTreeModel) : VirtualTreeModel :=
  setUpdating m (m_updating m + 1).

(** [VirtualTreeModel::endUpdate] *)
Definition endUpdate (fuel : nat) (m : VirtualTreeModel)
  : result (VirtualTreeModel * list Signal) :=
  let* r := if m_updating m =? 1 then syncTree fuel m else Ok (m, []) in
  let (m1, evs) := r in
  let m2 := setUpdating m1 (m_updating m1 - 1) in
  Ok (m2,
      evs ++ if m_updating m2 =? 0
             then [DataChanged InvalidIndex InvalidIndex] else []).

(** ** A live source *)

(** Modelled from the spec: the adapter class is declared outside the
    repository's source file, and section 6 of the specification gives the
    contract of its queries.  [findFrom l x 0 from] is the first position at
    or after [from] that holds [x] in [l], and [-1] when there is none. *)
Fixpoint findFrom (l : list Item) (x : Item) (pos from : Z) : Z :=
  match l with
  | [] => -1
  | y :: rest =>
      if (from <=? pos) && (y =? x) then pos
      else findFrom rest x (pos + 1) from
  end.

(** Modelled from the spec: the adapter of a source in which [live obj] is
    the ordered sequence of the live children of [obj] ([nullptr] standing
    for the top-level collection), [parentOf] is the ancestor lookup and
    [payload] the payload retrieval. *)
Definition liveAdapter (live : Item -> list Item) (parentOf : Item -> Item)
           (payload : Item -> Z -> QVariant) : VirtualModelAdapter :=
  mkAdapter
    (fun obj => Z.of_nat (length (live obj)))
    (fun obj k => nth (Z.to_nat k) (live obj) nullptr)
    (fun obj => negb (Nat.eqb (length (live obj)) 0))
    (fun parent obj from => findFrom (live parent) obj 0 from)
    parentOf
    payload.

(** ** What the adapter reports *)

(** The live children of [obj] as the adapter reports them: item [k] for
    every [k] below [getItemsCount obj]. *)
Definition liveItems (adapter : VirtualModelAdapter) (obj : Item) : list Item :=
  map (fun k => getItem adapter obj (Z.of_nat k))
      (seq 0 (Z.to_nat (getItemsCount adapter obj))).

(** The first [d] live children of [obj]. *)
Definition liveUpTo (adapter : VirtualModelAdapter) (obj : Item) (d : nat)
  : list Item :=
  map (fun k => getItem adapter obj (Z.of_nat k)) (seq 0 d).

(** [indexOf] answers only positions that hold the item it was asked for, at
    or after the start position and below the live count. *)
Definition indexOfSound (adapter : VirtualModelAdapter) (parent : Item)
  : Prop :=
  forall obj from,
    0 <= from -> 0 <= indexOf adapter parent obj from ->
    from <= indexOf adapter parent obj from < getItemsCount adapter parent /\
    getItem adapter parent (indexOf adapter parent obj from) = obj.

(** [indexOf] finds the live item that sits exactly at the start position. *)
Definition indexOfAtFloor (adapter : VirtualModelAdapter) (parent : Item)
  : Prop :=
  forall d,
    0 <= d < getItemsCount adapter parent ->
    indexOf adapter parent (getItem adapter parent d) d = d.

(** ** The cache against the source *)

(** The identities of a cached child sequence, in order. *)
Definition items (cs : list InternalNode) : list Item := map item cs.

(** [children[i]->parentIndex == i], for the children of a node counted
    from [k] and, in [posInv], for those of every node of a subtree. *)
Fixpoint positionsFrom (k : Z) (cs : list InternalNode) : bool :=
  match cs with
  | [] => true
  | c :: rest => (parentIndex c =? k) && positionsFrom (k + 1) rest
  end.

Fixpoint posInv (n : InternalNode) : bool :=
  match n with
  | mkNode _ _ cs _ _ _ => positionsFrom 0 cs && forallb posInv cs
  end.

(** Two child sequences that differ at most in the [parentIndex] fields of
    their nodes. *)
Definition reindexed (a b : list InternalNode) : Prop :=
  Forall2 (fun x y => exists k, y = setParentIndex x k) a b.

(** A probe that [isInitialized] finds either absent or still in agreement
    with the source. *)
Definition quietProbe (adapter : VirtualModelAdapter) (c : InternalNode)
  : Prop :=
  hasChildrenQueryed c = false \/
  hasChildren c = (0 <? getItemsCount adapter (item c)).

(** A subtree that mirrors the source wherever it is materialised: the
    children of the node are the live children of its item, every
    initialised child is settled in turn, and every other child carries a
    quiet probe. *)
Fixpoint settled (adapter : VirtualModelAdapter) (n : InternalNode) : Prop :=
  match n with
  | mkNode _ obj cs _ _ _ =>
      items cs = liveItems adapter obj /\
      (fix each (l : list InternalNode) : Prop :=
         match l with
         | [] => True
         | c :: rest =>
             (if childInitialized c then settled adapter c
              else quietProbe adapter c) /\ each rest
         end) cs
  end.

(** ** The pass, step by step *)

(** Fuel that lets [syncNodeList] run to its end on a node: one unit for the
    call, and below it enough for every iteration of the loop and for the
    deepest subtree. *)
Fixpoint fuelFor (n : InternalNode) : nat :=
  match n with
  | mkNode _ _ cs _ _ _ =>
      S (Nat.max (S (length cs)) (list_max (map fuelFor cs)))
  end.

(** The nodes a range insertion creates, in order. *)
Fixpoint freshNodes (adapter : VirtualModelAdapter) (parent : Item)
         (destStart i cur : Z) (todo : nat) : list InternalNode :=
  match todo with
  | O => []
  | S todo' =>
      newNode (getItem adapter parent (destStart + i)) cur
      :: freshNodes adapter parent destStart (i + 1) (cur + 1) todo'
  end.

(** The loop state a range insertion up to [destCur] leaves, when the
    insertion position is inside the vector. *)
Definition inserted (adapter : VirtualModelAdapter) (parent : Item)
           (index : QModelIndex) (st : SyncState) (destCur : Z) : SyncState :=
  let insertCount := destCur - destStart st in
  mkSync
    (setChildren (syncNode st)
       (firstn (Z.to_nat (srcCur st)) (children (syncNode st))
        ++ freshNodes adapter parent (destStart st) 0 (srcCur st)
             (Z.to_nat insertCount)
        ++ renumber (srcCur st + insertCount)
             (skipn (Z.to_nat (srcCur st)) (children (syncNode st)))))
    (srcStart st) (srcCur st + insertCount) (destStart st + insertCount)
    (syncLog st
     ++ [BeginInsertRows index (srcCur st) (srcCur st + insertCount - 1);
         EndInsertRows]).

(** The signals of one iteration that removes the pending run
    [srcStart, srcCur) and inserts the live items [destStart, destCur) at
    position [at_]. *)
Definition removalSignals (index : QModelIndex) (srcStart srcCur : Z)
  : list Signal :=
  if srcStart <? srcCur
  then [BeginRemoveRows index srcStart (srcCur - 1); EndRemoveRows]
  else [].

Definition insertionSignals (index : QModelIndex) (at_ destStart destCur : Z)
  : list Signal :=
  if destStart <? destCur
  then [BeginInsertRows index at_ (at_ + Z.max 0 (destCur - destStart) - 1);
        EndInsertRows]
  else [].

(** ** Logs *)

Definition isSyncEntry (s : Signal) : bool :=
  match s with SyncTreeEntered _ => true | _ => false end.

Definition isDataChanged (s : Signal) : bool :=
  match s with DataChanged _ _ => true | _ => false end.

Definition isRowSignal (s : Signal) : bool :=
  match s with
  | BeginRemoveRows _ _ _ | EndRemoveRows
  | BeginInsertRows _ _ _ | EndInsertRows => true
  | _ => false
  end.

Definition countOf (f : Signal -> bool) (log : list Signal) : nat :=
  length (filter f log).

(** The log of a loop state holds row signals only. *)
Definition rowsOnly (st : SyncState) : Prop :=
  forallb isRowSignal (syncLog st) = true.

(** ** Update brackets *)

(** [n] calls of [beginUpdate] in a row. *)
Fixpoint beginUpdates (n : nat) (m : VirtualTreeModel) : VirtualTreeModel :=
  match n with
  | O => m
  | S k => beginUpdates k (beginUpdate m)
  end.

(** [n] calls of [endUpdate] in a row, their logs in order. *)
Fixpoint endUpdates (fuel : nat) (n : nat) (m : VirtualTreeModel)
  : result (VirtualTreeModel * list Signal) :=
  match n with
  | O => Ok (m, [])
  | S k =>
      let* r1 := endUpdate fuel m in
      let (m1, log1) := r1 in
      let* r2 := endUpdates fuel k m1 in
      let (m2, log2) := r2 in
      Ok (m2, log1 ++ log2)
  end.

(** [n] nested pairs: [n] opening calls followed by the [n] closing calls. *)
Definition nestedUpdates (fuel : nat) (n : nat) (m : VirtualTreeModel)
  : result (VirtualTreeModel * list Signal) :=
  endUpdates fuel n (beginUpdates n m).

(** ** Sample sources and caches *)

Definition itemA : Item := 1.
Definition itemB : Item := 2.
Definition itemX : Item := 3.
Definition itemP : Item := 5.
Definition rootObject : Item := 9.

(** A source with a flat top-level collection and no deeper items. *)
Definition flatSource (top : list Item) : VirtualModelAdapter :=
  liveAdapter (fun obj => if obj =? nullptr then top else [])
              (fun _ => nullptr) (fun _ _ => None).

(** A source whose top-level items report the object [rootObject] as their
    parent; [rootObject] itself has no parent. *)
Definition rootedSource (top : list Item) : VirtualModelAdapter :=
  liveAdapter
    (fun obj => if (obj =? nullptr) || (obj =? rootObject) then top else [])
    (fun obj => if obj =? rootObject then nullptr else rootObject)
    (fun _ _ => None).

(** A source in which [itemP], the parent of [itemX], reports itself as its
    own parent. *)
Definition cyclicSource : VirtualModelAdapter :=
  liveAdapter (fun obj => if obj =? itemP then [itemX] else [])
              (fun _ => itemP) (fun _ _ => None).

(** A source with the single top-level item [A], which has the children
    [kids]. *)
Definition nestedSource (kids : list Item) : VirtualModelAdapter :=
  liveAdapter
    (fun obj => if obj =? nullptr then [itemA]
                else if obj =? itemA then kids else [])
    (fun obj => if obj =? itemA then nullptr else itemA)
    (fun _ _ => None).

(** The cache of [A, B] as the constructor leaves it: no child has been
    expanded or probed. *)
Definition cacheAB : InternalNode :=
  mkNode 0 nullptr [newNode itemA 0; newNode itemB 1] false false true.

(** The same cache once the children of [A] have been loaded. *)
Definition cacheABloaded : InternalNode :=
  mkNode 0 nullptr
         [loadChildren (flatSource [itemA; itemB]) (newNode itemA 0);
          newNode itemB 1]
         false false true.

(** The same cache with the children of both entries loaded. *)
Definition cacheABexpanded : InternalNode :=
  mkNode 0 nullptr
         [loadChildren (flatSource [itemA; itemB]) (newNode itemA 0);
          loadChildren (flatSource [itemA; itemB]) (newNode itemB 1)]
         false false true.

(** A model at rest over the cache [root] and the source [adapter]. *)
Definition modelOf (root : InternalNode) (adapter : VirtualModelAdapter)
  : VirtualTreeModel :=
  mkModel false 0 root adapter.

(** ** The item-model interface and the queued update *)

(** The conversion of an [int] to [size_t] (64 bits), as in the comparison
    [row < parentItem.children.size()] of [index]. *)
Definition toSizeT (z : Z) : Z := z mod 2 ^ 64.

Module ItemModel.

(** [VirtualTreeModel::index].  [children.at(row)] throws when [row] is out
    of range. *)
Definition index (m : VirtualTreeModel) (row column : Z)
           (parentIdx : QModelIndex) : result QModelIndex :=
  let p := getNode parentIdx in
  let* parentItem := deref m p in
  if toSizeT row <? size (children parentItem) then
    match nth_error (children parentItem) (Z.to_nat (toSizeT row)) with
    | Some childItem =>
        Ok (getIndex (p ++ [Z.to_nat (toSizeT row)]) childItem column)
    | None => Fault
    end
  else Ok InvalidIndex.

(** [VirtualTreeModel::parent].  The [parent] field of the node at path [p]
    is [nullptr] for the root and the node at [removelast p] otherwise. *)
Definition parent (m : VirtualTreeModel) (idx : QModelIndex)
  : result QModelIndex :=
  if negb (isValid idx) then Ok InvalidIndex
  else
    let p := getNode idx in
    let* childItem := deref m p in
    match p with
    | [] => Ok InvalidIndex
    | _ =>
        match removelast p with
        | [] => Ok InvalidIndex
        | pp => let* parentItem := deref m pp in Ok (getIndex pp parentItem 0)
        end
    end.

(** [VirtualTreeModel::rowCount].  The first statement of the function
    calls [this->parent(parent)] for a valid index and discards the answer. *)
Definition rowCount (m : VirtualTreeModel) (parentIdx : QModelIndex)
  : result (VirtualTreeModel * Z) :=
  let* _ := if isValid parentIdx then parent m parentIdx else Ok InvalidIndex in
  let p := getNode parentIdx in
  let* parentItem := deref m p in
  if m_syncing m then Ok (m, size (children parentItem))
  else
    let (parentItem', count) := childCount (m_adapter m) parentItem in
    Ok (setRoot m (updateAt (m_root m) p (fun _ => parentItem')), count).

(** [VirtualTreeModel::columnCount] *)
Definition columnCount (parentIdx : QModelIndex) : Z := 1.

End ItemModel.

(** [VirtualTreeModel::QueuedUpdate].  The second component is the number of
    invocations of [doQueuedUpdate] the call posts to the event queue. *)
Definition QueuedUpdate (m : VirtualTreeModel) : VirtualTreeModel * nat :=
  if m_updating m =? 0 then (beginUpdate m, 1%nat) else (m, 0%nat).

(** [VirtualTreeModel::doQueuedUpdate] *)
Definition doQueuedUpdate (fuel : nat) (m : VirtualTreeModel)
  : result (VirtualTreeModel * list Signal) :=
  endUpdate fuel m.

(** [k] calls of [QueuedUpdate] in a row, before the event loop runs: the
    model they leave and the invocations they have posted. *)
Fixpoint queuedUpdates (k : nat) (m : VirtualTreeModel) : VirtualTreeModel * nat :=
  match k with
  | O => (m, 0%nat)
  | S k' =>
      let (m1, posted1) := QueuedUpdate m in
      let (m2, posted2) := queuedUpdates k' m1 in
      (m2, (posted1 + posted2)%nat)
  end.

(** The event loop delivering [posted] invocations of [doQueuedUpdate]. *)
Fixpoint deliver (fuel : nat) (posted : nat) (m : VirtualTreeModel)
  : result (VirtualTreeModel * list Signal) :=
  match posted with
  | O => Ok (m, [])
  | S posted' =>
      let* r1 := doQueuedUpdate fuel m in
      let (m1, log1) := r1 in
      let* r2 := deliver fuel posted' m1 in
      let (m2, log2) := r2 in
      Ok (m2, log1 ++ log2)
  end.

(** ** Well-formed logs *)

(** A log made of bracketed row changes, each over a non-empty range of
    non-negative rows. *)
Inductive Bracketed : list Signal -> Prop :=
| Bracketed_nil : Bracketed []
| Bracketed_remove index first last rest :
    0 <= first <= last -> Bracketed rest ->
    Bracketed (BeginRemoveRows index first last :: EndRemoveRows :: rest)
| Bracketed_insert index first last rest :
    0 <= first <= last -> Bracketed rest ->
    Bracketed (BeginInsertRows index first last :: EndInsertRows :: rest).

(** A node as [InternalNode(parent, obj, index)] creates it, but for its
    position and item. *)
Definition isFresh (c : InternalNode) : bool :=
  negb (childInitialized c) && negb (hasChildrenQueryed c)
  && negb (hasChildren c)
  && match children c with [] => true | _ => false end.

(** A node that is not initialised has no children, in the whole subtree. *)
Fixpoint lazyInv (n : InternalNode) : bool :=
  match n with
  | mkNode _ _ cs _ _ ci =>
      (ci || match cs with [] => true | _ => false end) && forallb lazyInv cs
  end.

(** The invariant of the shadow tree: positions and laziness. *)
Definition wellFormed (n : InternalNode) : bool := posInv n && lazyInv n.

(** The children of the node of a loop state are lazy. *)
Definition lazyChildren (st : SyncState) : Prop :=
  forallb lazyInv (children (syncNode st)) = true.

(** * Properties *)

(** ** Lists of children *)

Lemma size_nonneg cs : 0 <= size cs.
Proof. unfold size; lia. Qed.

Lemma size_app a b : size (a ++ b) = size a + size b.
Proof. unfold size; rewrite length_app; lia. Qed.

Lemma size_cons c cs : size (c :: cs) = 1 + size cs.
Proof. unfold size; simpl length; lia. Qed.

Lemma size_firstn k cs :
  0 <= k <= size cs -> size (firstn (Z.to_nat k) cs) = k.
Proof. unfold size; intros H; rewrite length_firstn; lia. Qed.

Lemma size_skipn k cs :
  0 <= k <= size cs -> size (skipn (Z.to_nat k) cs) = size cs - k.
Proof. unfold size; intros H; rewrite length_skipn; lia. Qed.

Lemma renumber_length k cs : length (renumber k cs) = length cs.
Proof.
  revert k; induction cs as [|c cs IH]; intros k; simpl; [|rewrite IH]; reflexivity.
Qed.

Lemma nth_error_in_range (cs : list InternalNode) k :
  0 <= k < size cs -> exists c, nth_error cs (Z.to_nat k) = Some c.
Proof.
  unfold size; intros H.
  destruct (nth_error cs (Z.to_nat k)) as [c|] eqn:E; [now exists c|].
  apply nth_error_None in E; lia.
Qed.

Lemma nth_error_size (cs : list InternalNode) k c :
  nth_error cs k = Some c -> Z.of_nat k < size cs.
Proof.
  unfold size; intros H.
  assert (nth_error cs k <> None) as H' by congruence.
  apply nth_error_Some in H'; lia.
Qed.

Lemma skipn_app_len {A} (a b : list A) n :
  skipn (length a + n) (a ++ b) = skipn n b.
Proof. induction a as [|x a IH]; simpl; auto. Qed.

Lemma firstn_app_len {A} (a b : list A) n :
  firstn (length a + n) (a ++ b) = a ++ firstn n b.
Proof. induction a as [|x a IH]; simpl; [|rewrite IH]; auto. Qed.

Lemma setNth_same cs i c :
  nth_error cs (Z.to_nat i) = Some c -> setNth cs i c = cs.
Proof.
  unfold setNth; intros H.
  rewrite <- (firstn_skipn (Z.to_nat i) cs) at 3.
  f_equal.
  revert H; generalize (Z.to_nat i) as k; clear i.
  induction cs as [|d cs IH]; intros [|k] H; simpl in *; try discriminate.
  - congruence.
  - now apply IH.
Qed.

(** ** The position invariant under the list operations *)

Lemma posInv_unfold n :
  posInv n = positionsFrom 0 (children n) && forallb posInv (children n).
Proof. destruct n; reflexivity. Qed.

Lemma positionsFrom_app k a b :
  positionsFrom k (a ++ b) = positionsFrom k a && positionsFrom (k + size a) b.
Proof.
  revert k; induction a as [|c a IH]; intros k; simpl.
  - unfold size; simpl; now rewrite Z.add_0_r.
  - rewrite IH, size_cons, andb_assoc.
    now replace (k + 1 + size a) with (k + (1 + size a)) by lia.
Qed.

Lemma positionsFrom_renumber k cs : positionsFrom k (renumber k cs) = true.
Proof.
  revert k; induction cs as [|c cs IH]; intros k; simpl; [reflexivity|].
  now rewrite Z.eqb_refl, IH.
Qed.

Lemma posInv_setParentIndex c k : posInv (setParentIndex c k) = posInv c.
Proof. destruct c; reflexivity. Qed.

Lemma forallb_posInv_renumber k cs :
  forallb posInv (renumber k cs) = forallb posInv cs.
Proof.
  revert k; induction cs as [|c cs IH]; intros k; cbn [renumber forallb];
    [reflexivity|].
  now rewrite posInv_setParentIndex, IH.
Qed.

Lemma positionsFrom_firstn k j cs :
  positionsFrom k cs = true -> positionsFrom k (firstn j cs) = true.
Proof.
  revert k j; induction cs as [|c cs IH]; intros k [|j] H; simpl in *; auto.
  apply andb_true_iff in H as [H1 H2].
  now rewrite H1, IH.
Qed.

Lemma positionsFrom_nth k cs i c :
  positionsFrom k cs = true -> nth_error cs i = Some c ->
  parentIndex c = k + Z.of_nat i.
Proof.
  revert k i; induction cs as [|d cs IH]; intros k [|i] H E; simpl in *;
    try discriminate; apply andb_true_iff in H as [H1 H2].
  - injection E as <-. apply Z.eqb_eq in H1. lia.
  - rewrite (IH _ _ H2 E). lia.
Qed.

Lemma forallb_firstn {A} (f : A -> bool) j l :
  forallb f l = true -> forallb f (firstn j l) = true.
Proof.
  revert j; induction l as [|x l IH]; intros [|j] H; simpl in *; auto.
  apply andb_true_iff in H as [H1 H2]. now rewrite H1, IH.
Qed.

Lemma forallb_skipn {A} (f : A -> bool) j l :
  forallb f l = true -> forallb f (skipn j l) = true.
Proof.
  revert j; induction l as [|x l IH]; intros [|j] H; simpl in *; auto.
  apply andb_true_iff in H as [H1 H2]. now apply IH.
Qed.

Lemma forallb_nth {A} (f : A -> bool) l i x :
  forallb f l = true -> nth_error l i = Some x -> f x = true.
Proof.
  intros H E. apply nth_error_In in E.
  rewrite forallb_forall in H. now apply H.
Qed.

Lemma positionsFrom_freshNodes adapter parent ds i cur todo :
  positionsFrom cur (freshNodes adapter parent ds i cur todo) = true.
Proof.
  revert i cur; induction todo as [|t IH]; intros i cur; simpl; [reflexivity|].
  now rewrite Z.eqb_refl, IH.
Qed.

Lemma forallb_posInv_freshNodes adapter parent ds i cur todo :
  forallb posInv (freshNodes adapter parent ds i cur todo) = true.
Proof.
  revert i cur; induction todo as [|t IH]; intros i cur; simpl; [reflexivity|].
  apply IH.
Qed.

Lemma freshNodes_length adapter parent ds i cur todo :
  length (freshNodes adapter parent ds i cur todo) = todo.
Proof.
  revert i cur; induction todo as [|t IH]; intros i cur; simpl; [|rewrite IH];
    reflexivity.
Qed.

Lemma positionsFrom_setNth k cs i c c' :
  positionsFrom k cs = true -> nth_error cs (Z.to_nat i) = Some c ->
  parentIndex c' = parentIndex c ->
  positionsFrom k (setNth cs i c') = true.
Proof.
  unfold setNth. generalize (Z.to_nat i) as j; clear i.
  intros j; revert k j; induction cs as [|d cs IH]; intros k [|j] H E Hp;
    simpl in *; try discriminate; apply andb_true_iff in H as [H1 H2].
  - injection E as ->. now rewrite Hp, H1, H2.
  - rewrite H1. simpl. exact (IH _ _ H2 E Hp).
Qed.

Lemma forallb_setNth {f : InternalNode -> bool} cs i c' :
  forallb f cs = true -> f c' = true -> forallb f (setNth cs i c') = true.
Proof.
  intros H Hc. unfold setNth.
  rewrite forallb_app. cbn [forallb].
  now rewrite forallb_firstn, Hc, forallb_skipn.
Qed.

(** ** The node methods keep the position invariant *)

Lemma eraseChildren_children n b e n' :
  eraseChildren n b e = Ok n' ->
  exists first,
    nth_error (children n) (Z.to_nat b) = Some first /\
    0 <= b /\ b <= e <= size (children n) /\
    n' = setChildren n
           (firstn (Z.to_nat b) (children n)
            ++ renumber (parentIndex first) (skipn (Z.to_nat e) (children n))).
Proof.
  unfold eraseChildren.
  destruct ((0 <=? b) && (b <=? e) && (e <=? size (children n))) eqn:G;
    [|discriminate].
  apply andb_true_iff in G as [G G3]. apply andb_true_iff in G as [G1 G2].
  destruct (nth_error (children n) (Z.to_nat b)) as [first|]; [|discriminate].
  intros [= <-]. exists first. repeat split; lia.
Qed.

Lemma eraseChildren_posInv n b e n' :
  posInv n = true -> eraseChildren n b e = Ok n' -> posInv n' = true.
Proof.
  intros H E.
  apply eraseChildren_children in E as (first & Hf & Hb & He & ->).
  rewrite posInv_unfold in *. apply andb_true_iff in H as [H1 H2].
  cbn [children setChildren].
  pose proof (nth_error_size _ _ _ Hf) as Hlt.
  rewrite positionsFrom_app, forallb_app, forallb_posInv_renumber.
  rewrite (positionsFrom_nth _ _ _ _ H1 Hf), size_firstn by lia.
  replace (0 + Z.of_nat (Z.to_nat b)) with (0 + b) by lia.
  now rewrite positionsFrom_firstn, positionsFrom_renumber, forallb_firstn,
    forallb_skipn.
Qed.

Lemma insertedChildren_positions n lastIndex :
  0 <= lastIndex ->
  positionsFrom 0 (firstn (Z.to_nat lastIndex) (children n)) = true ->
  positionsFrom 0 (children (insertedChildren n lastIndex)) = true.
Proof.
  intros H0 H. unfold insertedChildren. cbn [children setChildren].
  rewrite positionsFrom_app, H. cbn [andb].
  destruct (Z_le_gt_dec lastIndex (size (children n))) as [L|L].
  - rewrite size_firstn by lia. apply positionsFrom_renumber.
  - rewrite skipn_all2 by (unfold size in L; lia). reflexivity.
Qed.

Lemma insertedChildren_posInv n lastIndex :
  0 <= lastIndex -> posInv n = true -> posInv (insertedChildren n lastIndex) = true.
Proof.
  intros H0 H. rewrite posInv_unfold in *. apply andb_true_iff in H as [H1 H2].
  rewrite insertedChildren_positions by (auto using positionsFrom_firstn).
  unfold insertedChildren. cbn [children setChildren andb].
  rewrite forallb_app, forallb_posInv_renumber.
  now rewrite forallb_firstn, forallb_skipn.
Qed.

Section NodeMethods.

Variable adapter : VirtualModelAdapter.

Lemma isInitialized_shape n :
  fst (isInitialized adapter n) = n \/
  fst (isInitialized adapter n) = setChildInitialized n true.
Proof.
  unfold isInitialized.
  destruct (childInitialized n), (hasChildrenQueryed n); cbn; auto.
  destruct (Bool.eqb _ _); cbn; auto.
Qed.

Lemma isInitialized_posInv n :
  posInv (fst (isInitialized adapter n)) = posInv n.
Proof.
  destruct (isInitialized_shape n) as [-> | ->]; [reflexivity|].
  now destruct n.
Qed.

Lemma isInitialized_header n :
  parentIndex (fst (isInitialized adapter n)) = parentIndex n /\
  item (fst (isInitialized adapter n)) = item n /\
  children (fst (isInitialized adapter n)) = children n.
Proof.
  destruct (isInitialized_shape n) as [-> | ->]; auto.
Qed.

Lemma positionsFrom_loadedFrom obj k todo :
  positionsFrom k (loadedFrom adapter obj k todo) = true.
Proof.
  revert k; induction todo as [|t IH]; intros k; simpl; [reflexivity|].
  now rewrite Z.eqb_refl, IH.
Qed.

Lemma forallb_posInv_loadedFrom obj k todo :
  forallb posInv (loadedFrom adapter obj k todo) = true.
Proof.
  revert k; induction todo as [|t IH]; intros k; simpl; [reflexivity|apply IH].
Qed.

(** A node that is not initialised has no children yet, so the children
    [loadChildren] appends are numbered from [0]. *)
Lemma loadChildren_posInv n :
  (childInitialized n = false -> children n = []) ->
  posInv n = true -> posInv (loadChildren adapter n) = true.
Proof.
  intros Hempty H. unfold loadChildren.
  destruct (childInitialized n) eqn:E; cbn [negb]; [exact H|].
  destruct (hasItems adapter (item n)).
  - rewrite posInv_unfold. cbn [children setChildInitialized setChildren].
    rewrite (Hempty eq_refl). cbn [app].
    now rewrite positionsFrom_loadedFrom, forallb_posInv_loadedFrom.
  - now destruct n.
Qed.

Lemma emplaceNew_ok parent ds i cur todo cs :
  0 <= cur <= size cs ->
  emplaceNew adapter parent ds i cur todo cs =
  Ok (firstn (Z.to_nat cur) cs
      ++ freshNodes adapter parent ds i cur todo
      ++ skipn (Z.to_nat cur) cs).
Proof.
  revert i cur cs; induction todo as [|t IH]; intros i cur cs H.
  - cbn. now rewrite firstn_skipn.
  - cbn [emplaceNew freshNodes]. unfold emplace.
    replace ((0 <=? cur) && (cur <=? size cs)) with true
      by (symmetry; apply andb_true_iff; split; lia).
    cbn [bind].
    set (c := newNode (getItem adapter parent (ds + i)) cur).
    assert (length (firstn (Z.to_nat cur) cs) = Z.to_nat cur) as Hl
        by (rewrite length_firstn; unfold size in H; lia).
    rewrite IH.
    + replace (Z.to_nat (cur + 1)) with (length (firstn (Z.to_nat cur) cs) + 1)%nat
        by lia.
      rewrite firstn_app_len, skipn_app_len.
      cbn [firstn skipn app]. rewrite <- app_assoc. reflexivity.
    + rewrite size_app, size_cons, size_firstn, size_skipn by lia. lia.
Qed.

Lemma emplaceNew_fault parent ds i cur todo cs :
  ~ (0 <= cur <= size cs) ->
  emplaceNew adapter parent ds i cur (S todo) cs = Fault.
Proof.
  intros H. cbn [emplaceNew]. unfold emplace.
  replace ((0 <=? cur) && (cur <=? size cs)) with false; [reflexivity|].
  symmetry. apply andb_false_iff. lia.
Qed.

End NodeMethods.

(** ** Reasoning about outcomes *)

Lemma bind_Ok {A B} (r : result A) (k : A -> result B) b :
  bind r k = Ok b -> exists a, r = Ok a /\ k a = Ok b.
Proof. destruct r as [a| |]; cbn; intros H; try discriminate. now exists a. Qed.

Lemma bind_not_OutOfFuel {A B} (r : result A) (k : A -> result B) :
  r <> OutOfFuel -> (forall a, r = Ok a -> k a <> OutOfFuel) ->
  bind r k <> OutOfFuel.
Proof. destruct r as [a| |]; cbn; intros H1 H2; auto. discriminate. Qed.

Ltac bind_inv H :=
  let a := fresh "a" in
  let E := fresh "E" in
  apply bind_Ok in H as (a & E & H).

(** ** Range removal and range insertion, made explicit *)

Section Ranges.

Variable adapter : VirtualModelAdapter.
Variable sync : Ptr -> InternalNode -> Item -> result (InternalNode * list Signal).
Variable nodePtr : Ptr.
Variable parent : Item.

Lemma syncRemove_Ok index finishing st st' :
  syncRemove index finishing st = Ok st' ->
  (srcCur st <= srcStart st /\ st' = st) \/
  (exists first,
      0 <= srcStart st < srcCur st /\ srcCur st <= size (children (syncNode st)) /\
      nth_error (children (syncNode st)) (Z.to_nat (srcStart st)) = Some first /\
      st' = mkSync
              (setChildren (syncNode st)
                 (firstn (Z.to_nat (srcStart st)) (children (syncNode st))
                  ++ renumber (parentIndex first)
                       (skipn (Z.to_nat (srcCur st)) (children (syncNode st)))))
              (srcStart st)
              (if finishing then srcCur st else srcStart st)
              (destStart st)
              (syncLog st
               ++ [BeginRemoveRows index (srcStart st) (srcCur st - 1);
                   EndRemoveRows])).
Proof.
  unfold syncRemove.
  destruct (srcStart st <? srcCur st) eqn:L.
  - intros H. bind_inv H. injection H as <-.
    apply eraseChildren_children in E as (first & Hf & Hb & He & ->).
    right. exists first. apply Z.ltb_lt in L. repeat split; auto; lia.
  - intros [= <-]. left. apply Z.ltb_ge in L. auto.
Qed.

Lemma insertedChildren_setChildren n cs k :
  insertedChildren (setChildren n cs) k =
  setChildren n (firstn (Z.to_nat k) cs ++ renumber k (skipn (Z.to_nat k) cs)).
Proof. destruct n; reflexivity. Qed.

Lemma renumber_after_emplace c (cs fresh : list InternalNode) :
  0 <= c <= size cs ->
  firstn (Z.to_nat (c + size fresh))
         (firstn (Z.to_nat c) cs ++ fresh ++ skipn (Z.to_nat c) cs)
  ++ renumber (c + size fresh)
       (skipn (Z.to_nat (c + size fresh))
              (firstn (Z.to_nat c) cs ++ fresh ++ skipn (Z.to_nat c) cs)) =
  firstn (Z.to_nat c) cs ++ fresh
  ++ renumber (c + size fresh) (skipn (Z.to_nat c) cs).
Proof.
  intros H.
  assert (length (firstn (Z.to_nat c) cs) = Z.to_nat c) as Hl
      by (rewrite length_firstn; unfold size in H; lia).
  rewrite (app_assoc (firstn (Z.to_nat c) cs) fresh).
  replace (Z.to_nat (c + size fresh))
    with (length (firstn (Z.to_nat c) cs ++ fresh) + 0)%nat
    by (rewrite length_app; unfold size; lia).
  rewrite firstn_app_len, skipn_app_len. cbn [firstn skipn].
  now rewrite app_nil_r, <- app_assoc.
Qed.

Lemma syncInsert_skip index destCur st :
  destCur <= destStart st -> syncInsert adapter parent index destCur st = Ok st.
Proof.
  intros H. unfold syncInsert.
  now replace (destStart st <? destCur) with false by (symmetry; apply Z.ltb_ge; lia).
Qed.

Lemma syncInsert_inside index destCur st :
  destStart st < destCur ->
  0 <= srcCur st <= size (children (syncNode st)) ->
  syncInsert adapter parent index destCur st =
  Ok (inserted adapter parent index st destCur).
Proof.
  intros H Hc. unfold syncInsert, inserted.
  replace (destStart st <? destCur) with true by (symmetry; apply Z.ltb_lt; lia).
  rewrite emplaceNew_ok by lia. cbn [bind].
  do 2 f_equal.
  set (fresh := freshNodes _ _ _ _ _ _).
  assert (destCur - destStart st = size fresh) as ->
      by (unfold size, fresh; rewrite freshNodes_length; lia).
  rewrite insertedChildren_setChildren.
  destruct (syncNode st) as [pi it cs q h ci]; cbn [children setChildren] in *.
  unfold setChildren; cbn [parentIndex item children hasChildrenQueryed
                             hasChildren childInitialized].
  f_equal. now apply renumber_after_emplace.
Qed.

Lemma syncInsert_outside index destCur st :
  destStart st < destCur ->
  ~ (0 <= srcCur st <= size (children (syncNode st))) ->
  syncInsert adapter parent index destCur st = Fault.
Proof.
  intros H Hc. unfold syncInsert.
  replace (destStart st <? destCur) with true by (symmetry; apply Z.ltb_lt; lia).
  destruct (Z.to_nat (destCur - destStart st)) as [|k] eqn:K; [lia|].
  now rewrite emplaceNew_fault.
Qed.

Lemma syncInsert_Ok index destCur st st' :
  syncInsert adapter parent index destCur st = Ok st' ->
  (destCur <= destStart st /\ st' = st) \/
  (destStart st < destCur /\ 0 <= srcCur st <= size (children (syncNode st)) /\
   st' = inserted adapter parent index st destCur).
Proof.
  intros H.
  destruct (Z_le_gt_dec destCur (destStart st)) as [L|L].
  - rewrite syncInsert_skip in H by lia. injection H as <-. auto.
  - destruct (Z_le_gt_dec 0 (srcCur st)) as [L1|L1];
      [destruct (Z_le_gt_dec (srcCur st) (size (children (syncNode st)))) as [L2|L2]|].
    + rewrite syncInsert_inside in H by lia. injection H as <-.
      right. repeat split; auto; lia.
    + rewrite syncInsert_outside in H by lia. discriminate.
    + rewrite syncInsert_outside in H by lia. discriminate.
Qed.

End Ranges.

(** ** The reconciliation pass keeps the position invariant *)

Lemma posInv_setChildren n cs :
  posInv (setChildren n cs) = positionsFrom 0 cs && forallb posInv cs.
Proof. destruct n; reflexivity. Qed.

Lemma posInv_setChildInitialized n b : posInv (setChildInitialized n b) = posInv n.
Proof. destruct n; reflexivity. Qed.

Section PassKeepsPositions.

Variable adapter : VirtualModelAdapter.
Variable sync : Ptr -> InternalNode -> Item -> result (InternalNode * list Signal).
Variable nodePtr : Ptr.
Variable parent : Item.

Hypothesis sync_keeps :
  forall p n obj n' evs,
    posInv n = true -> sync p n obj = Ok (n', evs) ->
    posInv n' = true /\ parentIndex n' = parentIndex n.

Lemma syncRemove_posInv index finishing st st' :
  posInv (syncNode st) = true ->
  syncRemove index finishing st = Ok st' ->
  posInv (syncNode st') = true /\
  parentIndex (syncNode st') = parentIndex (syncNode st).
Proof.
  unfold syncRemove. intros H E.
  destruct (srcStart st <? srcCur st).
  - bind_inv E. injection E as <-. cbn [syncNode].
    split; [eapply eraseChildren_posInv; eauto|].
    apply eraseChildren_children in E0 as (first & _ & _ & _ & ->).
    reflexivity.
  - injection E as <-. auto.
Qed.

Lemma inserted_posInv index st destCur :
  destStart st < destCur ->
  0 <= srcCur st <= size (children (syncNode st)) ->
  posInv (syncNode st) = true ->
  posInv (syncNode (inserted adapter parent index st destCur)) = true.
Proof.
  intros Hd Hc H. unfold inserted. cbn [syncNode].
  rewrite posInv_unfold in H. apply andb_true_iff in H as [H1 H2].
  rewrite posInv_setChildren.
  set (fresh := freshNodes _ _ _ _ _ _).
  assert (size fresh = destCur - destStart st) as Hm
      by (unfold size, fresh; rewrite freshNodes_length; lia).
  rewrite !positionsFrom_app, !forallb_app, forallb_posInv_renumber.
  rewrite size_firstn, Hm by lia. cbn [Z.add].
  unfold fresh.
  rewrite positionsFrom_freshNodes, forallb_posInv_freshNodes,
    positionsFrom_renumber.
  now rewrite positionsFrom_firstn, forallb_firstn, forallb_skipn.
Qed.

Lemma syncInsert_posInv index destCur st st' :
  posInv (syncNode st) = true ->
  syncInsert adapter parent index destCur st = Ok st' ->
  posInv (syncNode st') = true /\
  parentIndex (syncNode st') = parentIndex (syncNode st).
Proof.
  intros H E.
  apply syncInsert_Ok in E as [[_ ->] | (Hd & Hc & ->)]; [auto|].
  split; [now apply inserted_posInv|reflexivity].
Qed.

Lemma syncDescend_posInv st st' :
  posInv (syncNode st) = true ->
  syncDescend adapter sync nodePtr st = Ok st' ->
  posInv (syncNode st') = true /\
  parentIndex (syncNode st') = parentIndex (syncNode st).
Proof.
  unfold syncDescend. intros H E.
  destruct (nth_error (children (syncNode st)) (Z.to_nat (srcCur st)))
    as [cur|] eqn:Hcur; [|discriminate].
  rewrite posInv_unfold in H. apply andb_true_iff in H as [H1 H2].
  pose proof (forallb_nth _ _ _ _ H2 Hcur) as Hp.
  pose proof (isInitialized_posInv adapter cur) as Hi.
  pose proof (isInitialized_header adapter cur) as (Hpi & _ & _).
  destruct (isInitialized adapter cur) as [cur' initialized]. cbn [fst] in *.
  rewrite Hp in Hi.
  destruct initialized.
  - bind_inv E. destruct a as [cur'' evs]. injection E as <-. cbn [syncNode].
    destruct (sync_keeps _ _ _ _ _ Hi E0) as [K1 K2].
    rewrite posInv_setChildren. split; [|now destruct (syncNode st)].
    apply andb_true_iff; split.
    + eapply positionsFrom_setNth; eauto. congruence.
    + now apply forallb_setNth.
  - injection E as <-. cbn [syncNode].
    rewrite posInv_setChildren. split; [|now destruct (syncNode st)].
    apply andb_true_iff; split.
    + eapply positionsFrom_setNth; eauto.
    + now apply forallb_setNth.
Qed.

Lemma syncIteration_posInv index st st' :
  posInv (syncNode st) = true ->
  syncIteration adapter sync nodePtr parent index st = Ok st' ->
  posInv (syncNode st') = true /\
  parentIndex (syncNode st') = parentIndex (syncNode st).
Proof.
  unfold syncIteration. intros H E.
  bind_inv E. injection E as <-. cbn [syncNode].
  set (finishing := size (children (syncNode st)) <=? srcCur st) in *.
  set (curNode := if finishing then None else _) in *.
  set (destCur := match curNode with Some c => _ | None => 0 end) in *.
  destruct (0 <=? destCur); [|injection E0 as <-; auto].
  bind_inv E0. apply syncRemove_posInv in E as [R1 R2]; [|assumption].
  bind_inv E0.
  apply syncInsert_posInv in E as [I1 I2]; [|exact R1].
  cbn [syncNode] in *.
  destruct curNode.
  - apply syncDescend_posInv in E0 as [D1 D2]; [|exact I1].
    cbn [syncNode] in *. split; [assumption|congruence].
  - injection E0 as <-. cbn [syncNode]. split; [assumption|congruence].
Qed.

Lemma syncLoop_posInv fuel index st st' :
  posInv (syncNode st) = true ->
  syncLoop adapter sync nodePtr parent fuel index st = Ok st' ->
  posInv (syncNode st') = true /\
  parentIndex (syncNode st') = parentIndex (syncNode st).
Proof.
  revert st; induction fuel as [|fuel IH]; intros st H E; cbn [syncLoop] in E;
    destruct (srcCur st <=? size (children (syncNode st)));
    try discriminate; try (injection E as <-; now auto).
  bind_inv E.
  apply syncIteration_posInv in E0 as [J1 J2]; [|assumption].
  destruct (IH _ J1 E) as [K1 K2]. split; [assumption|congruence].
Qed.

End PassKeepsPositions.

Lemma syncNodeList_posInv adapter fuel p n obj n' evs :
  posInv n = true ->
  syncNodeList adapter fuel p n obj = Ok (n', evs) ->
  posInv n' = true /\ parentIndex n' = parentIndex n.
Proof.
  revert p n obj n' evs; induction fuel as [|fuel IH]; intros p n obj n' evs H E;
    cbn [syncNodeList] in E; [discriminate|].
  bind_inv E. injection E as <- <-.
  apply syncLoop_posInv in E0 as [L1 L2]; [|exact IH|exact H].
  cbn [syncNode] in L2. rewrite posInv_setChildInitialized.
  split; [assumption|]. now destruct (syncNode a).
Qed.

(** ** One iteration of the pass, on a cached sequence split at the cursor *)

Lemma setParentIndex_same c : setParentIndex c (parentIndex c) = c.
Proof. now destruct c. Qed.

Lemma setChildren_same n : setChildren n (children n) = n.
Proof. now destruct n. Qed.

Lemma setChildren_twice n a b : setChildren (setChildren n a) b = setChildren n b.
Proof. reflexivity. Qed.

Lemma reindexed_refl l : reindexed l l.
Proof.
  induction l as [|c l IH]; constructor; auto.
  exists (parentIndex c). symmetry. apply setParentIndex_same.
Qed.

Lemma reindexed_renumber k l : reindexed l (renumber k l).
Proof.
  revert k; induction l as [|c l IH]; intros k; cbn [renumber]; constructor.
  - now exists k.
  - apply IH.
Qed.

Lemma reindexed_trans a b c : reindexed a b -> reindexed b c -> reindexed a c.
Proof.
  intros H; revert c; induction H as [|x y a b [k ->] _ IH]; intros c Hc.
  - inversion Hc. constructor.
  - inversion Hc as [|y' z b' c' [j ->] Hc']; subst. constructor.
    + now exists j.
    + now apply IH.
Qed.

Lemma reindexed_length a b : reindexed a b -> length a = length b.
Proof. apply Forall2_length. Qed.

Lemma firstn_size_app (pre rest : list InternalNode) k :
  size pre = k -> firstn (Z.to_nat k) (pre ++ rest) = pre.
Proof.
  unfold size; intros <-.
  rewrite Nat2Z.id, <- (Nat.add_0_r (length pre)), firstn_app_len.
  cbn [firstn]. apply app_nil_r.
Qed.

Lemma skipn_size_app (pre rest : list InternalNode) k :
  size pre = k -> skipn (Z.to_nat k) (pre ++ rest) = rest.
Proof.
  unfold size; intros <-.
  now rewrite Nat2Z.id, <- (Nat.add_0_r (length pre)), skipn_app_len.
Qed.

Lemma nth_error_size_app (pre rest : list InternalNode) k :
  size pre = k -> nth_error (pre ++ rest) (Z.to_nat k) = nth_error rest 0.
Proof.
  unfold size; intros <-.
  rewrite Nat2Z.id, nth_error_app2 by lia. now rewrite Nat.sub_diag.
Qed.

Lemma setNth_size_app (pre : list InternalNode) c rest k c' :
  size pre = k -> setNth (pre ++ c :: rest) k c' = pre ++ c' :: rest.
Proof.
  intros H. unfold setNth.
  rewrite (firstn_size_app _ _ _ H).
  replace (S (Z.to_nat k)) with (length pre + 1)%nat by (unfold size in H; lia).
  now rewrite skipn_app_len.
Qed.

Section Iteration.

Variable adapter : VirtualModelAdapter.
Variable sync : Ptr -> InternalNode -> Item -> result (InternalNode * list Signal).
Variable nodePtr : Ptr.
Variable parent : Item.
Variable index : QModelIndex.

(** A cached entry that is not found at or after the floor stays pending. *)
Lemma syncIteration_pending st cur :
  0 <= srcCur st ->
  nth_error (children (syncNode st)) (Z.to_nat (srcCur st)) = Some cur ->
  indexOf adapter parent (item cur) (destStart st) < 0 ->
  syncIteration adapter sync nodePtr parent index st =
  Ok (mkSync (syncNode st) (srcStart st) (srcCur st + 1) (destStart st)
             (syncLog st)).
Proof.
  intros H0 Hc Hn. unfold syncIteration.
  pose proof (nth_error_size _ _ _ Hc) as Hlt.
  replace (size (children (syncNode st)) <=? srcCur st) with false
    by (symmetry; apply Z.leb_gt; lia).
  rewrite Hc.
  replace (0 <=? indexOf adapter parent (item cur) (destStart st)) with false
    by (symmetry; apply Z.leb_gt; lia).
  reflexivity.
Qed.

(** The removal of the pending run [mid] that precedes a matched entry. *)
Lemma syncRemove_split st pre mid tail :
  children (syncNode st) = pre ++ mid ++ tail ->
  size pre = srcStart st -> size (pre ++ mid) = srcCur st ->
  exists tail',
    reindexed tail tail' /\
    syncRemove index false st =
    Ok (mkSync (setChildren (syncNode st) (pre ++ tail'))
               (srcStart st) (srcStart st) (destStart st)
               (syncLog st
                ++ if srcStart st <? srcCur st
                   then [BeginRemoveRows index (srcStart st) (srcCur st - 1);
                         EndRemoveRows]
                   else [])).
Proof.
  intros Hs Hp Hm. unfold syncRemove.
  pose proof (size_nonneg pre). pose proof (size_nonneg mid).
  rewrite size_app in Hm.
  destruct (srcStart st <? srcCur st) eqn:L.
  - apply Z.ltb_lt in L.
    unfold eraseChildren. rewrite Hs.
    replace ((0 <=? srcStart st) && (srcStart st <=? srcCur st)
             && (srcCur st <=? size (pre ++ mid ++ tail))) with true
      by (symmetry; rewrite !andb_true_iff, !size_app;
          pose proof (size_nonneg tail); repeat split; lia).
    destruct (nth_error_in_range (pre ++ mid ++ tail) (srcStart st))
      as [first Hf];
      [rewrite !size_app; pose proof (size_nonneg tail); lia|].
    rewrite Hf. cbn [bind].
    exists (renumber (parentIndex first) tail).
    split; [apply reindexed_renumber|].
    rewrite (firstn_size_app _ _ _ Hp).
    rewrite app_assoc, skipn_size_app by (rewrite size_app; lia).
    reflexivity.
  - apply Z.ltb_ge in L.
    assert (mid = []) as ->
        by (destruct mid as [|x mid]; [auto|];
            pose proof (size_nonneg mid); rewrite size_cons in Hm; lia).
    exists tail. split; [apply reindexed_refl|].
    cbn [app] in *. rewrite <- Hs, setChildren_same, app_nil_r.
    destruct st; cbn in *. f_equal. f_equal. lia.
Qed.

(** The removal of the pending run at the flushing iteration. *)
Lemma syncRemove_flush st pre mid :
  children (syncNode st) = pre ++ mid ++ [] ->
  size pre = srcStart st -> size (pre ++ mid) = srcCur st ->
  syncRemove index true st =
  Ok (mkSync (setChildren (syncNode st) (pre ++ [])) (srcStart st)
             (srcCur st) (destStart st)
             (syncLog st ++ removalSignals index (srcStart st) (srcCur st))).
Proof.
  intros Hs Hp Hm.
  destruct (syncRemove_split st pre mid [] Hs Hp Hm) as (tail' & R & E).
  inversion R; subst tail'.
  revert E. unfold syncRemove, removalSignals.
  destruct (srcStart st <? srcCur st) eqn:L.
  - destruct (eraseChildren _ _ _); cbn [bind]; try discriminate.
    now intros [= ->].
  - apply Z.ltb_ge in L. pose proof (size_nonneg mid). rewrite size_app in Hm.
    assert (mid = []) as ->
        by (destruct mid as [|x mid]; [auto|];
            pose proof (size_nonneg mid); rewrite size_cons in Hm; lia).
    intros _. cbn [app] in Hs. rewrite <- Hs, setChildren_same, app_nil_r.
    now destruct st.
Qed.

(** The insertion of the live items between the floor and the match. *)
Lemma syncInsert_split st pre tail destCur :
  children (syncNode st) = pre ++ tail -> size pre = srcCur st ->
  let count := Z.max 0 (destCur - destStart st) in
  exists tail',
    reindexed tail tail' /\
    syncInsert adapter parent index destCur st =
    Ok (mkSync
          (setChildren (syncNode st)
             (pre ++ freshNodes adapter parent (destStart st) 0 (srcCur st)
                       (Z.to_nat count) ++ tail'))
          (srcStart st) (srcCur st + count)
          (if destStart st <? destCur then destStart st + count else destStart st)
          (syncLog st
           ++ if destStart st <? destCur
              then [BeginInsertRows index (srcCur st) (srcCur st + count - 1);
                    EndInsertRows]
              else [])).
Proof.
  intros Hs Hp count.
  pose proof (size_nonneg pre). pose proof (size_nonneg tail).
  destruct (destStart st <? destCur) eqn:L.
  - apply Z.ltb_lt in L.
    rewrite syncInsert_inside by (rewrite ?Hs, ?size_app; lia).
    unfold inserted. rewrite Hs.
    rewrite (firstn_size_app _ _ _ Hp), (skipn_size_app _ _ _ Hp).
    replace count with (destCur - destStart st) by lia.
    eexists. split; [apply reindexed_renumber|reflexivity].
  - apply Z.ltb_ge in L.
    rewrite syncInsert_skip by lia.
    replace count with 0 by lia.
    exists tail. split; [apply reindexed_refl|].
    cbn [Z.to_nat freshNodes app].
    rewrite <- Hs, setChildren_same, app_nil_r, Z.add_0_r.
    now destruct st.
Qed.

(** The descent into the entry under the cursor. *)
Lemma syncDescend_split st pre cur post :
  children (syncNode st) = pre ++ cur :: post -> size pre = srcCur st ->
  syncDescend adapter sync nodePtr st =
  let (cur', initialized) := isInitialized adapter cur in
  if initialized then
    let* r := sync (nodePtr ++ [Z.to_nat (srcCur st)]) cur' (item cur') in
    let (cur'', evs) := r in
    Ok (mkSync (setChildren (syncNode st) (pre ++ cur'' :: post))
               (srcCur st + 1) (srcCur st) (destStart st) (syncLog st ++ evs))
  else
    Ok (mkSync (setChildren (syncNode st) (pre ++ cur' :: post))
               (srcStart st) (srcCur st) (destStart st) (syncLog st)).
Proof.
  intros Hs Hp. unfold syncDescend.
  rewrite Hs, (nth_error_size_app _ _ _ Hp). cbn [nth_error].
  destruct (isInitialized adapter cur) as [cur' initialized].
  destruct initialized.
  - destruct (sync _ cur' (item cur')) as [[cur'' evs]| |]; cbn [bind]; auto.
    now rewrite (setNth_size_app _ _ _ _ _ Hp).
  - now rewrite (setNth_size_app _ _ _ _ _ Hp).
Qed.

(** A cached entry found at live position [destCur]: the pending run before
    it goes, the live items below [destCur] come in, and the pass descends
    into the entry when its children are materialised. *)
Lemma syncIteration_match st pre mid cur post :
  children (syncNode st) = pre ++ mid ++ cur :: post ->
  size pre = srcStart st -> size (pre ++ mid) = srcCur st ->
  let destCur := indexOf adapter parent (item cur) (destStart st) in
  0 <= destCur ->
  let count := Z.max 0 (destCur - destStart st) in
  let fresh := freshNodes adapter parent (destStart st) 0 (srcStart st)
                          (Z.to_nat count) in
  let log := syncLog st ++ removalSignals index (srcStart st) (srcCur st)
             ++ insertionSignals index (srcStart st) (destStart st) destCur in
  exists k post',
    reindexed post post' /\
    syncIteration adapter sync nodePtr parent index st =
    let (cur', initialized) := isInitialized adapter (setParentIndex cur k) in
    if initialized then
      let* r := sync (nodePtr ++ [Z.to_nat (srcStart st + count)]) cur' (item cur') in
      let (cur'', evs) := r in
      Ok (mkSync (setChildren (syncNode st) (pre ++ fresh ++ cur'' :: post'))
                 (srcStart st + count + 1) (srcStart st + count + 1)
                 (destCur + 1) (log ++ evs))
    else
      Ok (mkSync (setChildren (syncNode st) (pre ++ fresh ++ cur' :: post'))
                 (srcStart st + 1) (srcStart st + count + 1)
                 (destCur + 1) log).
Proof.
  intros Hs Hp Hm destCur Hd count fresh log.
  pose proof (size_nonneg pre). pose proof (size_nonneg mid).
  pose proof (size_nonneg post).
  destruct (syncRemove_split st pre mid (cur :: post) Hs Hp Hm)
    as (tail1 & R1 & E1).
  set (st1 := mkSync (setChildren (syncNode st) (pre ++ tail1))
                     (srcStart st + 1) (srcStart st) (destStart st)
                     (syncLog st ++ removalSignals index (srcStart st) (srcCur st))).
  destruct (syncInsert_split st1 pre tail1 destCur eq_refl Hp)
    as (tail2 & R2 & E2).
  pose proof (reindexed_trans _ _ _ R1 R2) as R.
  inversion R as [|x cur2 l post2 [k ->] Rpost]; subst x l. subst tail2.
  exists k, post2. split; [exact Rpost|].
  unfold syncIteration.
  replace (size (children (syncNode st)) <=? srcCur st) with false
    by (symmetry; apply Z.leb_gt;
        rewrite Hs, app_assoc, size_app, size_cons; lia).
  assert (nth_error (children (syncNode st)) (Z.to_nat (srcCur st)) = Some cur)
    as -> by (rewrite Hs, app_assoc, (nth_error_size_app _ _ _ Hm); reflexivity).
  fold destCur.
  replace (0 <=? destCur) with true by (symmetry; apply Z.leb_le; lia).
  rewrite E1. cbn [bind syncNode srcCur destStart syncLog].
  fold (removalSignals index (srcStart st) (srcCur st)). fold st1.
  rewrite E2.
  cbn [bind syncNode srcStart srcCur destStart syncLog st1 setChildren children].
  rewrite setChildren_twice.
  fold count. fold fresh.
  rewrite (syncDescend_split _ (pre ++ fresh) (setParentIndex cur k) post2);
    [|cbn [syncNode setChildren children]; rewrite app_assoc; reflexivity
     |cbn [srcCur]; rewrite size_app; unfold size, fresh;
      rewrite freshNodes_length; fold (size pre); lia].
  cbn [syncNode srcStart srcCur destStart syncLog].
  change (if destStart st <? destCur
          then [BeginInsertRows index (srcStart st) (srcStart st + count - 1);
                EndInsertRows]
          else []) with (insertionSignals index (srcStart st) (destStart st) destCur).
  rewrite <- app_assoc. fold log.
  destruct (isInitialized adapter (setParentIndex cur k)) as [cur' initialized].
  destruct initialized.
  - destruct (sync _ cur' (item cur')) as [[cur'' evs]| |]; cbn [bind]; auto.
    cbn [syncNode srcStart srcCur destStart syncLog].
    now rewrite setChildren_twice, <- app_assoc.
  - cbn [bind syncNode srcStart srcCur destStart syncLog].
    now rewrite setChildren_twice, <- app_assoc.
Qed.

(** The flushing iteration, one past the last cached entry. *)
Lemma syncIteration_flush st pre mid :
  children (syncNode st) = pre ++ mid ->
  size pre = srcStart st -> size (pre ++ mid) = srcCur st ->
  let destCur := getItemsCount adapter parent in
  let count := Z.max 0 (destCur - destStart st) in
  syncIteration adapter sync nodePtr parent index st =
  if (srcStart st <? srcCur st) && (destStart st <? destCur) then Fault
  else
    Ok (mkSync
          (setChildren (syncNode st)
             (pre ++ freshNodes adapter parent (destStart st) 0 (srcCur st)
                       (Z.to_nat count)))
          (srcCur st + 1) (srcCur st + count + 1) (destCur + 1)
          (syncLog st ++ removalSignals index (srcStart st) (srcCur st)
           ++ insertionSignals index (srcCur st) (destStart st) destCur)).
Proof.
  intros Hs Hp Hm destCur count.
  pose proof (size_nonneg pre). pose proof (size_nonneg mid).
  unfold syncIteration.
  replace (size (children (syncNode st)) <=? srcCur st) with true
    by (symmetry; apply Z.leb_le; rewrite Hs; lia).
  cbn [Z.leb Z.compare]. fold destCur.
  rewrite <- (app_nil_r mid) in Hs.
  rewrite (syncRemove_flush st pre mid Hs Hp Hm).
  cbn [bind syncNode srcStart srcCur destStart syncLog].
  fold (removalSignals index (srcStart st) (srcCur st)).
  rewrite size_app in Hm.
  destruct (srcStart st <? srcCur st) eqn:L; cbn [andb].
  - apply Z.ltb_lt in L.
    destruct (destStart st <? destCur) eqn:D.
    + apply Z.ltb_lt in D.
      rewrite syncInsert_outside;
        [reflexivity|cbn [destStart]; lia|].
      cbn [srcCur syncNode children setChildren]. rewrite size_app.
      unfold size at 2. cbn [length]. lia.
    + apply Z.ltb_ge in D.
      rewrite syncInsert_skip by (cbn [destStart]; lia).
      cbn [bind syncNode srcStart srcCur destStart syncLog].
      unfold insertionSignals.
      replace (destStart st <? destCur) with false
        by (symmetry; apply Z.ltb_ge; lia).
      replace count with 0 by lia.
      cbn [Z.to_nat freshNodes]. rewrite !app_nil_r, !Z.add_0_r.
      reflexivity.
  - apply Z.ltb_ge in L.
    assert (mid = []) as ->
        by (destruct mid as [|x mid]; [auto|];
            pose proof (size_nonneg mid); rewrite size_cons in Hm; lia).
    cbn [app] in *. rewrite app_nil_r in Hs.
    set (st1 := mkSync _ _ _ _ _).
    assert (size pre = srcCur st1) as Hp1 by (cbn; unfold size in *; cbn in *; lia).
    assert (children (syncNode st1) = pre ++ []) as Hs1
        by (cbn [st1 syncNode setChildren children]; now rewrite app_nil_r).
    destruct (syncInsert_split st1 pre [] destCur Hs1 Hp1) as (tail' & R & E).
    inversion R; subst tail'. rewrite E. clear E.
    cbn [bind syncNode srcStart srcCur destStart syncLog st1].
    fold count. rewrite setChildren_twice, !app_nil_r, <- app_assoc.
    unfold insertionSignals. fold count. reflexivity.
Qed.

End Iteration.

(** ** The pass runs to its end *)

Lemma fuelFor_setParentIndex c k : fuelFor (setParentIndex c k) = fuelFor c.
Proof. now destruct c. Qed.

Lemma fuelFor_isInitialized adapter c :
  fuelFor (fst (isInitialized adapter c)) = fuelFor c.
Proof.
  destruct (isInitialized_shape adapter c) as [-> | ->]; [reflexivity|].
  now destruct c.
Qed.

Lemma fuelFor_children n c :
  In c (children n) -> (S (fuelFor c) <= fuelFor n)%nat.
Proof.
  destruct n as [pi it cs q h ci]. cbn [children fuelFor]. intros Hin.
  assert (fuelFor c <= list_max (map fuelFor cs))%nat; [|lia].
  pose proof (list_max_le (map fuelFor cs) (list_max (map fuelFor cs))) as [H _].
  specialize (H (le_n _)). rewrite Forall_forall in H.
  apply H, in_map, Hin.
Qed.

Lemma fuelFor_length n : (S (S (length (children n))) <= fuelFor n)%nat.
Proof. destruct n as [pi it cs q h ci]. cbn [children fuelFor]. lia. Qed.

Lemma split_at (l : list InternalNode) k :
  0 <= k <= size l ->
  exists pre mid, l = pre ++ mid /\ size pre = k.
Proof.
  intros H. exists (firstn (Z.to_nat k) l), (skipn (Z.to_nat k) l).
  split; [symmetry; apply firstn_skipn|now apply size_firstn].
Qed.

Section PassRuns.

Variable adapter : VirtualModelAdapter.
Variable sync : Ptr -> InternalNode -> Item -> result (InternalNode * list Signal).
Variable nodePtr : Ptr.
Variable parent : Item.
Variable index : QModelIndex.
Variable bound : nat.

Hypothesis sync_runs :
  forall p n obj, (fuelFor n <= bound)%nat -> sync p n obj <> OutOfFuel.

Lemma syncLoop_runs fuel :
  forall st done todo,
    children (syncNode st) = done ++ todo ->
    size done = srcCur st -> 0 <= srcStart st <= srcCur st ->
    Forall (fun c => (fuelFor c <= bound)%nat) todo ->
    (length todo < fuel)%nat ->
    syncLoop adapter sync nodePtr parent fuel index st <> OutOfFuel.
Proof.
  induction fuel as [|fuel IH]; intros st done todo Hs Hd Hr Hb Hf; [lia|].
  cbn [syncLoop].
  destruct (srcCur st <=? size (children (syncNode st))); [|discriminate].
  destruct (split_at done (srcStart st)) as (pre & mid & -> & Hp); [lia|].
  rewrite <- app_assoc in Hs.
  destruct todo as [|cur post].
  - (* the flushing iteration ends the loop *)
    rewrite app_nil_r in Hs.
    rewrite (syncIteration_flush _ _ _ _ _ _ pre mid Hs Hp Hd).
    destruct (_ && _); cbn [bind]; [discriminate|].
    destruct fuel; cbn [syncLoop syncNode srcCur children setChildren].
    + rewrite size_app. unfold size at 2. rewrite freshNodes_length.
      rewrite size_app in Hd.
      pose proof (size_nonneg mid).
      match goal with |- context [?a <=? ?b] =>
        replace (a <=? b) with false by (symmetry; apply Z.leb_gt; lia) end.
      discriminate.
    + rewrite size_app. unfold size at 2. rewrite freshNodes_length.
      rewrite size_app in Hd.
      pose proof (size_nonneg mid).
      match goal with |- context [?a <=? ?b] =>
        replace (a <=? b) with false by (symmetry; apply Z.leb_gt; lia) end.
      discriminate.
  - inversion Hb as [|? ? Hcur Hpost]; subst.
    cbn [length] in Hf.
    destruct (Z_lt_ge_dec (indexOf adapter parent (item cur) (destStart st)) 0)
      as [Hn|Hn].
    + (* the entry stays pending *)
      rewrite (syncIteration_pending _ _ _ _ _ _ cur); [|lia| |exact Hn].
      2:{ rewrite Hs, app_assoc, (nth_error_size_app _ _ _ Hd). reflexivity. }
      cbn [bind].
      apply (IH _ ((pre ++ mid) ++ [cur]) post); cbn [syncNode srcStart srcCur];
        auto; try lia.
      * rewrite Hs, <- !app_assoc. reflexivity.
      * rewrite size_app, Hd. reflexivity.
    + (* the entry is matched *)
      destruct (syncIteration_match adapter sync nodePtr parent index
                  st pre mid cur post Hs Hp Hd) as (k & post' & R & ->); [lia|].
      set (count := Z.max 0 _).
      set (fresh := freshNodes _ _ _ _ _ _).
      assert (size fresh = count) as Hfresh
          by (unfold size, fresh; rewrite freshNodes_length; lia).
      assert (Forall (fun c => (fuelFor c <= bound)%nat) post') as Hpost'.
      { clear - R Hpost. induction R as [|x y a b [j ->] _ IHR];
          inversion Hpost; subst; constructor; auto.
        now rewrite fuelFor_setParentIndex. }
      pose proof (reindexed_length _ _ R) as Hlen.
      pose proof (fuelFor_isInitialized adapter (setParentIndex cur k)) as Hfi.
      rewrite fuelFor_setParentIndex in Hfi.
      destruct (isInitialized adapter (setParentIndex cur k)) as [cur' ini].
      cbn [fst] in Hfi.
      destruct ini.
      * pose proof (sync_runs (nodePtr ++ [Z.to_nat (srcStart st + count)])
                              cur' (item cur')) as Hrun.
        destruct (sync _ cur' (item cur')) as [[cur'' evs]| |]; cbn [bind];
          [|discriminate|exfalso; apply Hrun; [lia|reflexivity]].
        apply (IH _ (pre ++ fresh ++ [cur'']) post');
          cbn [syncNode srcStart srcCur children setChildren]; auto; try lia.
        -- rewrite <- !app_assoc. reflexivity.
        -- rewrite !size_app, Hfresh, Hp. unfold size. cbn [length]. lia.
      * cbn [bind].
        apply (IH _ (pre ++ fresh ++ [cur']) post');
          cbn [syncNode srcStart srcCur children setChildren]; auto; try lia.
        -- rewrite <- !app_assoc. reflexivity.
        -- rewrite !size_app, Hfresh, Hp. unfold size. cbn [length]. lia.
Qed.

End PassRuns.

Lemma syncNodeList_runs adapter fuel :
  forall p n obj,
    (fuelFor n <= fuel)%nat -> syncNodeList adapter fuel p n obj <> OutOfFuel.
Proof.
  induction fuel as [|fuel IH]; intros p n obj Hf.
  - destruct n; cbn in Hf; lia.
  - cbn [syncNodeList].
    pose proof (fuelFor_length n) as Hlen.
    apply bind_not_OutOfFuel; [|intros; discriminate].
    apply (syncLoop_runs adapter (syncNodeList adapter fuel) p obj _ fuel IH
                         fuel _ [] (children n));
      cbn [syncNode srcStart srcCur app]; auto; try lia.
    apply Forall_forall. intros c Hin.
    pose proof (fuelFor_children n c Hin). lia.
Qed.

(** ** The pass on sample inputs *)

Lemma construct_AB :
  construct 4 (flatSource [itemA; itemB]) =
  Ok (modelOf cacheAB (flatSource [itemA; itemB]),
      [SyncTreeEntered 0; BeginInsertRows InvalidIndex 0 1; EndInsertRows]).
Proof. vm_compute. reflexivity. Qed.

(** C1 (order fidelity), evaluated on the cache [A, B] left by the
    constructor after the live order has become [X, A, B]: the pass inserts
    [X] and then removes the matched entry [A], so the cache ends as [X, B]
    and differs from the live order. *)
Theorem sync_drops_matched_entry :
  exists root' log,
    syncNodeList (flatSource [itemX; itemA; itemB]) 5 [] cacheAB nullptr
    = Ok (root', log) /\
    log = [BeginInsertRows InvalidIndex 0 0; EndInsertRows;
           BeginRemoveRows InvalidIndex 1 1; EndRemoveRows] /\
    items (children root') = [itemX; itemB] /\
    items (children root') <> [itemX; itemA; itemB].
Proof.
  eexists. eexists. split; [vm_compute; reflexivity|].
  repeat split. discriminate.
Qed.

(** C2 (idempotence), evaluated on the same input: a second pass over the
    unchanged source [X, A, B] still emits an insertion and a removal. *)
Theorem second_sync_still_emits :
  exists root1 log1 root2 log2,
    syncNodeList (flatSource [itemX; itemA; itemB]) 5 [] cacheAB nullptr
    = Ok (root1, log1) /\
    syncNodeList (flatSource [itemX; itemA; itemB]) 5 [] root1 nullptr
    = Ok (root2, log2) /\
    log2 = [BeginInsertRows InvalidIndex 1 1; EndInsertRows;
            BeginRemoveRows InvalidIndex 2 2; EndRemoveRows] /\
    items (children root2) = [itemX; itemA].
Proof.
  do 4 eexists. split; [vm_compute; reflexivity|].
  split; [vm_compute; reflexivity|]. split; reflexivity.
Qed.

(** A cache whose every entry has left the source cannot be refilled: the
    flushing iteration removes the pending run and then inserts at the old
    end of the vector. *)
Lemma sync_replace_all_faults :
  syncNodeList (flatSource [itemX]) 5 [] cacheAB nullptr = Fault.
Proof. vm_compute. reflexivity. Qed.

(** C4 as stated fails on the swap of [A, B] into [B, A], here with the
    children of [A] loaded: the log is not a removal followed by an
    insertion. *)
Lemma swap_not_remove_then_insert :
  ~ (forall root' log,
        syncNodeList (flatSource [itemB; itemA]) 5 [] cacheABloaded nullptr
        = Ok (root', log) ->
        (exists index f1 l1 f2 l2,
            log = [BeginRemoveRows index f1 l1; EndRemoveRows;
                   BeginInsertRows index f2 l2; EndInsertRows]) /\
        items (children root') = [itemB; itemA]).
Proof.
  intros H.
  assert (exists root',
             syncNodeList (flatSource [itemB; itemA]) 5 [] cacheABloaded nullptr
             = Ok (root', [BeginInsertRows InvalidIndex 0 0; EndInsertRows;
                           BeginRemoveRows InvalidIndex 2 2; EndRemoveRows]))
    as [root' E] by (eexists; vm_compute; reflexivity).
  destruct (H _ _ E) as [(index & f1 & l1 & f2 & l2 & E') _].
  discriminate E'.
Qed.

(** C8 (cyclic ancestry), evaluated on an item whose parent reports itself
    as its own parent: the inner call returns [nullptr] and the outer call
    dereferences it. *)
Theorem getItemNode_cyclic_parent_faults :
  getItemParent cyclicSource itemX = itemP /\
  getItemParent cyclicSource itemP = itemP /\
  getItemNode 3 (modelOf cacheAB cyclicSource) itemP
  = Ok (modelOf cacheAB cyclicSource, None) /\
  getItemNode 3 (modelOf cacheAB cyclicSource) itemX = Fault /\
  getItemIndex 3 (modelOf cacheAB cyclicSource) itemX = Fault.
Proof. repeat split; vm_compute; reflexivity. Qed.

(** C10 (safety of item resolution), evaluated on a stale cache: the root
    holds [A, B], the source has gained [X] at live position 2, and
    resolving [X] indexes the children of the root past their end. *)
Theorem getItemNode_stale_cache_faults :
  let m := modelOf cacheAB (rootedSource [itemA; itemB; itemX]) in
  getItemNode 3 m rootObject = Ok (m, Some []) /\
  indexOf (m_adapter m) rootObject itemX 0 = 2 /\
  size (children (loadChildren (m_adapter m) (m_root m))) = 2 /\
  getItemNode 3 m itemX = Fault.
Proof. repeat split; vm_compute; reflexivity. Qed.

(** C9 as stated fails for the root: with its children loaded and empty,
    [hasChildren] still answers [true], not "children non-empty". *)
Lemma hasChildren_root_ignores_cache :
  ~ (forall m m' answer,
        childInitialized (m_root m) = true ->
        hasChildrenAt m InvalidIndex = Ok (m', answer) ->
        answer = (0 <? size (children (m_root m)))).
Proof.
  intros H.
  specialize (H (modelOf (mkNode 0 nullptr [] false false true) (flatSource []))
                _ true eq_refl eq_refl).
  discriminate H.
Qed.

(** An item that reports itself as its own parent resolves to [nullptr]
    at once. *)
Lemma getItemNode_self_parent fuel m obj :
  getItemParent (m_adapter m) obj = obj ->
  getItemNode fuel m obj = Ok (m, None) /\
  getItemIndex fuel m obj = Ok (m, InvalidIndex).
Proof.
  intros H.
  assert (getItemNode fuel m obj = Ok (m, None)) as E
      by (destruct fuel; cbn [getItemNode]; now rewrite H, Z.eqb_refl).
  split; [exact E|]. unfold getItemIndex. now rewrite E.
Qed.

(** ** The position invariant after every structural operation *)

Lemma syncTree_posInv fuel m m' log :
  posInv (m_root m) = true -> syncTree fuel m = Ok (m', log) ->
  posInv (m_root m') = true.
Proof.
  unfold syncTree. intros H E. bind_inv E. destruct a as [root' evs].
  injection E as <- <-. cbn [m_root setSyncing setRoot].
  now apply syncNodeList_posInv in E0 as [E0 _].
Qed.

(** C3: [children[i]->parentIndex == i] holds for every node of the shadow
    tree when a structural operation completes on a tree that satisfied it:
    the removal of a child range ([eraseChildren]), the insertion of a child
    range (the insertion block of the pass, which ends in
    [insertedChildren]), and a reconciliation pass ([syncNodeList], and
    [syncTree] over the whole tree); the pass does complete or fault once it
    is given [fuelFor n] units of fuel. *)
Theorem position_invariant_after_structural_operations
        (adapter : VirtualModelAdapter) (n : InternalNode) :
  posInv n = true ->
  (forall b e n', eraseChildren n b e = Ok n' -> posInv n' = true) /\
  (forall lastIndex, 0 <= lastIndex ->
                     posInv (insertedChildren n lastIndex) = true) /\
  (forall parent index destCur st st',
      syncNode st = n ->
      syncInsert adapter parent index destCur st = Ok st' ->
      posInv (syncNode st') = true) /\
  (forall fuel p parent n' log,
      syncNodeList adapter fuel p n parent = Ok (n', log) ->
      posInv n' = true) /\
  (forall fuel m m' log,
      m_root m = n -> syncTree fuel m = Ok (m', log) ->
      posInv (m_root m') = true) /\
  (forall fuel p parent,
      (fuelFor n <= fuel)%nat ->
      syncNodeList adapter fuel p n parent <> OutOfFuel).
Proof.
  intros H. repeat split.
  - intros b e n'. now apply eraseChildren_posInv.
  - intros lastIndex H0. now apply insertedChildren_posInv.
  - intros parent index destCur st st' <- E.
    eapply syncInsert_posInv; eauto.
  - intros fuel p parent n' log E.
    now apply syncNodeList_posInv in E as [E _].
  - intros fuel m m' log <- E. eapply syncTree_posInv; eauto.
  - intros fuel p parent Hf. now apply syncNodeList_runs.
Qed.

Lemma position_invariant_witness :
  posInv cacheAB = true /\
  (exists n', eraseChildren cacheAB 0 1 = Ok n' /\ posInv n' = true) /\
  posInv (insertedChildren cacheAB 1) = true /\
  (exists n' log,
      syncNodeList (flatSource [itemX; itemA; itemB]) 5 [] cacheAB nullptr
      = Ok (n', log) /\ posInv n' = true).
Proof.
  assert (posInv cacheAB = true) as H by reflexivity.
  destruct (position_invariant_after_structural_operations
              (flatSource [itemX; itemA; itemB]) cacheAB H)
    as (He & Hi & _ & Hs & _ & _).
  split; [exact H|]. split; [|split].
  - eexists. split; [reflexivity|]. apply (He 0 1). reflexivity.
  - apply Hi. lia.
  - destruct (syncNodeList (flatSource [itemX; itemA; itemB]) 5 [] cacheAB nullptr)
      as [[n' log]| |] eqn:E; [|vm_compute in E; discriminate E..].
    exists n', log. split; [reflexivity|]. exact (Hs _ _ _ _ _ E).
Defined.

(** ** Payload reads inside an update bracket *)

(** C7: while [m_updating > 0], [data] answers the default [QVariant] for
    every index and role; it neither follows the index nor asks the adapter,
    so the answer is the same for every adapter and never a fault. *)
Theorem data_default_while_updating (m : VirtualTreeModel) :
  0 < m_updating m ->
  forall index role,
    data m index role = Ok None /\
    forall adapter', data (setAdapter m adapter') index role = Ok None.
Proof.
  intros H index role.
  assert (forall m0, 0 < m_updating m0 -> data m0 index role = Ok None) as K.
  { intros m0 H0. unfold data. destruct (isValid index); cbn [negb]; auto.
    now replace (0 <? m_updating m0) with true by (symmetry; apply Z.ltb_lt; lia). }
  split; [now apply K|]. intros adapter'. now apply K.
Qed.

Lemma data_default_while_updating_witness :
  data (beginUpdate (modelOf cacheAB (flatSource [itemA; itemB])))
       (ModelIndex 0 0 [0%nat]) 0 = Ok None.
Proof.
  apply (data_default_while_updating
           (beginUpdate (modelOf cacheAB (flatSource [itemA; itemB])))).
  cbn. lia.
Defined.

(** ** The log of a pass holds row signals only *)

Section PassLog.

Variable adapter : VirtualModelAdapter.
Variable sync : Ptr -> InternalNode -> Item -> result (InternalNode * list Signal).
Variable nodePtr : Ptr.
Variable parent : Item.

Hypothesis sync_rows :
  forall p n obj n' evs,
    sync p n obj = Ok (n', evs) -> forallb isRowSignal evs = true.

Lemma syncRemove_rows index finishing st st' :
  rowsOnly st -> syncRemove index finishing st = Ok st' -> rowsOnly st'.
Proof.
  unfold rowsOnly. intros H E.
  apply syncRemove_Ok in E as [[_ ->] | (first & _ & _ & _ & ->)]; [auto|].
  cbn [syncLog]. now rewrite forallb_app, H.
Qed.

Lemma syncInsert_rows index destCur st st' :
  rowsOnly st -> syncInsert adapter parent index destCur st = Ok st' ->
  rowsOnly st'.
Proof.
  unfold rowsOnly. intros H E.
  apply syncInsert_Ok in E as [[_ ->] | (_ & _ & ->)]; [auto|].
  unfold inserted. cbn [syncLog]. now rewrite forallb_app, H.
Qed.

Lemma syncDescend_rows st st' :
  rowsOnly st -> syncDescend adapter sync nodePtr st = Ok st' -> rowsOnly st'.
Proof.
  unfold rowsOnly, syncDescend. intros H E.
  destruct (nth_error _ _) as [cur|]; [|discriminate].
  destruct (isInitialized adapter cur) as [cur' initialized].
  destruct initialized.
  - bind_inv E. destruct a as [cur'' evs]. injection E as <-. cbn [syncLog].
    rewrite forallb_app, H. cbn [andb]. eapply sync_rows; eauto.
  - injection E as <-. exact H.
Qed.

Lemma syncIteration_rows index st st' :
  rowsOnly st ->
  syncIteration adapter sync nodePtr parent index st = Ok st' -> rowsOnly st'.
Proof.
  unfold syncIteration. intros H E.
  bind_inv E. injection E as <-. unfold rowsOnly. cbn [syncLog].
  set (finishing := size (children (syncNode st)) <=? srcCur st) in *.
  set (curNode := if finishing then None else _) in *.
  set (destCur := match curNode with Some c => _ | None => 0 end) in *.
  destruct (0 <=? destCur); [|injection E0 as <-; auto].
  bind_inv E0. apply syncRemove_rows in E; [|assumption].
  bind_inv E0. apply syncInsert_rows in E1; [|exact E].
  destruct curNode.
  - apply syncDescend_rows in E0; auto.
  - injection E0 as <-. exact E1.
Qed.

Lemma syncLoop_rows fuel index st st' :
  rowsOnly st ->
  syncLoop adapter sync nodePtr parent fuel index st = Ok st' -> rowsOnly st'.
Proof.
  revert st; induction fuel as [|fuel IH]; intros st H E; cbn [syncLoop] in E;
    destruct (srcCur st <=? size (children (syncNode st)));
    try discriminate; try (injection E as <-; now auto).
  bind_inv E. apply syncIteration_rows in E0; eauto.
Qed.

End PassLog.

Lemma syncNodeList_rows adapter fuel :
  forall p n obj n' log,
    syncNodeList adapter fuel p n obj = Ok (n', log) ->
    forallb isRowSignal log = true.
Proof.
  induction fuel as [|fuel IH]; intros p n obj n' log E;
    cbn [syncNodeList] in E; [discriminate|].
  bind_inv E. injection E as <- <-.
  eapply syncLoop_rows in E0; [exact E0|exact IH|reflexivity].
Qed.

Lemma countOf_app f a b : countOf f (a ++ b) = (countOf f a + countOf f b)%nat.
Proof. unfold countOf. now rewrite filter_app, length_app. Qed.

Lemma countOf_rows f log :
  (forall s, isRowSignal s = true -> f s = false) ->
  forallb isRowSignal log = true -> countOf f log = 0%nat.
Proof.
  intros Hf. unfold countOf.
  induction log as [|s log IH]; cbn [forallb filter]; [reflexivity|].
  intros H. apply andb_true_iff in H as [H1 H2].
  rewrite (Hf _ H1). now apply IH.
Qed.

(** ** Nested update brackets *)

Lemma beginUpdates_updating n m :
  m_updating (beginUpdates n m) = m_updating m + Z.of_nat n.
Proof.
  revert m; induction n as [|n IH]; intros m; cbn [beginUpdates]; [lia|].
  rewrite IH. cbn. lia.
Qed.

Lemma beginUpdates_setUpdating n m :
  beginUpdates n m = setUpdating m (m_updating m + Z.of_nat n).
Proof.
  revert m; induction n as [|n IH]; intros m; cbn [beginUpdates].
  - rewrite Z.add_0_r. now destruct m.
  - rewrite IH. unfold beginUpdate, setUpdating. cbn. f_equal. lia.
Qed.

(** An [endUpdate] below the outermost one only decrements the depth. *)
Lemma endUpdate_inner fuel m :
  m_updating m <> 1 ->
  endUpdate fuel m =
  Ok (setUpdating m (m_updating m - 1),
      if m_updating m - 1 =? 0 then [DataChanged InvalidIndex InvalidIndex] else []).
Proof.
  intros H. unfold endUpdate.
  replace (m_updating m =? 1) with false by (symmetry; apply Z.eqb_neq; lia).
  reflexivity.
Qed.

Lemma endUpdates_inner fuel k m :
  m_updating m = 1 + Z.of_nat k ->
  endUpdates fuel k m = Ok (setUpdating m 1, []).
Proof.
  revert m; induction k as [|k IH]; intros m H; cbn [endUpdates].
  - replace 1 with (m_updating m) by lia. now destruct m.
  - rewrite endUpdate_inner by lia. cbn [bind].
    replace (m_updating m - 1 =? 0) with false by (symmetry; apply Z.eqb_neq; lia).
    rewrite IH by (cbn [m_updating setUpdating]; lia).
    reflexivity.
Qed.

Lemma endUpdates_app fuel j k m :
  endUpdates fuel (j + k) m =
  let* r1 := endUpdates fuel j m in
  let (m1, log1) := r1 in
  let* r2 := endUpdates fuel k m1 in
  let (m2, log2) := r2 in
  Ok (m2, log1 ++ log2).
Proof.
  revert m; induction j as [|j IH]; intros m; cbn [Nat.add endUpdates bind].
  - destruct (endUpdates fuel k m) as [[m2 log2]| |]; reflexivity.
  - destruct (endUpdate fuel m) as [[m1 log1]| |]; cbn [bind]; auto.
    rewrite IH.
    destruct (endUpdates fuel j m1) as [[m2 log2]| |]; cbn [bind]; auto.
    destruct (endUpdates fuel k m2) as [[m3 log3]| |]; cbn [bind]; auto.
    now rewrite app_assoc.
Qed.

(** The outermost [endUpdate]: the pass runs at depth [1], then the depth
    drops to [0] and [dataChanged] is emitted. *)
Lemma endUpdate_outermost fuel m :
  m_updating m = 1 ->
  endUpdate fuel m =
  let* r := syncTree fuel m in
  let (m1, log) := r in
  Ok (setUpdating m1 0, log ++ [DataChanged InvalidIndex InvalidIndex]).
Proof.
  intros H. unfold endUpdate. rewrite H. cbn [Z.eqb Pos.eqb].
  unfold syncTree.
  destruct (syncNodeList _ _ _ _ _) as [[root' evs]| |]; cbn [bind]; auto.
  cbn [m_updating setSyncing setRoot]. rewrite H. reflexivity.
Qed.

Lemma syncTree_log fuel m m' log :
  syncTree fuel m = Ok (m', log) ->
  exists evs,
    log = SyncTreeEntered (m_updating m) :: evs /\
    forallb isRowSignal evs = true /\
    m_updating m' = m_updating m.
Proof.
  unfold syncTree. intros E. bind_inv E. destruct a as [root' evs].
  injection E as <- <-. exists evs. repeat split.
  eapply syncNodeList_rows; eauto.
Qed.

Lemma syncTree_runs fuel m :
  (fuelFor (m_root m) <= fuel)%nat -> syncTree fuel m <> OutOfFuel.
Proof.
  intros H. unfold syncTree.
  apply bind_not_OutOfFuel; [now apply syncNodeList_runs|].
  intros [root' evs] _. discriminate.
Qed.

Lemma nestedUpdates_unfold fuel N m :
  (1 <= N)%nat -> m_updating m = 0 ->
  endUpdates fuel (N - 1) (beginUpdates N m) = Ok (setUpdating m 1, []) /\
  nestedUpdates fuel N m =
  let* r := syncTree fuel (setUpdating m 1) in
  let (m1, log) := r in
  Ok (setUpdating m1 0, log ++ [DataChanged InvalidIndex InvalidIndex]).
Proof.
  intros HN H0.
  assert (endUpdates fuel (N - 1) (beginUpdates N m) = Ok (setUpdating m 1, []))
    as Hinner.
  { rewrite endUpdates_inner by (rewrite beginUpdates_updating; lia).
    now rewrite beginUpdates_setUpdating. }
  split; [exact Hinner|].
  unfold nestedUpdates.
  replace N with ((N - 1) + 1)%nat at 1 by lia.
  rewrite endUpdates_app, Hinner. cbn [bind endUpdates].
  rewrite endUpdate_outermost by reflexivity.
  destruct (syncTree fuel (setUpdating m 1)) as [[m1 log]| |]; cbn [bind]; auto.
  now rewrite app_nil_r.
Qed.



(** ** Pointers into the tree *)

Lemma nth_error_setNth cs i c c' :
  nth_error cs i = Some c -> nth_error (setNth cs (Z.of_nat i) c') i = Some c'.
Proof.
  intros H. unfold setNth. rewrite Nat2Z.id.
  assert (i < length cs)%nat as Hlt by (apply nth_error_Some; congruence).
  rewrite nth_error_app2 by (rewrite length_firstn; lia).
  rewrite length_firstn.
  replace (i - Nat.min i (length cs))%nat with 0%nat by lia.
  reflexivity.
Qed.

Lemma nodeAt_updateAt root p f n :
  nodeAt root p = Some n -> nodeAt (updateAt root p f) p = Some (f n).
Proof.
  revert root; induction p as [|i p IH]; intros root H; cbn [nodeAt updateAt] in *.
  - now injection H as ->.
  - destruct (nth_error (children root) i) as [c|] eqn:E; [|discriminate].
    cbn [children setChildren].
    rewrite (nth_error_setNth _ _ _ _ E). now apply IH.
Qed.

Lemma updateAt_same root p n :
  nodeAt root p = Some n -> updateAt root p (fun _ => n) = root.
Proof.
  revert root; induction p as [|i p IH]; intros root H; cbn [nodeAt updateAt] in *.
  - now injection H as ->.
  - destruct (nth_error (children root) i) as [c|] eqn:E; [|discriminate].
    rewrite (IH _ H), setNth_same by (now rewrite Nat2Z.id).
    apply setChildren_same.
Qed.

Lemma setRoot_same m : setRoot m (m_root m) = m.
Proof. now destruct m. Qed.

(** ** The presence probe *)

(** C9, amended: for a valid index (neither row nor column negative),
    [hasChildren] answers "children non-empty" when the node's children are
    loaded, and otherwise asks [hasItems], records
    [hasChildrenQueryed = true] and [hasChildren = result] in the node and
    answers the result, leaving [children] and [childInitialized] as they
    were; for an index that is not valid (the default index, which stands
    for the root, or one with a negative row or column) it answers [true]
    and touches nothing. *)
Theorem hasChildren_answer (m : VirtualTreeModel) :
  (forall idx, isValid idx = false -> hasChildrenAt m idx = Ok (m, true)) /\
  forall row column p n,
    0 <= row -> 0 <= column ->
    nodeAt (m_root m) p = Some n ->
    (childInitialized n = true ->
     hasChildrenAt m (ModelIndex row column p)
     = Ok (m, 0 <? size (children n))) /\
    (childInitialized n = false ->
     exists m' n',
       hasChildrenAt m (ModelIndex row column p)
       = Ok (m', hasItems (m_adapter m) (item n)) /\
       nodeAt (m_root m') p = Some n' /\
       hasChildrenQueryed n' = true /\
       hasChildren n' = hasItems (m_adapter m) (item n) /\
       children n' = children n /\
       childInitialized n' = false /\
       item n' = item n /\ parentIndex n' = parentIndex n).
Proof.
  split; [intros idx Hv; unfold hasChildrenAt; now rewrite Hv|].
  intros row column p n Hrow Hcol Hn.
  assert (isValid (ModelIndex row column p) = true) as Hv
      by (apply andb_true_iff; split; now apply Z.leb_le).
  unfold hasChildrenAt, deref, hasChildrenOf, getNode.
  rewrite Hv. cbn [negb internalPointer]. rewrite Hn. cbn [bind].
  split; intros Hc; rewrite Hc.
  - now rewrite (updateAt_same _ _ _ Hn), setRoot_same.
  - eexists. eexists. split; [reflexivity|].
    cbn [m_root setRoot].
    rewrite (nodeAt_updateAt _ _ (fun _ => _) _ Hn).
    repeat split. exact Hc.
Qed.

Lemma hasChildren_answer_witness :
  exists m',
    hasChildrenAt (modelOf cacheAB (flatSource [itemA; itemB]))
                  (ModelIndex 0 0 [0%nat])
    = Ok (m', false) /\
    nodeAt (m_root m') [0%nat]
    = Some (setQueried (newNode itemA 0) true false).
Proof.
  destruct (hasChildren_answer (modelOf cacheAB (flatSource [itemA; itemB])))
    as [_ H].
  destruct (H 0 0 [0%nat] (newNode itemA 0) ltac:(lia) ltac:(lia) eq_refl)
    as [_ H'].
  destruct (H' eq_refl) as (m' & n' & E & Hn & _).
  exists m'. split; [exact E|].
  injection E as <-. reflexivity.
Defined.

(** ** A pass over a node without cached children *)

Lemma items_freshNodes adapter obj ds i cur todo :
  items (freshNodes adapter obj ds i cur todo) =
  map (fun j => getItem adapter obj (ds + i + Z.of_nat j)) (seq 0 todo).
Proof.
  unfold items.
  revert i cur; induction todo as [|t IH]; intros i cur;
    cbn [freshNodes map seq]; [reflexivity|].
  cbn [item newNode]. rewrite Z.add_0_r. f_equal.
  rewrite IH, <- seq_shift, map_map.
  apply map_ext. intros j. f_equal. lia.
Qed.

Lemma items_freshNodes_live adapter obj cur :
  items (freshNodes adapter obj 0 0 cur
                    (Z.to_nat (Z.max 0 (getItemsCount adapter obj - 0)))) =
  liveItems adapter obj.
Proof.
  rewrite items_freshNodes. unfold liveItems.
  replace (Z.max 0 (getItemsCount adapter obj - 0))
    with (Z.max 0 (getItemsCount adapter obj)) by lia.
  replace (Z.to_nat (Z.max 0 (getItemsCount adapter obj)))
    with (Z.to_nat (getItemsCount adapter obj)) by lia.
  apply map_ext. intros j. reflexivity.
Qed.

(** With no cached child the pass is one flushing iteration: it inserts the
    whole live sequence as one range. *)
Lemma syncNodeList_empty adapter fuel p n obj :
  children n = [] ->
  syncNodeList adapter (S (S fuel)) p n obj =
  Ok (setChildInitialized
        (setChildren n
           (freshNodes adapter obj 0 0 0
              (Z.to_nat (Z.max 0 (getItemsCount adapter obj - 0)))))
        true,
      insertionSignals (getIndex p n 0) 0 0 (getItemsCount adapter obj)).
Proof.
  intros Hn. cbn [syncNodeList syncLoop syncNode srcCur].
  rewrite Hn. cbn [size length Z.of_nat Z.leb Z.compare].
  rewrite (syncIteration_flush adapter _ p obj _ _ [] []);
    [|cbn [syncNode]; now rewrite Hn|reflexivity|reflexivity].
  cbn [srcStart srcCur destStart syncLog syncNode Z.ltb Z.compare andb bind app].
  unfold removalSignals. cbn [Z.ltb Z.compare app].
  set (count := Z.max 0 (getItemsCount adapter obj - 0)).
  set (fresh := freshNodes _ _ _ _ _ _).
  assert (size fresh = count) as Hfresh
      by (unfold size, fresh; rewrite freshNodes_length; lia).
  assert ((0 + count + 1 <=? size (children (setChildren n fresh))) = false) as Hexit
      by (apply Z.leb_gt; cbn [children setChildren]; lia).
  destruct fuel; cbn [syncLoop syncNode srcCur syncLog]; rewrite Hexit;
    reflexivity.
Qed.

(** ** What the loop leaves alone

    The entries below [srcStart] are settled: later iterations neither
    remove nor replace them, and the log only grows. *)

Lemma firstn_le_eq {A} (a b : list A) i j :
  (i <= j)%nat -> firstn j a = firstn j b -> firstn i a = firstn i b.
Proof.
  intros Hij H.
  rewrite <- (Nat.min_l i j Hij), <- !firstn_firstn, H. reflexivity.
Qed.

Section SettledPrefix.

Variable adapter : VirtualModelAdapter.
Variable sync : Ptr -> InternalNode -> Item -> result (InternalNode * list Signal).
Variable nodePtr : Ptr.
Variable parent : Item.
Variable index : QModelIndex.

Lemma syncLoop_settled fuel :
  forall st done todo st',
    children (syncNode st) = done ++ todo ->
    size done = srcCur st -> 0 <= srcStart st <= srcCur st ->
    syncLoop adapter sync nodePtr parent fuel index st = Ok st' ->
    firstn (Z.to_nat (srcStart st)) (children (syncNode st'))
    = firstn (Z.to_nat (srcStart st)) (children (syncNode st)) /\
    exists more, syncLog st' = syncLog st ++ more.
Proof.
  induction fuel as [|fuel IH]; intros st done todo st' Hs Hd Hr E;
    cbn [syncLoop] in E;
    destruct (srcCur st <=? size (children (syncNode st)));
    try discriminate;
    try (injection E as <-; split; [reflexivity|exists []; now rewrite app_nil_r]).
  destruct (split_at done (srcStart st)) as (pre & mid & -> & Hp); [lia|].
  rewrite <- app_assoc in Hs.
  assert (forall rest, firstn (Z.to_nat (srcStart st)) (pre ++ rest) = pre)
    as Hpre by (intros rest; now apply firstn_size_app).
  destruct todo as [|cur post].
  - rewrite app_nil_r in Hs.
    rewrite (syncIteration_flush _ _ _ _ _ _ pre mid Hs Hp Hd) in E.
    destruct (_ && _); cbn [bind] in E; [discriminate|].
    assert (forall (f : nat) st1,
               size (children (syncNode st1)) < srcCur st1 ->
               syncLoop adapter sync nodePtr parent f index st1 = Ok st1) as Hexit.
    { intros f st1 Hlt. destruct f; cbn [syncLoop];
        now replace (srcCur st1 <=? size (children (syncNode st1))) with false
          by (symmetry; apply Z.leb_gt; lia). }
    rewrite Hexit in E.
    + injection E as <-. cbn [syncNode syncLog children setChildren].
      rewrite Hs, !Hpre. split; [reflexivity|eauto].
    + cbn [syncNode srcCur children setChildren].
      rewrite size_app. unfold size at 2. rewrite freshNodes_length.
      rewrite size_app in Hd. pose proof (size_nonneg mid). lia.
  - destruct (Z_lt_ge_dec (indexOf adapter parent (item cur) (destStart st)) 0)
      as [Hn|Hn].
    + rewrite (syncIteration_pending _ _ _ _ _ _ cur) in E; [|lia| |exact Hn].
      2:{ rewrite Hs, app_assoc, (nth_error_size_app _ _ _ Hd). reflexivity. }
      cbn [bind] in E.
      apply (IH _ ((pre ++ mid) ++ [cur]) post) in E;
        cbn [syncNode srcStart srcCur syncLog] in *; auto; try lia.
      * rewrite Hs, <- !app_assoc. reflexivity.
      * rewrite size_app, Hd. reflexivity.
    + destruct (syncIteration_match adapter sync nodePtr parent index
                  st pre mid cur post Hs Hp Hd) as (k & post' & R & E1); [lia|].
      rewrite E1 in E. clear E1.
      set (count := Z.max 0 _) in E.
      set (fresh := freshNodes _ _ _ _ _ _) in E.
      set (log := syncLog st ++ _) in E.
      assert (size fresh = count) as Hfresh
          by (unfold size, fresh; rewrite freshNodes_length; lia).
      assert (forall c1 st1,
                 children (syncNode st1) = pre ++ fresh ++ c1 :: post' ->
                 srcStart st < srcStart st1 <= srcCur st1 ->
                 srcCur st1 = srcStart st + count + 1 ->
                 (exists more, syncLog st1 = syncLog st ++ more) ->
                 syncLoop adapter sync nodePtr parent fuel index st1 = Ok st' ->
                 firstn (Z.to_nat (srcStart st)) (children (syncNode st')) =
                 firstn (Z.to_nat (srcStart st)) (children (syncNode st)) /\
                 exists more, syncLog st' = syncLog st ++ more) as Hstep.
      { intros c1 st1 Hc1 Hr1 Hcur1 [more1 Hlog1] E1.
        apply (IH _ (pre ++ fresh ++ [c1]) post') in E1; auto; try lia.
        - destruct E1 as [F1 [more2 Hlog2]]. split.
          + assert (Z.to_nat (srcStart st) <= Z.to_nat (srcStart st1))%nat
              as Hle by lia.
            rewrite (firstn_le_eq _ _ _ _ Hle F1), Hc1, Hs, !Hpre.
            reflexivity.
          + exists (more1 ++ more2). now rewrite Hlog2, Hlog1, app_assoc.
        - rewrite Hc1, <- !app_assoc. reflexivity.
        - rewrite !size_app, Hfresh, Hp, Hcur1. unfold size. cbn [length]. lia. }
      destruct (isInitialized adapter (setParentIndex cur k)) as [cur' ini].
      destruct ini.
      * bind_inv E. bind_inv E0. destruct a0 as [cur'' evs].
        injection E0 as <-.
        eapply Hstep in E; cbn [syncNode srcStart srcCur syncLog children
                                 setChildren]; eauto; try lia.
        unfold log. rewrite <- !app_assoc. eauto.
      * cbn [bind] in E.
        eapply Hstep in E; cbn [syncNode srcStart srcCur syncLog children
                                 setChildren]; eauto; try lia.
        unfold log. eauto.
Qed.

End SettledPrefix.

(** ** Presence correction *)

Lemma isInitialized_probed adapter c :
  childInitialized c = false -> hasChildrenQueryed c = true ->
  isInitialized adapter c =
  if Bool.eqb (hasChildren c) (0 <? getItemsCount adapter (item c))
  then (c, false) else (setChildInitialized c true, true).
Proof.
  intros Hc Hq. unfold isInitialized. rewrite Hc, Hq. cbn [negb].
  destruct (Bool.eqb _ _); cbn [negb]; [now rewrite Hc|reflexivity].
Qed.

Lemma nth_error_settled (a b : list InternalNode) i j :
  (i < j)%nat -> firstn j a = firstn j b -> nth_error a i = nth_error b i.
Proof.
  intros Hij H.
  pose proof (nth_error_firstn j a i) as Ha.
  pose proof (nth_error_firstn j b i) as Hb.
  replace (i <? j)%nat with true in * by (symmetry; apply Nat.ltb_lt; lia).
  now rewrite <- Ha, <- Hb, H.
Qed.

(** C6: let the presence of a node be probed while its children are not
    loaded, with the answer [false].  The check [isInitialized] then marks
    the node as initialised exactly when the cached answer differs from
    "the live count is positive".  Once the source has children for the
    item, the iteration of a pass that reaches the node and finds it in the
    live order marks it, descends into it and inserts its live children as
    the range [0 .. count - 1]; the rest of the loop leaves that node
    alone. *)
Theorem presence_correction
        (before after : VirtualModelAdapter) (n : InternalNode) :
  childInitialized n = false -> children n = [] ->
  snd (hasChildrenOf before n) = false ->
  let probed := fst (hasChildrenOf before n) in
  hasChildrenQueryed probed = true /\ hasChildren probed = false /\
  children probed = [] /\ childInitialized probed = false /\
  (forall adapter,
      snd (isInitialized adapter probed) = (0 <? getItemsCount adapter (item n)) /\
      childInitialized (fst (isInitialized adapter probed))
      = (0 <? getItemsCount adapter (item n))) /\
  (forall adapter c,
      childInitialized c = false -> hasChildrenQueryed c = true ->
      snd (isInitialized adapter c)
      = negb (Bool.eqb (hasChildren c) (0 <? getItemsCount adapter (item c))) /\
      childInitialized (fst (isInitialized adapter c))
      = snd (isInitialized adapter c)) /\
  (0 < getItemsCount after (item n) ->
   forall fuel nodePtr parent index st pre mid post,
     children (syncNode st) = pre ++ mid ++ probed :: post ->
     size pre = srcStart st -> size (pre ++ mid) = srcCur st ->
     0 <= indexOf after parent (item n) (destStart st) ->
     exists st1 synced at_,
       syncIteration after (syncNodeList after (S (S fuel))) nodePtr parent
                     index st = Ok st1 /\
       at_ = Z.to_nat (srcStart st1 - 1) /\
       nth_error (children (syncNode st1)) at_ = Some synced /\
       item synced = item n /\
       childInitialized synced = true /\
       items (children synced) = liveItems after (item n) /\
       (exists sub log,
           syncLog st1 =
           log ++ [BeginInsertRows sub 0 (getItemsCount after (item n) - 1);
                   EndInsertRows]) /\
       forall loopFuel st',
         syncLoop after (syncNodeList after (S (S fuel))) nodePtr parent
                  loopFuel index st1 = Ok st' ->
         nth_error (children (syncNode st')) at_ = Some synced /\
         exists more, syncLog st' = syncLog st1 ++ more).
Proof.
  intros Hc Hk Hp probed.
  assert (probed = setQueried n true false) as Hprobed.
  { unfold probed. revert Hp. unfold hasChildrenOf. rewrite Hc.
    cbn [fst snd]. now intros ->. }
  assert (forall adapter k,
             isInitialized adapter (setParentIndex probed k) =
             if 0 <? getItemsCount adapter (item n)
             then (setChildInitialized (setParentIndex probed k) true, true)
             else (setParentIndex probed k, false)) as Hinit.
  { intros adapter k. rewrite isInitialized_probed; rewrite Hprobed; auto.
    cbn [hasChildren item setParentIndex setQueried].
    now destruct (0 <? getItemsCount adapter (item n)). }
  do 4 (split; [rewrite Hprobed;
                  cbn [hasChildrenQueryed hasChildren children childInitialized
                       setQueried]; auto|]).
  split; [|split].
  - intros adapter. specialize (Hinit adapter (parentIndex probed)).
    rewrite setParentIndex_same in Hinit. rewrite Hinit.
    destruct (0 <? getItemsCount adapter (item n)); cbn [fst snd]; [auto|].
    rewrite Hprobed. auto.
  - intros adapter c Hcc Hqc. rewrite isInitialized_probed by assumption.
    destruct (Bool.eqb _ _); cbn [fst snd negb]; auto.
  - intros Hlive fuel nodePtr parent index st pre mid post Hs Hpre Hmid Hfound.
    assert (item probed = item n) as Hitem by now rewrite Hprobed.
    rewrite <- Hitem in Hfound.
    destruct (syncIteration_match after (syncNodeList after (S (S fuel)))
                nodePtr parent index st pre mid probed post Hs Hpre Hmid Hfound)
      as (k & post' & R & E).
    rewrite Hinit in E.
    replace (0 <? getItemsCount after (item n)) with true in E
      by (symmetry; apply Z.ltb_lt; lia).
    rewrite syncNodeList_empty in E by (rewrite Hprobed; exact Hk).
    cbn [bind] in E.
    set (count := Z.max 0 _) in E.
    set (fresh := freshNodes _ _ _ _ _ _) in E.
    set (synced := setChildInitialized (setChildren _ _) true) in E.
    assert (size (pre ++ fresh) = srcStart st + count) as Hsize.
    { rewrite size_app, Hpre. unfold size, fresh.
      rewrite freshNodes_length. lia. }
    assert (0 <= srcStart st) as Hs0
        by (rewrite <- Hpre; apply size_nonneg).
    assert (nth_error (pre ++ fresh ++ synced :: post')
                      (Z.to_nat (srcStart st + count + 1 - 1)) = Some synced)
      as Hnth.
    { replace (srcStart st + count + 1 - 1) with (srcStart st + count) by lia.
      rewrite app_assoc, (nth_error_size_app _ _ _ Hsize). reflexivity. }
    eexists. exists synced. eexists.
    split; [exact E|]. cbn [syncNode srcStart syncLog children setChildren].
    split; [reflexivity|]. split; [exact Hnth|].
    split; [unfold synced; now rewrite Hprobed|].
    split; [reflexivity|]. split.
    { unfold synced. cbn [children setChildInitialized setChildren].
      rewrite Hprobed. cbn [item setChildInitialized setParentIndex setQueried].
      apply items_freshNodes_live. }
    split.
    { unfold insertionSignals at 2.
      replace (0 <? getItemsCount after
                      (item (setChildInitialized (setParentIndex probed k) true)))
        with true
        by (symmetry; apply Z.ltb_lt; rewrite Hprobed; cbn; lia).
      eexists. eexists. rewrite Hprobed.
      cbn [item setChildInitialized setParentIndex setQueried].
      replace (0 + Z.max 0 (getItemsCount after (item n) - 0) - 1)
        with (getItemsCount after (item n) - 1) by lia.
      reflexivity. }
    intros loopFuel st' E'.
    apply (syncLoop_settled _ _ _ _ _ _ _ (pre ++ fresh ++ [synced]) post')
      in E'; cbn [syncNode srcStart srcCur syncLog children setChildren];
      try lia.
    + cbn [syncNode srcStart syncLog children setChildren] in E'.
      destruct E' as [F Hlog]. split; [|exact Hlog].
      rewrite <- Hnth. eapply nth_error_settled; [|exact F]. lia.
    + now rewrite <- !app_assoc.
    + rewrite app_assoc, size_app, Hsize. unfold size. cbn [length]. lia.
Qed.

Lemma presence_correction_witness :
  exists st1 synced,
    syncIteration (nestedSource [itemX])
                  (syncNodeList (nestedSource [itemX]) 2) [] nullptr InvalidIndex
                  (mkSync (mkNode 0 nullptr
                                  [setQueried (newNode itemA 0) true false]
                                  false false true) 0 0 0 [])
    = Ok st1 /\
    nth_error (children (syncNode st1)) 0 = Some synced /\
    items (children synced) = [itemX].
Proof.
  destruct (presence_correction (nestedSource []) (nestedSource [itemX])
                                (newNode itemA 0) eq_refl eq_refl eq_refl)
    as (_ & _ & _ & _ & _ & _ & H).
  assert (0 < getItemsCount (nestedSource [itemX]) (item (newNode itemA 0)))
    as Hlive by reflexivity.
  assert (0 <= indexOf (nestedSource [itemX]) nullptr (item (newNode itemA 0)) 0)
    as Hfound by (vm_compute; discriminate).
  destruct (H Hlive 0%nat [] nullptr InvalidIndex
              (mkSync (mkNode 0 nullptr
                              [setQueried (newNode itemA 0) true false]
                              false false true) 0 0 0 [])
              [] [] [] eq_refl eq_refl eq_refl Hfound)
    as (st1 & synced & at_ & E & Hat & Hnth & _ & _ & Hitems & _).
  exists st1, synced. split; [exact E|].
  assert (at_ = 0%nat) as Hz
      by (rewrite Hat; vm_compute in E; injection E as <-; reflexivity).
  rewrite Hz in Hnth. split; [exact Hnth|]. rewrite Hitems. reflexivity.
Defined.

(** ** The swap of two siblings *)

Lemma syncNodeList_step adapter fuel p node parent :
  syncNodeList adapter (S fuel) p node parent =
  let* st := syncLoop adapter (syncNodeList adapter fuel) p parent fuel
                      (getIndex p node 0) (mkSync node 0 0 0 []) in
  Ok (setChildInitialized (syncNode st) true, syncLog st).
Proof. reflexivity. Qed.

Lemma syncLoop_step adapter sync nodePtr parent fuel index st :
  srcCur st <= size (children (syncNode st)) ->
  syncLoop adapter sync nodePtr parent (S fuel) index st =
  let* st' := syncIteration adapter sync nodePtr parent index st in
  syncLoop adapter sync nodePtr parent fuel index st'.
Proof.
  intros H. cbn [syncLoop].
  now replace (srcCur st <=? size (children (syncNode st))) with true
    by (symmetry; apply Z.leb_le; lia).
Qed.

Lemma syncLoop_exit adapter sync nodePtr parent fuel index st :
  size (children (syncNode st)) < srcCur st ->
  syncLoop adapter sync nodePtr parent fuel index st = Ok st.
Proof.
  intros H. destruct fuel; cbn [syncLoop];
    now replace (srcCur st <=? size (children (syncNode st))) with false
      by (symmetry; apply Z.leb_gt; lia).
Qed.

(** C4, amended: when the cached sequence is [a, b], the children of [a]
    are loaded (and [a] has none, in the cache and in the source) and the
    live order has become [b, a], the pass keeps the node of [a], inserts a
    fresh node for [b] in front of it (rows [0 .. 0]) and then removes the
    old node of [b] (rows [2 .. 2]): one insertion followed by one removal,
    after which the cache order is [b, a]. *)
Theorem swap_inserts_then_removes
        (adapter : VirtualModelAdapter) (fuel : nat) (p : Ptr)
        (node : InternalNode) (parent : Item) (a b : InternalNode) :
  children node = [a; b] ->
  childInitialized a = true -> children a = [] ->
  indexOf adapter parent (item a) 0 = 1 ->
  getItem adapter parent 0 = item b ->
  indexOf adapter parent (item b) 2 < 0 ->
  getItemsCount adapter parent = 2 ->
  getItemsCount adapter (item a) <= 0 ->
  exists root',
    syncNodeList adapter (4 + fuel) p node parent =
    Ok (root',
        [BeginInsertRows (getIndex p node 0) 0 0; EndInsertRows;
         BeginRemoveRows (getIndex p node 0) 2 2; EndRemoveRows]) /\
    items (children root') = [item b; item a] /\
    childInitialized root' = true.
Proof.
  intros Hs Ha Hka Hfa Hgb Hfb Hcount Hleaf.
  set (index := getIndex p node 0).
  change (4 + fuel)%nat with (S (S (S (S fuel)))).
  rewrite syncNodeList_step. fold index.
  remember (syncNodeList adapter (S (S (S fuel)))) as sync eqn:Hsync.
  set (b1 := newNode (item b) 0).
  set (log1 := [BeginInsertRows index 0 0; EndInsertRows]).
  set (log2 := [BeginRemoveRows index 2 2; EndRemoveRows]).
  (* first iteration: [a] is found at live position 1 *)
  assert (exists a' b',
             item a' = item a /\ item b' = item b /\
             syncIteration adapter sync p parent index (mkSync node 0 0 0 [])
             = Ok (mkSync (setChildren node [b1; a'; b']) 2 2 2 log1))
    as (a' & b' & Hia & Hib & E1).
  { destruct (syncIteration_match adapter sync p parent index
                (mkSync node 0 0 0 []) [] [] a [b] Hs eq_refl eq_refl)
      as (k & post' & R & E); [cbn [destStart]; lia|].
    cbn [srcStart srcCur destStart syncLog syncNode] in E.
    rewrite Hfa in E.
    inversion R as [|b0 b' l l' [j ->] Rnil]; subst b0 l post'.
    inversion Rnil; subst l'. clear R Rnil.
    assert (isInitialized adapter (setParentIndex a k) = (setParentIndex a k, true))
      as Hini by (unfold isInitialized; cbn [childInitialized setParentIndex];
                  now rewrite Ha).
    rewrite Hini in E. cbv beta iota in E.
    assert (forall q c obj,
               sync q c obj = syncNodeList adapter (S (S (S fuel))) q c obj)
      as Hcall by (now rewrite Hsync).
    rewrite Hcall, syncNodeList_empty in E by exact Hka.
    cbn [item setParentIndex] in E.
    replace (Z.max 0 (getItemsCount adapter (item a) - 0)) with 0 in E by lia.
    unfold insertionSignals, removalSignals in E.
    replace (0 <? getItemsCount adapter (item a)) with false in E
      by (symmetry; apply Z.ltb_ge; lia).
    cbn in E. change (Pos.to_nat 1) with 1%nat in E.
    cbn in E. rewrite Hgb in E.
    eexists. exists (setParentIndex b j).
    split; [|split; [reflexivity|exact E]]. reflexivity. }
  rewrite syncLoop_step by (cbn [srcCur syncNode]; rewrite Hs; cbn; lia).
  rewrite E1. cbn [bind].
  (* second iteration: the old [b] is not found from live position 2 on *)
  rewrite syncLoop_step by (cbn; lia).
  rewrite (syncIteration_pending adapter sync p parent index _ b');
    [|cbn [srcCur]; lia|reflexivity|cbn [destStart]; rewrite Hib; exact Hfb].
  cbn [bind syncNode srcStart srcCur destStart syncLog].
  (* third iteration: the flush removes the old [b] *)
  rewrite syncLoop_step by (cbn; lia).
  rewrite (syncIteration_flush adapter sync p parent index _ [b1; a'] [b']);
    [|reflexivity|reflexivity|reflexivity].
  cbn [srcStart srcCur destStart syncLog syncNode]. rewrite Hcount.
  change (Z.max 0 (2 - 2)) with 0.
  change ((2 <? 2 + 1) && (2 <? 2)) with false.
  cbn iota. cbn [bind Z.to_nat freshNodes].
  rewrite syncLoop_exit by (cbn; lia).
  cbn [bind syncNode syncLog]. rewrite setChildren_twice.
  eexists. split; [reflexivity|].
  cbn [children setChildInitialized setChildren items map app].
  rewrite Hia. split; reflexivity.
Qed.

Lemma swap_inserts_then_removes_witness :
  exists root',
    syncNodeList (flatSource [itemB; itemA]) 5 [] cacheABloaded nullptr =
    Ok (root',
        [BeginInsertRows InvalidIndex 0 0; EndInsertRows;
         BeginRemoveRows InvalidIndex 2 2; EndRemoveRows]) /\
    items (children root') = [itemB; itemA].
Proof.
  destruct (swap_inserts_then_removes
              (flatSource [itemB; itemA]) 1 [] cacheABloaded nullptr
              (loadChildren (flatSource [itemA; itemB]) (newNode itemA 0))
              (newNode itemB 1))
    as (root' & E & Hitems & _);
    [reflexivity|reflexivity|reflexivity|reflexivity|reflexivity|reflexivity
    |reflexivity|vm_compute; discriminate|].
  exists root'. split; [exact E|exact Hitems].
Defined.

(** ** Order fidelity when the cached children are loaded

    The pass does bring the cached sequence in line with the live one when
    every cached child is initialised, which is the case in which line 164
    recomputes [srcStart] after an insertion. *)

Lemma map_seq_from {A} (f : nat -> A) d m :
  map f (seq d m) = map (fun j => f (d + j)%nat) (seq 0 m).
Proof.
  revert f; induction d as [|d IH]; intros f; [reflexivity|].
  rewrite <- seq_shift, map_map. apply IH.
Qed.

Lemma liveUpTo_app adapter obj d m :
  liveUpTo adapter obj (d + m) =
  liveUpTo adapter obj d
  ++ map (fun j => getItem adapter obj (Z.of_nat d + Z.of_nat j)) (seq 0 m).
Proof.
  unfold liveUpTo. rewrite seq_app, map_app. f_equal.
  cbn [Nat.add]. rewrite map_seq_from.
  apply map_ext. intros j. f_equal. lia.
Qed.

Lemma items_app a b : items (a ++ b) = items a ++ items b.
Proof. apply map_app. Qed.

Lemma syncIteration_shape adapter sync nodePtr parent index st st' :
  syncIteration adapter sync nodePtr parent index st = Ok st' ->
  exists cs, syncNode st' = setChildren (syncNode st) cs.
Proof.
  unfold syncIteration. intros E. bind_inv E. injection E as <-. cbn [syncNode].
  set (finishing := size (children (syncNode st)) <=? srcCur st) in *.
  set (curNode := if finishing then None else _) in *.
  set (destCur := match curNode with Some c => _ | None => 0 end) in *.
  destruct (0 <=? destCur);
    [|injection E0 as <-; exists (children (syncNode st));
      symmetry; apply setChildren_same].
  bind_inv E0.
  assert (exists cs, syncNode a0 = setChildren (syncNode st) cs) as [cs1 H1].
  { apply syncRemove_Ok in E as [[_ ->] | (first & _ & _ & _ & ->)];
      [exists (children (syncNode st)); symmetry; apply setChildren_same|].
    eexists. reflexivity. }
  bind_inv E0.
  assert (exists cs, syncNode a1 = setChildren (syncNode st) cs) as [cs2 H2].
  { apply syncInsert_Ok in E1 as [[_ ->] | (_ & _ & ->)]; cbn [syncNode].
    - now exists cs1.
    - unfold inserted. cbn [syncNode]. rewrite H1, setChildren_twice.
      eexists. reflexivity. }
  destruct curNode.
  - unfold syncDescend in E0. cbn [syncNode srcCur] in E0.
    destruct (nth_error _ _) as [cur|]; [|discriminate].
    destruct (isInitialized adapter cur) as [cur' ini]. destruct ini.
    + bind_inv E0. destruct a2 as [cur'' evs]. injection E0 as <-.
      cbn [syncNode]. rewrite H2, setChildren_twice. eexists. reflexivity.
    + injection E0 as <-. cbn [syncNode]. rewrite H2, setChildren_twice.
      eexists. reflexivity.
  - injection E0 as <-. cbn [syncNode]. now exists cs2.
Qed.

Lemma syncLoop_shape adapter sync nodePtr parent fuel index st st' :
  syncLoop adapter sync nodePtr parent fuel index st = Ok st' ->
  exists cs, syncNode st' = setChildren (syncNode st) cs.
Proof.
  revert st; induction fuel as [|fuel IH]; intros st E; cbn [syncLoop] in E;
    destruct (srcCur st <=? size (children (syncNode st)));
    try discriminate;
    try (injection E as <-; exists (children (syncNode st));
         symmetry; apply setChildren_same).
  bind_inv E. apply syncIteration_shape in E0 as [cs1 H1].
  apply IH in E as [cs2 H2]. rewrite H1, setChildren_twice in H2. now exists cs2.
Qed.

(** The pass changes neither the item, the position nor the probe flags of
    the node it runs on. *)
Lemma syncNodeList_shape adapter fuel p n obj n' log :
  syncNodeList adapter fuel p n obj = Ok (n', log) ->
  exists cs, n' = setChildInitialized (setChildren n cs) true.
Proof.
  destruct fuel; cbn [syncNodeList]; intros E; [discriminate|].
  bind_inv E. injection E as <- <-.
  apply syncLoop_shape in E0 as [cs H]. cbn [syncNode] in H.
  exists cs. now rewrite H.
Qed.

Lemma forallb_childInitialized_reindexed a b :
  reindexed a b ->
  forallb childInitialized a = true -> forallb childInitialized b = true.
Proof.
  induction 1 as [|x y a b [k ->] _ IH]; cbn [forallb]; [auto|].
  intros H. apply andb_true_iff in H as [H1 H2].
  cbn [childInitialized setParentIndex]. now rewrite H1, IH.
Qed.

Section OrderFidelity.

Variable adapter : VirtualModelAdapter.
Variable sync : Ptr -> InternalNode -> Item -> result (InternalNode * list Signal).
Variable nodePtr : Ptr.
Variable parent : Item.
Variable index : QModelIndex.

Hypothesis sync_item :
  forall p n obj n' evs, sync p n obj = Ok (n', evs) -> item n' = item n.

Hypothesis indexOf_sound : indexOfSound adapter parent.

Lemma syncLoop_order fuel :
  forall st pre mid todo st',
    children (syncNode st) = pre ++ mid ++ todo ->
    size pre = srcStart st -> size (pre ++ mid) = srcCur st ->
    forallb childInitialized todo = true ->
    0 <= destStart st <= Z.max 0 (getItemsCount adapter parent) ->
    items pre = liveUpTo adapter parent (Z.to_nat (destStart st)) ->
    syncLoop adapter sync nodePtr parent fuel index st = Ok st' ->
    items (children (syncNode st')) = liveItems adapter parent.
Proof.
  induction fuel as [|fuel IH]; intros st pre mid todo st' Hs Hp Hd Hini Hds Hpre E.
  { cbn [syncLoop] in E.
    replace (srcCur st <=? size (children (syncNode st))) with true in E
      by (symmetry; apply Z.leb_le; rewrite Hs, app_assoc, size_app;
          pose proof (size_nonneg todo); lia).
    discriminate. }
  pose proof (size_nonneg pre). pose proof (size_nonneg mid).
  pose proof (size_nonneg todo). pose proof (size_nonneg (pre ++ mid)).
  rewrite syncLoop_step in E
    by (rewrite Hs, app_assoc, size_app; lia).
  destruct todo as [|cur post].
  - (* the flush *)
    rewrite app_nil_r in Hs.
    rewrite (syncIteration_flush _ _ _ _ _ _ pre mid Hs Hp Hd) in E.
    destruct (srcStart st <? srcCur st) eqn:L1;
      destruct (destStart st <? getItemsCount adapter parent) eqn:L2;
      cbn [andb bind] in E; try discriminate;
      (rewrite syncLoop_exit in E;
       [|cbn [syncNode srcCur children setChildren];
         rewrite size_app; unfold size at 2; rewrite freshNodes_length;
         rewrite size_app in Hd; lia]);
      injection E as <-; cbn [syncNode children setChildren];
      rewrite items_app, Hpre, items_freshNodes; unfold liveItems;
      fold (liveUpTo adapter parent (Z.to_nat (getItemsCount adapter parent)));
      try apply Z.ltb_lt in L2; try apply Z.ltb_ge in L2.
    + replace (Z.to_nat (Z.max 0 (getItemsCount adapter parent - destStart st)))
        with 0%nat by lia.
      cbn [seq map]. rewrite app_nil_r. f_equal. lia.
    + replace (Z.to_nat (getItemsCount adapter parent))
        with (Z.to_nat (destStart st)
              + Z.to_nat (Z.max 0 (getItemsCount adapter parent - destStart st)))%nat
        by lia.
      rewrite liveUpTo_app. f_equal. apply map_ext. intros j. f_equal. lia.
    + replace (Z.to_nat (Z.max 0 (getItemsCount adapter parent - destStart st)))
        with 0%nat by lia.
      cbn [seq map]. rewrite app_nil_r. f_equal. lia.
  - cbn [forallb] in Hini. apply andb_true_iff in Hini as [Hcur Hpost].
    destruct (Z_lt_ge_dec (indexOf adapter parent (item cur) (destStart st)) 0)
      as [Hn|Hn].
    + (* pending *)
      rewrite (syncIteration_pending _ _ _ _ _ _ cur) in E; [|lia| |exact Hn].
      2:{ rewrite Hs, app_assoc, (nth_error_size_app _ _ _ Hd). reflexivity. }
      cbn [bind] in E.
      apply (IH _ pre (mid ++ [cur]) post) in E;
        cbn [syncNode srcStart srcCur destStart]; auto.
      * rewrite Hs, <- !app_assoc. reflexivity.
      * rewrite app_assoc, size_app, Hd. reflexivity.
    + (* matched *)
      destruct (indexOf_sound (item cur) (destStart st)) as [Hrange Hget];
        [lia..|].
      destruct (syncIteration_match adapter sync nodePtr parent index
                  st pre mid cur post Hs Hp Hd) as (k & post' & R & E1); [lia|].
      rewrite E1 in E. clear E1.
      set (destCur := indexOf adapter parent (item cur) (destStart st)) in *.
      set (count := Z.max 0 _) in E.
      set (fresh := freshNodes _ _ _ _ _ _) in E.
      assert (size fresh = count) as Hfresh
          by (unfold size, fresh; rewrite freshNodes_length; lia).
      assert (isInitialized adapter (setParentIndex cur k)
              = (setParentIndex cur k, true)) as Hinit
          by (unfold isInitialized; cbn [childInitialized setParentIndex];
              now rewrite Hcur).
      rewrite Hinit in E. bind_inv E. bind_inv E0. destruct a0 as [cur'' evs].
      injection E0 as <-.
      apply sync_item in E1. cbn [item setParentIndex] in E1.
      apply (IH _ (pre ++ fresh ++ [cur'']) [] post') in E;
        cbn [syncNode srcStart srcCur destStart children setChildren]; auto.
      * rewrite <- !app_assoc. reflexivity.
      * rewrite !size_app, Hfresh, Hp. unfold size. cbn [length]. lia.
      * rewrite app_nil_r, !size_app, Hfresh, Hp. unfold size. cbn [length]. lia.
      * eapply forallb_childInitialized_reindexed; eauto.
      * lia.
      * rewrite !items_app, Hpre. unfold fresh. rewrite items_freshNodes.
        cbn [items map]. rewrite E1, <- Hget. fold destCur.
        replace (Z.to_nat (destCur + 1))
          with ((Z.to_nat (destStart st) + Z.to_nat count) + 1)%nat by lia.
        rewrite !liveUpTo_app, <- app_assoc. f_equal. f_equal.
        -- apply map_ext. intros j. f_equal. lia.
        -- cbn [seq map]. f_equal. f_equal. lia.
Qed.

End OrderFidelity.

(** Order fidelity for a node whose cached children are all initialised:
    when the pass completes, the cached identities are the live ones, in
    order. *)
Lemma syncNodeList_order adapter fuel p n parent n' log :
  indexOfSound adapter parent ->
  forallb childInitialized (children n) = true ->
  syncNodeList adapter fuel p n parent = Ok (n', log) ->
  items (children n') = liveItems adapter parent.
Proof.
  intros Hsound Hini E.
  destruct fuel; cbn [syncNodeList] in E; [discriminate|].
  bind_inv E. injection E as <- <-.
  apply (syncLoop_order adapter (syncNodeList adapter fuel) p parent _)
    with (pre := []) (mid := []) (todo := children n) in E0;
    cbn [syncNode srcStart srcCur destStart app]; auto; try lia.
  intros q c obj c' evs Hc.
  apply syncNodeList_shape in Hc as [cs ->]. reflexivity.
Qed.

(** ** The modelled live source meets the contract of [indexOf] *)

Lemma findFrom_sound l x pos from :
  0 <= findFrom l x pos from -> 0 <= pos ->
  pos <= findFrom l x pos from < pos + Z.of_nat (length l) /\
  from <= findFrom l x pos from /\
  nth (Z.to_nat (findFrom l x pos from - pos)) l nullptr = x.
Proof.
  revert pos; induction l as [|y l IH]; intros pos H Hpos; cbn [findFrom] in *;
    [lia|].
  destruct ((from <=? pos) && (y =? x)) eqn:G.
  - apply andb_true_iff in G as [G1 G2].
    apply Z.leb_le in G1. apply Z.eqb_eq in G2.
    rewrite Z.sub_diag. cbn [Z.to_nat nth length]. repeat split; lia.
  - destruct (IH (pos + 1) H ltac:(lia)) as (R1 & R2 & R3).
    cbn [length]. repeat split; try lia.
    replace (Z.to_nat (findFrom l x (pos + 1) from - pos))
      with (S (Z.to_nat (findFrom l x (pos + 1) from - (pos + 1)))) by lia.
    exact R3.
Qed.

Lemma findFrom_at_floor l pos d :
  0 <= pos <= d -> d < pos + Z.of_nat (length l) ->
  findFrom l (nth (Z.to_nat (d - pos)) l nullptr) pos d = d.
Proof.
  revert pos; induction l as [|y l IH]; intros pos H1 H2; cbn [length] in H2;
    [lia|].
  cbn [findFrom].
  destruct (Z.eq_dec pos d) as [->|Hne].
  - rewrite Z.sub_diag. cbn [Z.to_nat nth].
    now rewrite Z.leb_refl, Z.eqb_refl.
  - replace (d <=? pos) with false by (symmetry; apply Z.leb_gt; lia).
    cbn [andb].
    replace (Z.to_nat (d - pos)) with (S (Z.to_nat (d - (pos + 1)))) by lia.
    cbn [nth]. apply IH; lia.
Qed.

Lemma liveAdapter_indexOfSound live parentOf payload parent :
  indexOfSound (liveAdapter live parentOf payload) parent.
Proof.
  intros obj from Hfrom H. cbn [indexOf getItemsCount getItem liveAdapter] in *.
  destruct (findFrom_sound _ _ 0 _ H ltac:(lia)) as (R1 & R2 & R3).
  rewrite Z.sub_0_r in R3. split; [lia|exact R3].
Qed.

Lemma liveAdapter_indexOfAtFloor live parentOf payload parent :
  indexOfAtFloor (liveAdapter live parentOf payload) parent.
Proof.
  intros d Hd. cbn [indexOf getItemsCount getItem liveAdapter] in *.
  rewrite <- (Z.sub_0_r d) at 1. apply findFrom_at_floor; lia.
Qed.

Lemma liveAdapter_liveItems live parentOf payload obj :
  liveItems (liveAdapter live parentOf payload) obj = live obj.
Proof.
  unfold liveItems. cbn [getItemsCount getItem liveAdapter].
  rewrite Nat2Z.id.
  generalize (live obj) as l. intros l.
  induction l as [|x l IH]; [reflexivity|].
  cbn [length seq map]. f_equal.
  rewrite <- seq_shift, map_map. rewrite <- IH at 2.
  apply map_ext. intros k. now rewrite !Nat2Z.id.
Qed.

(** ** A pass over a settled subtree changes nothing

    Idempotence holds from every state in which the cache mirrors the
    source: the pass then emits no signal and returns the node it was
    given. *)

Lemma settled_unfold adapter n :
  settled adapter n <->
  items (children n) = liveItems adapter (item n) /\
  Forall (fun c => if childInitialized c then settled adapter c
                   else quietProbe adapter c) (children n).
Proof.
  destruct n as [pi obj cs q h ci]. cbn [settled children item].
  assert (forall l,
             (fix each (l : list InternalNode) : Prop :=
                match l with
                | [] => True
                | c :: rest =>
                    (if childInitialized c then settled adapter c
                     else quietProbe adapter c) /\ each rest
                end) l <->
             Forall (fun c => if childInitialized c then settled adapter c
                              else quietProbe adapter c) l) as H.
  { induction l as [|c l IH]; [split; auto|].
    split.
    - intros [H1 H2]. constructor; [exact H1|now apply IH].
    - intros H. inversion H; subst. split; [assumption|now apply IH]. }
  now rewrite H.
Qed.

Lemma liveItems_nth_error adapter obj k x :
  nth_error (liveItems adapter obj) k = Some x ->
  x = getItem adapter obj (Z.of_nat k) /\
  Z.of_nat k < getItemsCount adapter obj.
Proof.
  unfold liveItems. intros H.
  assert (k < Z.to_nat (getItemsCount adapter obj))%nat as Hk.
  { assert (nth_error
              (map (fun k => getItem adapter obj (Z.of_nat k))
                   (seq 0 (Z.to_nat (getItemsCount adapter obj)))) k <> None)
      as H' by congruence.
    apply nth_error_Some in H'. now rewrite length_map, length_seq in H'. }
  rewrite nth_error_map, nth_error_seq in H.
  replace (k <? Z.to_nat (getItemsCount adapter obj))%nat with true in H
    by (symmetry; apply Nat.ltb_lt; lia).
  cbn in H. injection H as <-. split; [reflexivity|lia].
Qed.

Lemma liveItems_length adapter obj :
  Z.of_nat (length (liveItems adapter obj)) = Z.max 0 (getItemsCount adapter obj).
Proof. unfold liveItems. rewrite length_map, length_seq. lia. Qed.

Lemma setChildInitialized_same n :
  childInitialized n = true -> setChildInitialized n true = n.
Proof. destruct n; cbn. now intros ->. Qed.

Lemma isInitialized_quiet adapter c :
  childInitialized c = false -> quietProbe adapter c ->
  isInitialized adapter c = (c, false).
Proof.
  intros Hc Hq. unfold isInitialized. rewrite Hc. cbn [negb].
  destruct (hasChildrenQueryed c) eqn:Q; [|now rewrite Hc].
  destruct Hq as [Hq|Hq]; [congruence|].
  rewrite Hq, Bool.eqb_reflx. cbn [negb]. now rewrite Hc.
Qed.

Section SettledPass.

Variable adapter : VirtualModelAdapter.
Variable sync : Ptr -> InternalNode -> Item -> result (InternalNode * list Signal).
Variable nodePtr : Ptr.
Variable parent : Item.
Variable index : QModelIndex.

(** A cached entry found exactly at the floor, with nothing pending before
    it: nothing is removed and nothing is inserted. *)
Lemma syncIteration_in_place st pre cur post :
  children (syncNode st) = pre ++ cur :: post ->
  size pre = srcStart st -> srcStart st = srcCur st ->
  0 <= destStart st ->
  indexOf adapter parent (item cur) (destStart st) = destStart st ->
  syncIteration adapter sync nodePtr parent index st =
  let (cur', initialized) := isInitialized adapter cur in
  if initialized then
    let* r := sync (nodePtr ++ [Z.to_nat (srcCur st)]) cur' (item cur') in
    let (cur'', evs) := r in
    Ok (mkSync (setChildren (syncNode st) (pre ++ cur'' :: post))
               (srcCur st + 1) (srcCur st + 1) (destStart st + 1)
               (syncLog st ++ evs))
  else
    Ok (mkSync (setChildren (syncNode st) (pre ++ cur' :: post))
               (srcCur st + 1) (srcCur st + 1) (destStart st + 1) (syncLog st)).
Proof.
  intros Hs Hp Heq Hd Hfound.
  pose proof (size_nonneg pre). pose proof (size_nonneg post).
  unfold syncIteration.
  replace (size (children (syncNode st)) <=? srcCur st) with false
    by (symmetry; apply Z.leb_gt; rewrite Hs, size_app, size_cons; lia).
  assert (nth_error (children (syncNode st)) (Z.to_nat (srcCur st)) = Some cur)
    as -> by (rewrite Hs, (nth_error_size_app pre _ (srcCur st)) by lia;
              reflexivity).
  rewrite Hfound.
  replace (0 <=? destStart st) with true by (symmetry; apply Z.leb_le; lia).
  unfold syncRemove.
  replace (srcStart st <? srcCur st) with false
    by (symmetry; apply Z.ltb_ge; lia).
  cbn [bind syncNode srcStart srcCur destStart syncLog].
  rewrite syncInsert_skip by (cbn [destStart]; lia).
  cbn [bind syncNode srcStart srcCur destStart syncLog].
  rewrite (syncDescend_split adapter sync nodePtr _ pre cur post);
    [|exact Hs|cbn [srcCur]; lia].
  cbn [syncNode srcStart srcCur destStart syncLog].
  destruct (isInitialized adapter cur) as [cur' ini]. destruct ini.
  - destruct (sync _ cur' (item cur')) as [[cur'' evs]| |]; reflexivity.
  - reflexivity.
Qed.

Hypothesis indexOf_floor : indexOfAtFloor adapter parent.
Variable bound : nat.
Hypothesis sync_settled :
  forall q c,
    settled adapter c -> childInitialized c = true ->
    (fuelFor c <= bound)%nat -> sync q c (item c) = Ok (c, []).

Lemma syncLoop_settled_pass fuel :
  forall st done todo,
    children (syncNode st) = done ++ todo ->
    size done = srcCur st -> srcStart st = srcCur st -> destStart st = srcCur st ->
    items (children (syncNode st)) = liveItems adapter parent ->
    Forall (fun c => if childInitialized c then settled adapter c
                     else quietProbe adapter c) todo ->
    Forall (fun c => (fuelFor c <= bound)%nat) todo ->
    (length todo < fuel)%nat ->
    exists s c d,
      syncLoop adapter sync nodePtr parent fuel index st =
      Ok (mkSync (syncNode st) s c d (syncLog st)).
Proof.
  induction fuel as [|fuel IH];
    intros st done todo Hs Hd Hss Hds Hitems Hall Hb Hf; [lia|].
  pose proof (size_nonneg done). pose proof (size_nonneg todo).
  pose proof (liveItems_length adapter parent) as Hlen.
  rewrite <- Hitems in Hlen. unfold items in Hlen. rewrite length_map in Hlen.
  fold (size (children (syncNode st))) in Hlen.
  rewrite syncLoop_step by (rewrite Hs, size_app; lia).
  destruct todo as [|cur post].
  - rewrite app_nil_r in Hs.
    rewrite (syncIteration_flush _ _ _ _ _ _ done []);
      [|now rewrite app_nil_r|lia|rewrite app_nil_r; lia].
    replace (srcStart st <? srcCur st) with false
      by (symmetry; apply Z.ltb_ge; lia).
    cbn [andb bind].
    assert (getItemsCount adapter parent <= destStart st) as Hcount
        by (rewrite Hs in Hlen; lia).
    replace (Z.max 0 (getItemsCount adapter parent - destStart st)) with 0 by lia.
    unfold removalSignals, insertionSignals.
    replace (srcStart st <? srcCur st) with false
      by (symmetry; apply Z.ltb_ge; lia).
    replace (destStart st <? getItemsCount adapter parent) with false
      by (symmetry; apply Z.ltb_ge; lia).
    cbn [Z.to_nat freshNodes app].
    rewrite !app_nil_r, <- Hs, setChildren_same, Z.add_0_r.
    rewrite syncLoop_exit by (cbn [syncNode srcCur]; rewrite Hs; lia).
    do 3 eexists. reflexivity.
  - inversion Hall as [|? ? Hcur Hpost]; subst.
    inversion Hb as [|? ? Hbcur Hbpost]; subst.
    cbn [length] in Hf.
    assert (item cur = getItem adapter parent (destStart st) /\
            destStart st < getItemsCount adapter parent) as [Hitem Hlt].
    { assert (nth_error (items (children (syncNode st))) (length done)
              = Some (item cur)) as Hnth.
      { rewrite Hs, items_app. unfold items at 1.
        rewrite nth_error_app2 by (rewrite length_map; lia).
        rewrite length_map, Nat.sub_diag. reflexivity. }
      rewrite Hitems in Hnth. apply liveItems_nth_error in Hnth.
      fold (size done) in Hnth. rewrite Hd, <- Hds in Hnth. exact Hnth. }
    rewrite (syncIteration_in_place st done cur post); auto; try lia.
    2:{ rewrite Hitem. apply indexOf_floor. lia. }
    assert (forall st1,
               st1 = mkSync (syncNode st) (srcCur st + 1) (srcCur st + 1)
                            (destStart st + 1) (syncLog st) ->
               exists s c d,
                 syncLoop adapter sync nodePtr parent fuel index st1 =
                 Ok (mkSync (syncNode st) s c d (syncLog st))) as Hnext.
    { intros st1 ->.
      destruct (IH (mkSync (syncNode st) (srcCur st + 1) (srcCur st + 1)
                           (destStart st + 1) (syncLog st))
                   (done ++ [cur]) post) as (s & c & d & Hk);
        cbn [syncNode srcStart srcCur destStart syncLog]; auto; try lia.
      - rewrite Hs, <- app_assoc. reflexivity.
      - rewrite size_app, Hd. reflexivity.
      - exists s, c, d. exact Hk. }
    destruct (childInitialized cur) eqn:Hci.
    + assert (isInitialized adapter cur = (cur, true)) as ->
          by (unfold isInitialized; now rewrite Hci).
      rewrite sync_settled by auto. cbn [bind].
      rewrite <- Hs, setChildren_same, app_nil_r.
      apply Hnext. reflexivity.
    + rewrite isInitialized_quiet by auto. cbn [bind].
      rewrite <- Hs, setChildren_same.
      apply Hnext. reflexivity.
Qed.

End SettledPass.

(** On a settled subtree the pass returns the node unchanged, apart from
    setting [childInitialized], and emits nothing. *)
Lemma syncNodeList_settled adapter :
  (forall obj, indexOfAtFloor adapter obj) ->
  forall fuel p n,
    settled adapter n -> (fuelFor n <= fuel)%nat ->
    syncNodeList adapter fuel p n (item n) = Ok (setChildInitialized n true, []).
Proof.
  intros Hfloor. induction fuel as [|fuel IH]; intros p n Hn Hf.
  - destruct n; cbn in Hf; lia.
  - rewrite syncNodeList_step.
    apply settled_unfold in Hn as [Hitems Hall].
    pose proof (fuelFor_length n) as Hlen.
    destruct (syncLoop_settled_pass adapter (syncNodeList adapter fuel) p (item n)
                (getIndex p n 0) (Hfloor (item n)) fuel) with
        (fuel := fuel) (st := mkSync n 0 0 0 []) (done := @nil InternalNode)
        (todo := children n) as (s & c & d & Hk);
      cbn [syncNode srcStart srcCur destStart syncLog app]; auto; try lia.
    + intros q c Hc Hci Hfc.
      rewrite IH by auto. now rewrite setChildInitialized_same.
    + apply Forall_forall. intros c Hin.
      pose proof (fuelFor_children n c Hin). lia.
    + rewrite Hk. reflexivity.
Qed.

(** ** The two results on the modelled live source *)

Corollary sync_mirrors_live_source live parentOf payload fuel p n parent n' log :
  forallb childInitialized (children n) = true ->
  syncNodeList (liveAdapter live parentOf payload) fuel p n parent = Ok (n', log) ->
  items (children n') = live parent.
Proof.
  intros Hini E. rewrite <- (liveAdapter_liveItems live parentOf payload).
  eapply syncNodeList_order; eauto. apply liveAdapter_indexOfSound.
Qed.

Corollary sync_settled_live_source live parentOf payload fuel p n :
  settled (liveAdapter live parentOf payload) n ->
  (fuelFor n <= fuel)%nat ->
  syncNodeList (liveAdapter live parentOf payload) fuel p n (item n)
  = Ok (setChildInitialized n true, []).
Proof.
  intros Hn Hf. apply syncNodeList_settled; auto.
  intros obj. apply liveAdapter_indexOfAtFloor.
Qed.

(** With both entries expanded, the insertion of [X] in front of [A, B]
    is mirrored, and the pass after it is silent. *)
Lemma sync_expanded_cache_mirrors :
  exists root' log,
    syncNodeList (flatSource [itemX; itemA; itemB]) 5 [] cacheABexpanded nullptr
    = Ok (root', log) /\
    items (children root') = [itemX; itemA; itemB] /\
    syncNodeList (flatSource [itemX; itemA; itemB]) 5 [] root' nullptr
    = Ok (root', []).
Proof.
  destruct (syncNodeList (flatSource [itemX; itemA; itemB]) 5 [] cacheABexpanded
                         nullptr) as [[root' log]| |] eqn:E;
    [|vm_compute in E; discriminate E..].
  exists root', log. split; [reflexivity|]. split.
  - unfold flatSource in E.
    apply sync_mirrors_live_source in E; [exact E|reflexivity].
  - assert (settled (flatSource [itemX; itemA; itemB]) root' /\
            (fuelFor root' <= 5)%nat /\ item root' = nullptr /\
            childInitialized root' = true) as (Hs & Hf & Hi & Hc).
    { vm_compute in E. injection E as <- <-.
      cbn [settled childInitialized fuelFor item].
      repeat split; try (left; reflexivity); try (vm_compute; reflexivity);
        try (vm_compute; lia). }
    rewrite <- Hi at 1. unfold flatSource in *.
    rewrite (sync_settled_live_source _ _ _ 5 [] root' Hs Hf).
    now rewrite setChildInitialized_same.
Qed.

(** * Further properties of the code *)

(** ** The pass: what it keeps, fills and logs *)

(** When every cached child of the node is initialised and [indexOf] is
    sound, a completed pass leaves row [k] of the node holding the [k]-th
    live child of the parent item: the cached identities are the live ones
    in order, their number is the live count, and under the position
    invariant every child carries its row as [parentIndex]. *)
Theorem sync_rows_hold_live_children adapter fuel p n parent n' log :
  indexOfSound adapter parent ->
  forallb childInitialized (children n) = true ->
  syncNodeList adapter fuel p n parent = Ok (n', log) ->
  items (children n') = liveItems adapter parent /\
  size (children n') = Z.max 0 (getItemsCount adapter parent) /\
  forall k c,
    nth_error (children n') k = Some c ->
    item c = getItem adapter parent (Z.of_nat k) /\
    (posInv n = true -> parentIndex c = Z.of_nat k).
Proof.
  intros Hsound Hini E.
  pose proof (syncNodeList_order adapter fuel p n parent n' log Hsound Hini E)
    as Hitems.
  split; [exact Hitems|]. split.
  - unfold size. rewrite <- (length_map item (children n')).
    fold (items (children n')). rewrite Hitems. apply liveItems_length.
  - intros k c Hc. split.
    + assert (nth_error (items (children n')) k = Some (item c)) as Hk
        by (unfold items; now apply map_nth_error).
      rewrite Hitems in Hk. now apply liveItems_nth_error in Hk as [-> _].
    + intros Hpos.
      destruct (syncNodeList_posInv adapter fuel p n parent n' log Hpos E)
        as [Hpos' _].
      rewrite posInv_unfold in Hpos'. apply andb_true_iff in Hpos' as [Hrows _].
      rewrite (positionsFrom_nth _ _ _ _ Hrows Hc). lia.
Qed.

Lemma sync_rows_hold_live_children_witness :
  exists n' log,
    syncNodeList (flatSource [itemX; itemA; itemB]) 5 [] cacheABexpanded nullptr
    = Ok (n', log) /\
    items (children n') = liveItems (flatSource [itemX; itemA; itemB]) nullptr /\
    size (children n') = 3.
Proof.
  destruct (syncNodeList (flatSource [itemX; itemA; itemB]) 5 [] cacheABexpanded
                         nullptr) as [[n' log]| |] eqn:E;
    [|vm_compute in E; discriminate E..].
  exists n', log. split; [reflexivity|].
  destruct (sync_rows_hold_live_children
              (flatSource [itemX; itemA; itemB]) 5 [] cacheABexpanded nullptr
              n' log (liveAdapter_indexOfSound _ _ _ _) eq_refl E)
    as (H1 & H2 & _).
  split; [exact H1|exact H2].
Defined.

(** With an [indexOf] that finds the item sitting at the start position, a
    pass over a settled subtree returns the node unchanged, apart from
    setting [childInitialized], and emits nothing; a [syncTree] on a model at
    rest whose tree is settled reports its entry and leaves the model as it
    is. *)
Theorem settled_sync_is_silent adapter :
  (forall obj, indexOfAtFloor adapter obj) ->
  (forall fuel p n,
     settled adapter n -> (fuelFor n <= fuel)%nat ->
     syncNodeList adapter fuel p n (item n)
     = Ok (setChildInitialized n true, [])) /\
  (forall fuel m,
     m_adapter m = adapter -> m_syncing m = false ->
     item (m_root m) = nullptr -> childInitialized (m_root m) = true ->
     settled adapter (m_root m) -> (fuelFor (m_root m) <= fuel)%nat ->
     syncTree fuel m = Ok (m, [SyncTreeEntered (m_updating m)])).
Proof.
  intros Hfloor. split.
  - intros fuel p n Hn Hf. now apply syncNodeList_settled.
  - intros fuel m Ha Hs Hitem Hini Hn Hf.
    unfold syncTree. cbn [m_adapter m_root setSyncing].
    rewrite Ha, <- Hitem.
    rewrite (syncNodeList_settled adapter Hfloor fuel [] (m_root m) Hn Hf).
    cbn [bind]. rewrite (setChildInitialized_same _ Hini).
    destruct m as [sy up root ad]. cbn [m_syncing] in Hs. subst sy.
    reflexivity.
Qed.

Lemma settled_sync_is_silent_witness :
  syncNodeList (flatSource [itemA; itemB]) 4 [] cacheAB (item cacheAB)
  = Ok (setChildInitialized cacheAB true, []) /\
  syncTree 4 (modelOf cacheAB (flatSource [itemA; itemB]))
  = Ok (modelOf cacheAB (flatSource [itemA; itemB]), [SyncTreeEntered 0]).
Proof.
  assert (settled (flatSource [itemA; itemB]) cacheAB) as Hn.
  { cbn [settled cacheAB childInitialized newNode].
    repeat split; try (left; reflexivity). }
  assert (fuelFor cacheAB <= 4)%nat as Hf by (vm_compute; lia).
  destruct (settled_sync_is_silent (flatSource [itemA; itemB])
              (fun obj => liveAdapter_indexOfAtFloor _ _ _ obj))
    as [H1 H2].
  split.
  - exact (H1 4%nat [] cacheAB Hn Hf).
  - exact (H2 4%nat (modelOf cacheAB (flatSource [itemA; itemB]))
              eq_refl eq_refl eq_refl eq_refl Hn Hf).
Defined.

(** The pass changes neither the item, the position nor the probe flags of
    the node it is called on, and always leaves it initialised. *)
Theorem sync_keeps_node_header adapter fuel p n obj n' log :
  syncNodeList adapter fuel p n obj = Ok (n', log) ->
  item n' = item n /\ parentIndex n' = parentIndex n /\
  hasChildrenQueryed n' = hasChildrenQueryed n /\
  hasChildren n' = hasChildren n /\
  childInitialized n' = true.
Proof.
  intros E. apply syncNodeList_shape in E as [cs ->]. repeat split.
Qed.

Lemma sync_keeps_node_header_witness :
  exists n' log,
    syncNodeList (flatSource [itemX; itemA; itemB]) 5 []
                 (setQueried (newNode itemA 7) true true) itemA
    = Ok (n', log) /\
    item n' = itemA /\ parentIndex n' = 7 /\ hasChildrenQueryed n' = true.
Proof.
  destruct (syncNodeList (flatSource [itemX; itemA; itemB]) 5 []
                         (setQueried (newNode itemA 7) true true) itemA)
    as [[n' log]| |] eqn:E; [|vm_compute in E; discriminate E..].
  exists n', log. split; [reflexivity|].
  destruct (sync_keeps_node_header _ _ _ _ _ _ _ E) as (H1 & H2 & H3 & _).
  repeat split; assumption.
Defined.

Lemma forallb_isFresh_freshNodes adapter parent ds i cur todo :
  forallb isFresh (freshNodes adapter parent ds i cur todo) = true.
Proof.
  revert i cur; induction todo as [|t IH]; intros i cur; cbn [freshNodes forallb];
    [reflexivity|].
  rewrite IH. reflexivity.
Qed.

(** On a node without cached children the pass never faults: it inserts the
    live children of [obj], in order, as one range of fresh nodes numbered
    from [0], and emits that single insertion (or nothing when the source
    reports no child). *)
Theorem sync_fills_empty_node adapter fuel p n obj :
  children n = [] ->
  exists n',
    syncNodeList adapter (S (S fuel)) p n obj =
    Ok (n', insertionSignals (getIndex p n 0) 0 0 (getItemsCount adapter obj)) /\
    items (children n') = liveItems adapter obj /\
    forallb isFresh (children n') = true /\
    positionsFrom 0 (children n') = true /\
    childInitialized n' = true.
Proof.
  intros Hn. rewrite (syncNodeList_empty adapter fuel p n obj Hn).
  eexists. split; [reflexivity|].
  cbn [children setChildInitialized setChildren childInitialized].
  split; [apply items_freshNodes_live|].
  split; [apply forallb_isFresh_freshNodes|].
  split; [apply positionsFrom_freshNodes|reflexivity].
Qed.

Lemma sync_fills_empty_node_witness :
  exists n',
    syncNodeList (flatSource [itemA; itemB; itemX]) 2 [] (newNode nullptr 0)
                 nullptr
    = Ok (n', [BeginInsertRows InvalidIndex 0 2; EndInsertRows]) /\
    items (children n') = [itemA; itemB; itemX].
Proof.
  destruct (sync_fills_empty_node (flatSource [itemA; itemB; itemX]) 0 []
                                  (newNode nullptr 0) nullptr eq_refl)
    as (n' & E & Hitems & _).
  exists n'. split; [exact E|]. rewrite Hitems. reflexivity.
Defined.

Section NothingMatches.

Variable adapter : VirtualModelAdapter.
Variable sync : Ptr -> InternalNode -> Item -> result (InternalNode * list Signal).
Variable nodePtr : Ptr.
Variable parent : Item.
Variable index : QModelIndex.

Lemma syncLoop_nothing_matches todo :
  forall fuel st done,
    children (syncNode st) = done ++ todo ->
    size done = srcCur st -> srcStart st = 0 -> destStart st = 0 ->
    0 < size (done ++ todo) ->
    Forall (fun c => indexOf adapter parent (item c) 0 < 0) todo ->
    0 < getItemsCount adapter parent ->
    (length todo < fuel)%nat ->
    syncLoop adapter sync nodePtr parent fuel index st = Fault.
Proof.
  induction todo as [|cur post IH];
    intros fuel st done Hs Hd Hss Hds Hpos Hall Hlive Hf;
    (destruct fuel as [|fuel]; [cbn [length] in Hf; lia|]);
    pose proof (size_nonneg done) as Hdone.
  - rewrite app_nil_r in *.
    rewrite syncLoop_step by (rewrite Hs; lia).
    rewrite (syncIteration_flush adapter sync nodePtr parent index st [] done);
      [|exact Hs|now rewrite Hss|exact Hd].
    replace (srcStart st <? srcCur st) with true
      by (symmetry; apply Z.ltb_lt; lia).
    replace (destStart st <? getItemsCount adapter parent) with true
      by (symmetry; apply Z.ltb_lt; lia).
    reflexivity.
  - inversion Hall as [|? ? Hcur Hpost]; subst.
    pose proof (size_nonneg (cur :: post)).
    rewrite syncLoop_step by (rewrite Hs, size_app; lia).
    rewrite (syncIteration_pending adapter sync nodePtr parent index st cur);
      [|lia|rewrite Hs, (nth_error_size_app _ _ _ Hd); reflexivity
       |rewrite Hds; exact Hcur].
    cbn [bind]. cbn [length] in Hf.
    apply (IH fuel _ (done ++ [cur]));
      cbn [syncNode srcStart srcCur destStart]; auto; try lia.
    + rewrite Hs, <- app_assoc. reflexivity.
    + rewrite size_app, Hd. reflexivity.
    + now rewrite <- app_assoc.
Qed.

End NothingMatches.

(** When no cached child is found in the live order and the source has at
    least one child, the flushing iteration removes the whole cached run and
    then inserts at the old end of the vector: the pass faults. *)
Theorem sync_faults_when_nothing_matches adapter fuel p n parent :
  children n <> [] ->
  Forall (fun c => indexOf adapter parent (item c) 0 < 0) (children n) ->
  0 < getItemsCount adapter parent ->
  (length (children n) + 2 <= fuel)%nat ->
  syncNodeList adapter fuel p n parent = Fault.
Proof.
  intros Hne Hall Hlive Hf.
  destruct fuel as [|fuel]; [lia|]. rewrite syncNodeList_step.
  rewrite (syncLoop_nothing_matches adapter (syncNodeList adapter fuel) p parent
             (getIndex p n 0) (children n) fuel (mkSync n 0 0 0 []) []);
    cbn [syncNode srcStart srcCur destStart app]; auto; try lia.
  destruct (children n) as [|c cs]; [congruence|].
  rewrite size_cons. pose proof (size_nonneg cs). lia.
Qed.

Lemma sync_faults_when_nothing_matches_witness :
  syncNodeList (flatSource [itemX]) 4 [] cacheAB nullptr = Fault.
Proof.
  apply sync_faults_when_nothing_matches.
  - discriminate.
  - repeat constructor.
  - reflexivity.
  - cbn. lia.
Defined.

(** ** The log of a pass is a sequence of bracketed row changes *)

Lemma Bracketed_app a b : Bracketed a -> Bracketed b -> Bracketed (a ++ b).
Proof.
  induction 1; intros Hb; cbn [app]; [exact Hb|constructor; auto..].
Qed.

Section PassBrackets.

Variable adapter : VirtualModelAdapter.
Variable sync : Ptr -> InternalNode -> Item -> result (InternalNode * list Signal).
Variable nodePtr : Ptr.
Variable parent : Item.

Hypothesis sync_brackets :
  forall p n obj n' evs, sync p n obj = Ok (n', evs) -> Bracketed evs.

Lemma syncRemove_brackets index finishing st st' :
  Bracketed (syncLog st) -> syncRemove index finishing st = Ok st' ->
  Bracketed (syncLog st').
Proof.
  intros H E.
  apply syncRemove_Ok in E as [[_ ->] | (first & Hr & _ & _ & ->)]; [auto|].
  cbn [syncLog]. apply Bracketed_app; [exact H|].
  constructor; [lia|constructor].
Qed.

Lemma syncInsert_brackets index destCur st st' :
  Bracketed (syncLog st) ->
  syncInsert adapter parent index destCur st = Ok st' ->
  Bracketed (syncLog st').
Proof.
  intros H E.
  apply syncInsert_Ok in E as [[_ ->] | (Hd & Hc & ->)]; [auto|].
  unfold inserted. cbn [syncLog]. apply Bracketed_app; [exact H|].
  constructor; [lia|constructor].
Qed.

Lemma syncDescend_brackets st st' :
  Bracketed (syncLog st) -> syncDescend adapter sync nodePtr st = Ok st' ->
  Bracketed (syncLog st').
Proof.
  unfold syncDescend. intros H E.
  destruct (nth_error _ _) as [cur|]; [|discriminate].
  destruct (isInitialized adapter cur) as [cur' initialized].
  destruct initialized.
  - bind_inv E. destruct a as [cur'' evs]. injection E as <-. cbn [syncLog].
    apply Bracketed_app; [exact H|]. eapply sync_brackets; eauto.
  - injection E as <-. exact H.
Qed.

Lemma syncIteration_brackets index st st' :
  Bracketed (syncLog st) ->
  syncIteration adapter sync nodePtr parent index st = Ok st' ->
  Bracketed (syncLog st').
Proof.
  unfold syncIteration. intros H E.
  bind_inv E. injection E as <-. cbn [syncLog].
  set (finishing := size (children (syncNode st)) <=? srcCur st) in *.
  set (curNode := if finishing then None else _) in *.
  set (destCur := match curNode with Some c => _ | None => 0 end) in *.
  destruct (0 <=? destCur); [|injection E0 as <-; auto].
  bind_inv E0. apply syncRemove_brackets in E; [|assumption].
  bind_inv E0. apply syncInsert_brackets in E1; [|exact E].
  destruct curNode.
  - apply syncDescend_brackets in E0; auto.
  - injection E0 as <-. exact E1.
Qed.

Lemma syncLoop_brackets fuel index st st' :
  Bracketed (syncLog st) ->
  syncLoop adapter sync nodePtr parent fuel index st = Ok st' ->
  Bracketed (syncLog st').
Proof.
  revert st; induction fuel as [|fuel IH]; intros st H E; cbn [syncLoop] in E;
    destruct (srcCur st <=? size (children (syncNode st)));
    try discriminate; try (injection E as <-; now auto).
  bind_inv E. apply syncIteration_brackets in E0; eauto.
Qed.

End PassBrackets.

(** Every [beginRemoveRows] and [beginInsertRows] of a completed pass is
    followed at once by its [endRemoveRows] or [endInsertRows], and announces
    a non-empty range of non-negative rows; this holds for the passes over
    the subtrees as well, whose signals are part of the log. *)
Theorem sync_log_bracketed adapter fuel :
  forall p n obj n' log,
    syncNodeList adapter fuel p n obj = Ok (n', log) -> Bracketed log.
Proof.
  induction fuel as [|fuel IH]; intros p n obj n' log E;
    cbn [syncNodeList] in E; [discriminate|].
  bind_inv E. injection E as <- <-.
  eapply syncLoop_brackets in E0; [exact E0|exact IH|constructor].
Qed.

Lemma sync_log_bracketed_witness :
  Bracketed [BeginInsertRows InvalidIndex 0 0; EndInsertRows;
             BeginRemoveRows InvalidIndex 1 1; EndRemoveRows].
Proof.
  assert (exists n',
             syncNodeList (flatSource [itemX; itemA; itemB]) 5 [] cacheAB nullptr
             = Ok (n', [BeginInsertRows InvalidIndex 0 0; EndInsertRows;
                        BeginRemoveRows InvalidIndex 1 1; EndRemoveRows]))
    as [n' E] by (eexists; vm_compute; reflexivity).
  exact (sync_log_bracketed _ _ _ _ _ _ _ E).
Defined.

(** ** Construction *)

Lemma fresh_children_quiet adapter cs :
  forallb isFresh cs = true ->
  Forall (fun c => if childInitialized c then settled adapter c
                   else quietProbe adapter c) cs.
Proof.
  induction cs as [|c cs IH]; cbn [forallb]; intros H; constructor.
  - apply andb_true_iff in H as [H _]. unfold isFresh in H.
    destruct (childInitialized c); [discriminate|].
    left. now destruct (hasChildrenQueryed c).
  - apply andb_true_iff in H as [_ H]. now apply IH.
Qed.

Lemma construct_result adapter fuel :
  construct (S (S fuel)) adapter =
  Ok (modelOf
        (setChildInitialized
           (setChildren (newNode nullptr 0)
              (freshNodes adapter nullptr 0 0 0
                 (Z.to_nat (Z.max 0 (getItemsCount adapter nullptr - 0)))))
           true) adapter,
      SyncTreeEntered 0
      :: insertionSignals InvalidIndex 0 0 (getItemsCount adapter nullptr)).
Proof.
  unfold construct, syncTree.
  cbn [m_adapter m_root m_updating setSyncing].
  rewrite (syncNodeList_empty adapter fuel [] (newNode nullptr 0) nullptr eq_refl).
  reflexivity.
Qed.

(** The constructor never faults.  It leaves a model at depth 0 whose root
    is initialised and holds one fresh node per top-level item of the source,
    in the live order and numbered from 0, announced as a single inserted
    range. *)
Theorem construct_mirrors_top_level adapter fuel :
  exists root,
    construct (S (S fuel)) adapter =
    Ok (modelOf root adapter,
        SyncTreeEntered 0
        :: insertionSignals InvalidIndex 0 0 (getItemsCount adapter nullptr)) /\
    item root = nullptr /\
    items (children root) = liveItems adapter nullptr /\
    forallb isFresh (children root) = true /\
    posInv root = true /\
    childInitialized root = true.
Proof.
  eexists. split; [apply construct_result|].
  cbn [item children setChildInitialized setChildren childInitialized newNode].
  split; [reflexivity|].
  split; [apply items_freshNodes_live|].
  split; [apply forallb_isFresh_freshNodes|].
  split; [|reflexivity].
  rewrite posInv_unfold.
  cbn [children setChildInitialized setChildren newNode].
  now rewrite positionsFrom_freshNodes, forallb_posInv_freshNodes.
Qed.

(** A [syncTree] that follows the construction at once, the source being
    unchanged, emits no row signal and leaves the model as it is. *)
Theorem sync_after_construct_is_silent adapter fuel fuel' m log :
  (forall obj, indexOfAtFloor adapter obj) ->
  construct (S (S fuel)) adapter = Ok (m, log) ->
  (fuelFor (m_root m) <= fuel')%nat ->
  syncTree fuel' m = Ok (m, [SyncTreeEntered 0]).
Proof.
  intros Hfloor E Hf.
  rewrite construct_result in E. injection E as <- _.
  cbn [m_root modelOf] in Hf.
  unfold syncTree. cbn [m_adapter m_root m_updating setSyncing modelOf].
  change nullptr with
    (item (setChildInitialized
             (setChildren (newNode nullptr 0)
                (freshNodes adapter nullptr 0 0 0
                   (Z.to_nat (Z.max 0 (getItemsCount adapter nullptr - 0)))))
             true)) at 4.
  rewrite syncNodeList_settled; auto.
  apply settled_unfold.
  cbn [item children setChildInitialized setChildren newNode].
  split; [apply items_freshNodes_live|].
  apply fresh_children_quiet, forallb_isFresh_freshNodes.
Qed.

Lemma sync_after_construct_is_silent_witness :
  exists m,
    construct 2 (flatSource [itemA; itemB]) =
    Ok (m, [SyncTreeEntered 0; BeginInsertRows InvalidIndex 0 1; EndInsertRows])
    /\ syncTree 4 m = Ok (m, [SyncTreeEntered 0]).
Proof.
  assert (construct 2 (flatSource [itemA; itemB]) =
          Ok (modelOf cacheAB (flatSource [itemA; itemB]),
              [SyncTreeEntered 0; BeginInsertRows InvalidIndex 0 1;
               EndInsertRows])) as E by (vm_compute; reflexivity).
  eexists. split; [exact E|].
  apply (sync_after_construct_is_silent (flatSource [itemA; itemB]) 0 4 _ _
           ltac:(intros obj; apply liveAdapter_indexOfAtFloor) E).
  vm_compute. lia.
Defined.

(** ** Lazy loading *)

Lemma items_loadedFrom adapter obj k todo :
  items (loadedFrom adapter obj k todo) =
  map (fun j => getItem adapter obj (k + Z.of_nat j)) (seq 0 todo).
Proof.
  unfold items.
  revert k; induction todo as [|t IH]; intros k; cbn [loadedFrom map seq];
    [reflexivity|].
  cbn [item newNode]. rewrite Z.add_0_r. f_equal.
  rewrite IH, <- seq_shift, map_map.
  apply map_ext. intros j. f_equal. lia.
Qed.

Lemma forallb_isFresh_loadedFrom adapter obj k todo :
  forallb isFresh (loadedFrom adapter obj k todo) = true.
Proof.
  revert k; induction todo as [|t IH]; intros k; cbn [loadedFrom forallb];
    [reflexivity|].
  rewrite IH. reflexivity.
Qed.

Lemma loadChildren_first adapter n :
  childInitialized n = false -> children n = [] ->
  loadChildren adapter n =
  setChildInitialized
    (setChildren n
       (if hasItems adapter (item n)
        then loadedFrom adapter (item n) 0
               (Z.to_nat (getItemsCount adapter (item n)))
        else [])) true.
Proof.
  intros Hc Hk. unfold loadChildren. rewrite Hc, Hk. cbn [negb app].
  destruct (hasItems adapter (item n)); [reflexivity|].
  now rewrite <- Hk, setChildren_same.
Qed.

(** [loadChildren] on a node that is not initialised and has no child yet:
    the node becomes initialised; when [hasItems] answers yes its children
    are fresh nodes for the live children of its item, in order and numbered
    from 0, and when [hasItems] answers no it stays without children
    whatever [getItemsCount] says.  A second [loadChildren] changes
    nothing. *)
Theorem loadChildren_loads_once adapter n :
  childInitialized n = false -> children n = [] ->
  let n' := loadChildren adapter n in
  childInitialized n' = true /\
  items (children n') =
    (if hasItems adapter (item n) then liveItems adapter (item n) else []) /\
  forallb isFresh (children n') = true /\
  posInv n' = true /\
  item n' = item n /\ parentIndex n' = parentIndex n /\
  loadChildren adapter n' = n'.
Proof.
  intros Hc Hk n'. unfold n'.
  rewrite (loadChildren_first adapter n Hc Hk).
  cbn [childInitialized children item parentIndex setChildInitialized
       setChildren].
  split; [reflexivity|]. split.
  { destruct (hasItems adapter (item n)); [|reflexivity].
    rewrite items_loadedFrom. unfold liveItems.
    apply map_ext. intros j. f_equal. }
  split.
  { destruct (hasItems adapter (item n));
      [apply forallb_isFresh_loadedFrom|reflexivity]. }
  split.
  { rewrite posInv_unfold.
    cbn [children setChildInitialized setChildren].
    destruct (hasItems adapter (item n)); [|reflexivity].
    now rewrite positionsFrom_loadedFrom, forallb_posInv_loadedFrom. }
  split; [reflexivity|]. split; [reflexivity|].
  reflexivity.
Qed.

Lemma loadChildren_loads_once_witness :
  items (children (loadChildren (nestedSource [itemB; itemX]) (newNode itemA 0)))
  = [itemB; itemX].
Proof.
  destruct (loadChildren_loads_once (nestedSource [itemB; itemX])
                                    (newNode itemA 0) eq_refl eq_refl)
    as (_ & H & _).
  rewrite H. reflexivity.
Defined.

(** ** Range removal *)

Lemma size_renumber' k cs : size (renumber k cs) = size cs.
Proof. unfold size. now rewrite renumber_length. Qed.

Lemma items_renumber k cs : items (renumber k cs) = items cs.
Proof.
  unfold items.
  revert k; induction cs as [|c cs IH]; intros k; cbn [renumber map];
    [|rewrite IH]; reflexivity.
Qed.

(** [eraseChildren] removes exactly the children at the positions
    [b .. e - 1]: the others keep their identities and their order, and the
    ones behind the range are renumbered consecutively from the position
    field of the first removed child. *)
Theorem eraseChildren_removes_range n b e n' :
  eraseChildren n b e = Ok n' ->
  0 <= b < size (children n) /\ b <= e <= size (children n) /\
  items (children n') =
    firstn (Z.to_nat b) (items (children n))
    ++ skipn (Z.to_nat e) (items (children n)) /\
  size (children n') = size (children n) - (e - b) /\
  firstn (Z.to_nat b) (children n') = firstn (Z.to_nat b) (children n) /\
  (exists first,
      nth_error (children n) (Z.to_nat b) = Some first /\
      positionsFrom (parentIndex first) (skipn (Z.to_nat b) (children n'))
      = true) /\
  item n' = item n /\ childInitialized n' = childInitialized n.
Proof.
  intros E.
  apply eraseChildren_children in E as (first & Hf & Hb & He & ->).
  pose proof (nth_error_size _ _ _ Hf) as Hlt.
  cbn [children setChildren item childInitialized].
  split; [lia|]. split; [lia|].
  split.
  { rewrite items_app, items_renumber. unfold items.
    now rewrite firstn_map, skipn_map. }
  split.
  { rewrite size_app, size_firstn, size_renumber', size_skipn by lia. lia. }
  split.
  { rewrite firstn_size_app; [reflexivity|apply size_firstn; lia]. }
  split; [|split; reflexivity].
  exists first. split; [exact Hf|].
  rewrite skipn_size_app by (apply size_firstn; lia).
  apply positionsFrom_renumber.
Qed.

Lemma eraseChildren_removes_range_witness :
  exists n',
    eraseChildren cacheABexpanded 0 1 = Ok n' /\
    items (children n') = [itemB].
Proof.
  destruct (eraseChildren cacheABexpanded 0 1) as [n'| |] eqn:E;
    [|vm_compute in E; discriminate E..].
  exists n'. split; [reflexivity|].
  destruct (eraseChildren_removes_range _ _ _ _ E) as (_ & _ & H & _).
  rewrite H. reflexivity.
Defined.

(** ** The item-model interface *)

Lemma nodeAt_app root p q :
  nodeAt root (p ++ q) =
  match nodeAt root p with
  | Some n => nodeAt n q
  | None => None
  end.
Proof.
  revert root; induction p as [|i p IH]; intros root; cbn [app nodeAt];
    [reflexivity|].
  destruct (nth_error (children root) i); [apply IH|reflexivity].
Qed.

Lemma getIndex_snoc p i c column :
  getIndex (p ++ [i]) c column = ModelIndex (parentIndex c) column (p ++ [i]).
Proof. now destruct p. Qed.

Lemma getNode_valid idx : isValid idx = true -> getNode idx = internalPointer idx.
Proof. intros H. unfold getNode. now rewrite H. Qed.

Lemma getNode_getIndex p n column :
  p = [] \/ isValid (getIndex p n column) = true ->
  getNode (getIndex p n column) = p.
Proof.
  intros [->|H]; [reflexivity|].
  rewrite (getNode_valid _ H). now destruct p.
Qed.

Lemma toSizeT_in_range row : 0 <= row < 2 ^ 64 -> toSizeT row = row.
Proof. intros H. unfold toSizeT. now apply Z.mod_small. Qed.

Lemma toSizeT_negative row : - 2 ^ 64 <= row < 0 -> toSizeT row = row + 2 ^ 64.
Proof.
  intros H. unfold toSizeT.
  rewrite <- (Z.mod_add row 1 (2 ^ 64)) by lia.
  rewrite Z.mul_1_l. apply Z.mod_small. lia.
Qed.

Lemma index_row_inside m row column parentIdx n :
  deref m (getNode parentIdx) = Ok n ->
  0 <= row < size (children n) -> size (children n) < 2 ^ 63 ->
  exists c,
    nth_error (children n) (Z.to_nat row) = Some c /\
    ItemModel.index m row column parentIdx =
    Ok (ModelIndex (parentIndex c) column (getNode parentIdx ++ [Z.to_nat row])).
Proof.
  intros Hn Hin Hsize. unfold ItemModel.index. rewrite Hn. cbn [bind].
  rewrite toSizeT_in_range by lia.
  replace (row <? size (children n)) with true
    by (symmetry; apply Z.ltb_lt; lia).
  destruct (nth_error_in_range (children n) row Hin) as [c Hc].
  exists c. now rewrite Hc, getIndex_snoc.
Qed.

Lemma index_row_outside m row column parentIdx n :
  deref m (getNode parentIdx) = Ok n ->
  - 2 ^ 31 <= row < 2 ^ 31 -> size (children n) < 2 ^ 63 ->
  ~ (0 <= row < size (children n)) ->
  ItemModel.index m row column parentIdx = Ok InvalidIndex.
Proof.
  intros Hn Hrow Hsize Hout. unfold ItemModel.index. rewrite Hn. cbn [bind].
  pose proof (size_nonneg (children n)) as Hs0.
  destruct (Z_lt_ge_dec row 0) as [Hneg|Hnn].
  - rewrite toSizeT_negative by lia.
    now replace (row + 2 ^ 64 <? size (children n)) with false
      by (symmetry; apply Z.ltb_ge; lia).
  - rewrite toSizeT_in_range by lia.
    now replace (row <? size (children n)) with false
      by (symmetry; apply Z.ltb_ge; lia).
Qed.

(** [index] never faults on a parent index that points at a node.  For an
    [int] row inside the cached children it answers the index of that child,
    whose pointer leads to the child and whose row, under the position
    invariant, is the row asked for; for every other row, negative ones
    included, it answers the invalid index. *)
Theorem index_in_and_out_of_range m row column parentIdx n :
  deref m (getNode parentIdx) = Ok n ->
  - 2 ^ 31 <= row < 2 ^ 31 -> size (children n) < 2 ^ 63 ->
  (0 <= row < size (children n) ->
   exists c,
     nth_error (children n) (Z.to_nat row) = Some c /\
     ItemModel.index m row column parentIdx =
     Ok (ModelIndex (parentIndex c) column (getNode parentIdx ++ [Z.to_nat row]))
     /\ deref m (getNode parentIdx ++ [Z.to_nat row]) = Ok c /\
     (positionsFrom 0 (children n) = true -> parentIndex c = row)) /\
  (~ (0 <= row < size (children n)) ->
   ItemModel.index m row column parentIdx = Ok InvalidIndex).
Proof.
  intros Hn Hrow Hsize.
  assert (nodeAt (m_root m) (getNode parentIdx) = Some n) as Hat.
  { unfold deref in Hn. destruct (nodeAt _ _); [now injection Hn as ->|discriminate]. }
  split.
  - intros Hin.
    destruct (index_row_inside m row column parentIdx n Hn Hin Hsize)
      as (c & Hc & Ei).
    exists c. split; [exact Hc|]. split; [exact Ei|]. split.
    + unfold deref. rewrite nodeAt_app, Hat. cbn [nodeAt]. now rewrite Hc.
    + intros Hpos. rewrite (positionsFrom_nth _ _ _ _ Hpos Hc). lia.
  - intros Hout. now apply (index_row_outside m row column parentIdx n).
Qed.

Lemma index_in_and_out_of_range_witness :
  ItemModel.index (modelOf cacheAB (flatSource [itemA; itemB])) 1 0 InvalidIndex
  = Ok (ModelIndex 1 0 [1%nat]) /\
  ItemModel.index (modelOf cacheAB (flatSource [itemA; itemB])) (-1) 0 InvalidIndex
  = Ok InvalidIndex /\
  ItemModel.index (modelOf cacheAB (flatSource [itemA; itemB])) 2 0 InvalidIndex
  = Ok InvalidIndex.
Proof.
  assert (size (children cacheAB) < 2 ^ 63) as Hs by reflexivity.
  split; [|split].
  - destruct (index_in_and_out_of_range
                (modelOf cacheAB (flatSource [itemA; itemB])) 1 0 InvalidIndex
                cacheAB eq_refl ltac:(lia) Hs) as [H _].
    destruct H as (c & Hc & E & _); [cbn; lia|].
    rewrite E. injection Hc as <-. reflexivity.
  - apply (index_in_and_out_of_range
             (modelOf cacheAB (flatSource [itemA; itemB])) (-1) 0 InvalidIndex
             cacheAB eq_refl ltac:(lia) Hs). lia.
  - apply (index_in_and_out_of_range
             (modelOf cacheAB (flatSource [itemA; itemB])) 2 0 InvalidIndex
             cacheAB eq_refl ltac:(lia) Hs). cbn. lia.
Defined.

Lemma match_snoc {A B} (p : list A) (i : A) (x y : B) :
  match p ++ [i] with [] => x | _ :: _ => y end = y.
Proof. now destruct p. Qed.

(** [parent] undoes [index]: for a node that is the root or whose own index
    is valid, the parent of a valid index answered by [index] for the index
    of that node is that index again, the invalid index when the node is the
    root. *)
Theorem parent_of_index m row column pp pn child :
  nodeAt (m_root m) pp = Some pn ->
  pp = [] \/ isValid (getIndex pp pn 0) = true ->
  ItemModel.index m row column (getIndex pp pn 0) = Ok child ->
  isValid child = true ->
  ItemModel.parent m child = Ok (getIndex pp pn 0).
Proof.
  intros Hpn Hpp E Hvalid. unfold ItemModel.index in E.
  rewrite (getNode_getIndex _ _ _ Hpp) in E.
  unfold deref in E. rewrite Hpn in E.
  cbn [bind] in E.
  destruct (toSizeT row <? size (children pn)); [|injection E as <-; discriminate].
  destruct (nth_error (children pn) (Z.to_nat (toSizeT row))) as [c|] eqn:Hc;
    [|discriminate].
  rewrite getIndex_snoc in E. injection E as <-.
  unfold ItemModel.parent. rewrite Hvalid, (getNode_valid _ Hvalid).
  cbn [negb internalPointer].
  unfold deref. rewrite nodeAt_app, Hpn. cbn [nodeAt]. rewrite Hc. cbn [bind].
  rewrite removelast_last.
  destruct pp as [|i pp]; [reflexivity|].
  cbn [app]. cbn [nodeAt] in Hpn. rewrite Hpn. reflexivity.
Qed.

Lemma parent_of_index_witness :
  ItemModel.parent (modelOf cacheAB (flatSource [itemA; itemB]))
                   (ModelIndex 1 0 [1%nat])
  = Ok InvalidIndex.
Proof.
  apply (parent_of_index (modelOf cacheAB (flatSource [itemA; itemB]))
                         1 0 [] cacheAB (ModelIndex 1 0 [1%nat]));
    [reflexivity|left; reflexivity|reflexivity|reflexivity].
Defined.

Lemma deref_nodeAt m p n : deref m p = Ok n <-> nodeAt (m_root m) p = Some n.
Proof.
  unfold deref. destruct (nodeAt (m_root m) p) as [x|]; split; intros H;
    try discriminate; now injection H as ->.
Qed.

Lemma nodeAt_removelast root p n :
  nodeAt root p = Some n -> exists pn, nodeAt root (removelast p) = Some pn.
Proof.
  intros H. destruct p as [|i p] using rev_ind; [now exists n|].
  rewrite removelast_last. rewrite nodeAt_app in H.
  destruct (nodeAt root p) as [pn|]; [now exists pn|discriminate].
Qed.

(** [parent] does not fault on an index whose pointer leads to a node. *)
Lemma parent_defined m idx n :
  deref m (getNode idx) = Ok n -> exists r, ItemModel.parent m idx = Ok r.
Proof.
  intros H. unfold ItemModel.parent.
  destruct (isValid idx); cbn [negb]; [|eauto].
  rewrite H. cbn [bind].
  apply deref_nodeAt in H.
  destruct (nodeAt_removelast _ _ _ H) as [pn Hpn].
  destruct (getNode idx) as [|i p]; [eauto|].
  destruct (removelast (i :: p)) as [|j q]; [eauto|].
  apply deref_nodeAt in Hpn. rewrite Hpn. cbn [bind]. eauto.
Qed.

Lemma loadChildren_initialized adapter n :
  childInitialized (loadChildren adapter n) = true.
Proof.
  unfold loadChildren. destruct (childInitialized n) eqn:E; cbn [negb]; auto.
Qed.

Lemma loadChildren_again adapter n :
  loadChildren adapter (loadChildren adapter n) = loadChildren adapter n.
Proof.
  unfold loadChildren at 1. now rewrite loadChildren_initialized.
Qed.

Lemma deref_updateAt_const m p n x :
  deref m p = Ok n ->
  deref (setRoot m (updateAt (m_root m) p (fun _ => x))) p = Ok x.
Proof.
  intros Hn. apply deref_nodeAt. cbn [m_root setRoot].
  apply deref_nodeAt in Hn.
  now rewrite (nodeAt_updateAt _ _ (fun _ => _) _ Hn).
Qed.

Lemma rowCount_outside_sync m idx n :
  deref m (getNode idx) = Ok n -> m_syncing m = false ->
  ItemModel.rowCount m idx =
  Ok (setRoot m (updateAt (m_root m) (getNode idx)
                          (fun _ => loadChildren (m_adapter m) n)),
      size (children (loadChildren (m_adapter m) n))).
Proof.
  intros Hn Hs. unfold ItemModel.rowCount.
  destruct (parent_defined m idx n Hn) as [r Hr].
  destruct (isValid idx); [rewrite Hr|]; cbn [bind];
    rewrite Hn, Hs; reflexivity.
Qed.

(** Outside a pass, [rowCount] loads the children of the node on demand and
    answers their number; the node is initialised afterwards, the rest of the
    model is as before, and a second [rowCount] answers the same number
    without changing anything.  During a pass ([m_syncing]) it answers the
    number of cached children and loads nothing. *)
Theorem rowCount_loads_on_demand m idx n :
  deref m (getNode idx) = Ok n ->
  (m_syncing m = false ->
   exists m',
     ItemModel.rowCount m idx
     = Ok (m', size (children (loadChildren (m_adapter m) n))) /\
     deref m' (getNode idx) = Ok (loadChildren (m_adapter m) n) /\
     childInitialized (loadChildren (m_adapter m) n) = true /\
     m_adapter m' = m_adapter m /\ m_updating m' = m_updating m /\
     ItemModel.rowCount m' idx
     = Ok (m', size (children (loadChildren (m_adapter m) n)))) /\
  (m_syncing m = true ->
   ItemModel.rowCount m idx = Ok (m, size (children n))).
Proof.
  intros Hn. split; intros Hs.
  - rewrite (rowCount_outside_sync m idx n Hn Hs).
    eexists. split; [reflexivity|].
    assert (deref
              (setRoot m (updateAt (m_root m) (getNode idx)
                                   (fun _ => loadChildren (m_adapter m) n)))
              (getNode idx) = Ok (loadChildren (m_adapter m) n)) as Hn'.
    { now apply deref_updateAt_const with (n := n). }
    split; [exact Hn'|]. split; [apply loadChildren_initialized|].
    split; [reflexivity|]. split; [reflexivity|].
    rewrite (rowCount_outside_sync _ idx _ Hn') by exact Hs.
    cbn [m_adapter m_root setRoot]. rewrite loadChildren_again.
    apply deref_nodeAt in Hn'. cbn [m_root setRoot] in Hn'.
    rewrite (updateAt_same _ _ _ Hn'). reflexivity.
  - unfold ItemModel.rowCount.
    destruct (parent_defined m idx n Hn) as [r Hr].
    destruct (isValid idx); [rewrite Hr|]; cbn [bind];
      rewrite Hn, Hs; reflexivity.
Qed.

Lemma rowCount_loads_on_demand_witness :
  exists m',
    ItemModel.rowCount (modelOf cacheAB (nestedSource [itemB; itemX]))
                       (ModelIndex 0 0 [0%nat])
    = Ok (m', 2) /\
    ItemModel.rowCount m' (ModelIndex 0 0 [0%nat]) = Ok (m', 2).
Proof.
  destruct (rowCount_loads_on_demand
              (modelOf cacheAB (nestedSource [itemB; itemX]))
              (ModelIndex 0 0 [0%nat]) (newNode itemA 0) eq_refl) as [H _].
  destruct (H eq_refl) as (m' & E1 & _ & _ & _ & _ & E2).
  exists m'. split; [exact E1|exact E2].
Defined.

(** ** Resolving an item *)

Lemma getItemNode_resolves fuel :
  forall m obj m' p,
    getItemNode fuel m obj = Ok (m', Some p) ->
    (exists n, nodeAt (m_root m') p = Some n) /\
    m_adapter m' = m_adapter m /\ m_updating m' = m_updating m /\
    m_syncing m' = m_syncing m.
Proof.
  induction fuel as [|fuel IH]; intros m obj m' p E; cbn [getItemNode] in E;
    destruct (getItemParent (m_adapter m) obj =? obj); try discriminate;
    destruct (getItemParent (m_adapter m) obj =? nullptr);
    try discriminate;
    try (injection E as <- <-; split; [now exists (m_root m)|auto]).
  bind_inv E. destruct a as [m1 parentNode].
  destruct (0 <=? indexOf (m_adapter m1) (getItemParent (m_adapter m) obj) obj 0);
    [|discriminate].
  destruct parentNode as [p0|]; [|discriminate].
  apply IH in E0 as ([n0 Hn0] & Ha & Hu & Hs).
  bind_inv E. apply deref_nodeAt in E0. rewrite Hn0 in E0. injection E0 as <-.
  destruct (nth_error (children (loadChildren (m_adapter m1) n0)) _)
    as [c|] eqn:Hc; [|discriminate].
  injection E as <- <-. cbn [m_root m_adapter m_updating m_syncing setRoot].
  split; [|auto]. exists c.
  rewrite nodeAt_app, (nodeAt_updateAt _ _ (fun _ => _) _ Hn0).
  cbn [nodeAt]. now rewrite Hc.
Qed.

(** A valid index answered by [getItemIndex] is never dangling: its pointer
    leads to a node of the tree the call leaves, its row is the position
    field of that node and its column is 0, so [getItem] on it answers the
    item of that node.  The call changes neither the adapter nor the update
    depth. *)
Theorem getItemIndex_resolves fuel m obj m' idx :
  getItemIndex fuel m obj = Ok (m', idx) -> isValid idx = true ->
  exists n,
    deref m' (getNode idx) = Ok n /\
    idx = ModelIndex (parentIndex n) 0 (getNode idx) /\
    getItemOf m' idx = Ok (item n) /\
    m_adapter m' = m_adapter m /\ m_updating m' = m_updating m.
Proof.
  unfold getItemIndex. intros E Hv. bind_inv E. destruct a as [m1 node].
  destruct node as [p|]; [|injection E as <- <-; discriminate].
  apply getItemNode_resolves in E0 as ([n Hn] & Ha & Hu & _).
  bind_inv E. apply deref_nodeAt in E0. rewrite Hn in E0. injection E0 as <-.
  injection E as <- <-.
  destruct p as [|i p]; [discriminate|].
  cbn [getIndex] in Hv |- *. exists n.
  unfold getItemOf. rewrite (getNode_valid _ Hv). cbn [internalPointer].
  assert (deref m1 (i :: p) = Ok n) as Hd by now apply deref_nodeAt.
  rewrite Hd. repeat split; auto.
Qed.

Lemma getItemIndex_resolves_witness :
  exists m' n,
    getItemIndex 3 (modelOf cacheAB (rootedSource [itemA; itemB])) itemB
    = Ok (m', ModelIndex 1 0 [1%nat]) /\
    deref m' [1%nat] = Ok n /\ getItemOf m' (ModelIndex 1 0 [1%nat]) = Ok (item n).
Proof.
  destruct (getItemIndex 3 (modelOf cacheAB (rootedSource [itemA; itemB])) itemB)
    as [[m' idx]| |] eqn:E; [|vm_compute in E; discriminate E..].
  assert (idx = ModelIndex 1 0 [1%nat]) as Hi
      by (vm_compute in E; now injection E as _ <-).
  subst idx.
  destruct (getItemIndex_resolves _ _ _ _ _ E eq_refl) as (n & Hn & _ & Hg & _).
  exists m', n. split; [reflexivity|]. split; [exact Hn|exact Hg].
Defined.

(** An item that reports itself or [nullptr] as its parent has no position
    of its own: [getItemIndex] answers the invalid index, without a fault and
    without touching the model. *)
Theorem getItemIndex_unplaced fuel m obj :
  getItemParent (m_adapter m) obj = obj \/
  getItemParent (m_adapter m) obj = nullptr ->
  getItemIndex fuel m obj = Ok (m, InvalidIndex).
Proof.
  intros H.
  destruct (Z.eq_dec (getItemParent (m_adapter m) obj) obj) as [Hself|Hne].
  - assert (getItemNode fuel m obj = Ok (m, None)) as E
        by (destruct fuel; cbn [getItemNode]; now rewrite Hself, Z.eqb_refl).
    unfold getItemIndex. now rewrite E.
  - destruct H as [H|H]; [contradiction|].
    assert (getItemNode fuel m obj = Ok (m, Some [])) as E.
    { destruct fuel; cbn [getItemNode];
        (replace (getItemParent (m_adapter m) obj =? obj) with false
          by (symmetry; now apply Z.eqb_neq));
        now rewrite H. }
    unfold getItemIndex. rewrite E. reflexivity.
Qed.

Lemma getItemIndex_unplaced_witness :
  getItemIndex 3 (modelOf cacheAB (flatSource [itemA; itemB])) itemA
  = Ok (modelOf cacheAB (flatSource [itemA; itemB]), InvalidIndex).
Proof.
  apply getItemIndex_unplaced. right. reflexivity.
Defined.

(** Resolving a top-level item against a root that mirrors the source: when
    the parent [R] of [obj] has no parent itself, the root is initialised and
    its cached children are the live children of [R], [getItemIndex] answers
    the invalid index if [indexOf] does not find [obj], and otherwise the
    index of the cached node at the live position, whose item is [obj]; under
    the position invariant its row is that position, and whenever its row is
    not negative [getItem] on it answers [obj]. *)
Theorem getItemIndex_top_level fuel m obj R :
  getItemParent (m_adapter m) obj = R -> R <> obj -> R <> nullptr ->
  getItemParent (m_adapter m) R = nullptr ->
  childInitialized (m_root m) = true ->
  items (children (m_root m)) = liveItems (m_adapter m) R ->
  indexOfSound (m_adapter m) R ->
  let i := indexOf (m_adapter m) R obj 0 in
  (i < 0 -> getItemIndex (S fuel) m obj = Ok (m, InvalidIndex)) /\
  (0 <= i ->
   exists c,
     nth_error (children (m_root m)) (Z.to_nat i) = Some c /\
     item c = obj /\
     getItemIndex (S fuel) m obj
     = Ok (m, ModelIndex (parentIndex c) 0 [Z.to_nat i]) /\
     (positionsFrom 0 (children (m_root m)) = true -> parentIndex c = i) /\
     (0 <= parentIndex c ->
      getItemOf m (ModelIndex (parentIndex c) 0 [Z.to_nat i]) = Ok obj)).
Proof.
  intros Hp Hne Hnn HpR Hini Hitems Hsound i.
  assert (getItemNode fuel m R = Ok (m, Some [])) as HR.
  { destruct fuel; cbn [getItemNode]; rewrite HpR;
      (replace (nullptr =? R) with false
        by (symmetry; apply Z.eqb_neq; congruence));
      reflexivity. }
  assert (getItemNode (S fuel) m obj =
          if 0 <=? i then
            match nth_error (children (m_root m)) (Z.to_nat i) with
            | Some _ => Ok (m, Some [Z.to_nat i])
            | None => Fault
            end
          else Ok (m, None)) as E.
  { cbn [getItemNode]. rewrite Hp.
    replace (R =? obj) with false by (symmetry; now apply Z.eqb_neq).
    replace (R =? nullptr) with false by (symmetry; now apply Z.eqb_neq).
    rewrite HR. cbn [bind]. fold i.
    destruct (0 <=? i); [|reflexivity].
    unfold deref. cbn [nodeAt bind updateAt].
    assert (loadChildren (m_adapter m) (m_root m) = m_root m) as ->
        by (unfold loadChildren; now rewrite Hini).
    rewrite setRoot_same. reflexivity. }
  unfold getItemIndex. rewrite E. split.
  - intros Hneg.
    now replace (0 <=? i) with false by (symmetry; apply Z.leb_gt; lia).
  - intros Hpos.
    replace (0 <=? i) with true by (symmetry; apply Z.leb_le; lia).
    destruct (Hsound obj 0 ltac:(lia) Hpos) as [Hrange Hget]. fold i in Hrange, Hget.
    assert (nth_error (items (children (m_root m))) (Z.to_nat i) = Some obj)
      as Hnth.
    { rewrite Hitems. unfold liveItems.
      rewrite nth_error_map, nth_error_seq.
      replace (Z.to_nat i <? Z.to_nat (getItemsCount (m_adapter m) R))%nat
        with true by (symmetry; apply Nat.ltb_lt; lia).
      cbn. now rewrite Z2Nat.id, Hget by lia. }
    unfold items in Hnth. rewrite nth_error_map in Hnth.
    destruct (nth_error (children (m_root m)) (Z.to_nat i)) as [c|] eqn:Hc;
      [|discriminate].
    cbn in Hnth. injection Hnth as Hitem.
    exists c. cbn [bind]. unfold deref. cbn [nodeAt]. rewrite Hc. cbn [bind].
    split; [reflexivity|]. split; [exact Hitem|]. split; [reflexivity|].
    split.
    + intros Hrows. rewrite (positionsFrom_nth _ _ _ _ Hrows Hc). lia.
    + intros Hpc.
      assert (isValid (ModelIndex (parentIndex c) 0 [Z.to_nat i]) = true) as Hv
          by (apply andb_true_iff; split; [now apply Z.leb_le|reflexivity]).
      unfold getItemOf, deref. rewrite (getNode_valid _ Hv).
      cbn [internalPointer nodeAt]. rewrite Hc. cbn [bind].
      now rewrite Hitem.
Qed.

Lemma getItemIndex_top_level_witness :
  getItemIndex 3 (modelOf cacheAB (rootedSource [itemA; itemB])) itemB
  = Ok (modelOf cacheAB (rootedSource [itemA; itemB]), ModelIndex 1 0 [1%nat])
  /\ getItemIndex 3 (modelOf cacheAB (rootedSource [itemA; itemB])) itemX
  = Ok (modelOf cacheAB (rootedSource [itemA; itemB]), InvalidIndex).
Proof.
  pose (m := modelOf cacheAB (rootedSource [itemA; itemB])).
  assert (indexOfSound (m_adapter m) rootObject) as Hsound
      by apply liveAdapter_indexOfSound.
  split.
  - destruct (getItemIndex_top_level 2 m itemB rootObject eq_refl
                ltac:(discriminate) ltac:(discriminate) eq_refl eq_refl eq_refl
                Hsound) as [_ H].
    destruct H as (c & Hc & _ & E & _); [vm_compute; discriminate|].
    subst m. rewrite E. vm_compute in Hc. injection Hc as <-. reflexivity.
  - apply (getItemIndex_top_level 2 m itemX rootObject eq_refl
             ltac:(discriminate) ltac:(discriminate) eq_refl eq_refl eq_refl
             Hsound).
    reflexivity.
Defined.

(** ** Queued updates and unbalanced brackets *)

Lemma QueuedUpdate_idle m :
  m_updating m = 0 -> QueuedUpdate m = (setUpdating m 1, 1%nat).
Proof.
  intros H. unfold QueuedUpdate, beginUpdate. now rewrite H.
Qed.

Lemma queuedUpdates_busy k m :
  m_updating m <> 0 -> queuedUpdates k m = (m, 0%nat).
Proof.
  intros H. induction k as [|k IH]; cbn [queuedUpdates]; [reflexivity|].
  unfold QueuedUpdate.
  replace (m_updating m =? 0) with false by (symmetry; now apply Z.eqb_neq).
  now rewrite IH.
Qed.



Lemma endUpdates_below_one fuel k :
  forall m,
    m_updating m <= 0 ->
    endUpdates fuel k m = Ok (setUpdating m (m_updating m - Z.of_nat k), []).
Proof.
  induction k as [|k IH]; intros m H; cbn [endUpdates].
  - rewrite Z.sub_0_r. now destruct m.
  - rewrite endUpdate_inner by lia. cbn [bind].
    replace (m_updating m - 1 =? 0) with false by (symmetry; apply Z.eqb_neq; lia).
    rewrite IH by (cbn [m_updating setUpdating]; lia).
    cbn [m_updating setUpdating app]. unfold setUpdating. cbn.
    do 3 f_equal. lia.
Qed.

(** Brackets that never reach depth 1 do nothing: an [endUpdate] at or
    below depth 0 only decrements the depth, and [N] nested pairs opened at
    a depth [d] with [d + N <= 0] (the state an unmatched [endUpdate] leaves)
    run no [syncTree], emit no signal and give the model back unchanged. *)
Theorem brackets_below_depth_one_are_silent (fuel N : nat) (m : VirtualTreeModel) :
  m_updating m + Z.of_nat N <= 0 ->
  endUpdate fuel m = Ok (setUpdating m (m_updating m - 1), []) /\
  nestedUpdates fuel N m = Ok (m, []).
Proof.
  intros H. split.
  - rewrite endUpdate_inner by lia.
    now replace (m_updating m - 1 =? 0) with false
      by (symmetry; apply Z.eqb_neq; lia).
  - unfold nestedUpdates.
    rewrite endUpdates_below_one by (rewrite beginUpdates_updating; lia).
    rewrite beginUpdates_setUpdating. cbn [m_updating setUpdating].
    unfold setUpdating. cbn.
    replace (m_updating m + Z.of_nat N - Z.of_nat N) with (m_updating m) by lia.
    now destruct m.
Qed.

Lemma brackets_below_depth_one_are_silent_witness :
  exists m1,
    endUpdate 5 (modelOf cacheAB (flatSource [itemX])) = Ok (m1, []) /\
    m_updating m1 = -1 /\
    nestedUpdates 5 1 m1 = Ok (m1, []).
Proof.
  destruct (brackets_below_depth_one_are_silent
              5 0 (modelOf cacheAB (flatSource [itemX]))) as [E _];
    [cbn; lia|].
  eexists. split; [exact E|]. split; [reflexivity|].
  apply brackets_below_depth_one_are_silent. cbn. lia.
Defined.

(** ** The invariant of the shadow tree under every operation *)

Lemma lazyInv_unfold n :
  lazyInv n =
  (childInitialized n || match children n with [] => true | _ => false end)
  && forallb lazyInv (children n).
Proof. now destruct n. Qed.

Lemma lazyInv_setParentIndex c k : lazyInv (setParentIndex c k) = lazyInv c.
Proof. now destruct c. Qed.

Lemma forallb_lazyInv_renumber k cs :
  forallb lazyInv (renumber k cs) = forallb lazyInv cs.
Proof.
  revert k; induction cs as [|c cs IH]; intros k; cbn [renumber forallb];
    [reflexivity|].
  now rewrite lazyInv_setParentIndex, IH.
Qed.

Lemma forallb_lazyInv_fresh cs :
  forallb isFresh cs = true -> forallb lazyInv cs = true.
Proof.
  induction cs as [|c cs IH]; cbn [forallb]; [auto|]. intros H.
  apply andb_true_iff in H as [Hc H]. rewrite (IH H), andb_true_r.
  unfold isFresh in Hc. rewrite lazyInv_unfold.
  destruct (children c); [|now rewrite andb_false_r in Hc].
  now rewrite orb_true_r.
Qed.

Lemma lazyInv_initialized n :
  forallb lazyInv (children n) = true ->
  lazyInv (setChildInitialized n true) = true.
Proof. destruct n. cbn. auto. Qed.

Lemma lazyInv_children n :
  lazyInv n = true -> forallb lazyInv (children n) = true.
Proof. rewrite lazyInv_unfold. intros H. now apply andb_true_iff in H. Qed.

Lemma lazyInv_isInitialized adapter c :
  lazyInv c = true -> lazyInv (fst (isInitialized adapter c)) = true.
Proof.
  intros H. destruct (isInitialized_shape adapter c) as [-> | ->]; [exact H|].
  now apply lazyInv_initialized, lazyInv_children.
Qed.

Section PassKeepsLaziness.

Variable adapter : VirtualModelAdapter.
Variable sync : Ptr -> InternalNode -> Item -> result (InternalNode * list Signal).
Variable nodePtr : Ptr.
Variable parent : Item.

Hypothesis sync_lazy :
  forall p n obj n' evs,
    forallb lazyInv (children n) = true -> sync p n obj = Ok (n', evs) ->
    lazyInv n' = true.

Lemma syncIteration_lazy index st st' :
  lazyChildren st ->
  syncIteration adapter sync nodePtr parent index st = Ok st' ->
  lazyChildren st'.
Proof.
  unfold lazyChildren, syncIteration. intros H E.
  bind_inv E. injection E as <-. cbn [syncNode].
  set (finishing := size (children (syncNode st)) <=? srcCur st) in *.
  set (curNode := if finishing then None else _) in *.
  set (destCur := match curNode with Some c => _ | None => 0 end) in *.
  destruct (0 <=? destCur); [|injection E0 as <-; auto].
  bind_inv E0.
  assert (forallb lazyInv (children (syncNode a0)) = true) as H1.
  { apply syncRemove_Ok in E as [[_ ->] | (first & _ & _ & _ & ->)]; [auto|].
    cbn [syncNode children setChildren].
    now rewrite forallb_app, forallb_lazyInv_renumber, forallb_firstn,
      forallb_skipn. }
  bind_inv E0.
  assert (forallb lazyInv (children (syncNode a1)) = true) as H2.
  { apply syncInsert_Ok in E1 as [[_ ->] | (_ & _ & ->)]; [exact H1|].
    unfold inserted. cbn [syncNode children setChildren].
    rewrite !forallb_app, forallb_lazyInv_renumber.
    rewrite (forallb_lazyInv_fresh _ (forallb_isFresh_freshNodes _ _ _ _ _ _)).
    now rewrite forallb_firstn, forallb_skipn. }
  destruct curNode.
  - unfold syncDescend in E0. cbn [syncNode srcCur] in E0.
    destruct (nth_error _ _) as [cur|] eqn:Hcur; [|discriminate].
    pose proof (forallb_nth _ _ _ _ H2 Hcur) as Hc.
    pose proof (lazyInv_isInitialized adapter cur Hc) as Hi.
    destruct (isInitialized adapter cur) as [cur' ini]. cbn [fst] in Hi.
    destruct ini.
    + bind_inv E0. destruct a2 as [cur'' evs]. injection E0 as <-.
      cbn [syncNode children setChildren].
      apply forallb_setNth; [exact H2|].
      eapply sync_lazy; [|exact E2]. now apply lazyInv_children.
    + injection E0 as <-. cbn [syncNode children setChildren].
      now apply forallb_setNth.
  - injection E0 as <-. exact H2.
Qed.

Lemma syncLoop_lazy fuel index st st' :
  lazyChildren st ->
  syncLoop adapter sync nodePtr parent fuel index st = Ok st' ->
  lazyChildren st'.
Proof.
  revert st; induction fuel as [|fuel IH]; intros st H E; cbn [syncLoop] in E;
    destruct (srcCur st <=? size (children (syncNode st)));
    try discriminate; try (injection E as <-; now auto).
  bind_inv E. apply syncIteration_lazy in E0; eauto.
Qed.

End PassKeepsLaziness.

Lemma syncNodeList_lazy adapter fuel :
  forall p n obj n' log,
    forallb lazyInv (children n) = true ->
    syncNodeList adapter fuel p n obj = Ok (n', log) ->
    lazyInv n' = true.
Proof.
  induction fuel as [|fuel IH]; intros p n obj n' log H E;
    cbn [syncNodeList] in E; [discriminate|].
  bind_inv E. injection E as <- <-.
  apply syncLoop_lazy in E0; [|exact IH|exact H].
  unfold lazyChildren in E0. now apply lazyInv_initialized.
Qed.

Lemma wellFormed_split n :
  wellFormed n = true <-> posInv n = true /\ lazyInv n = true.
Proof. unfold wellFormed. apply andb_true_iff. Qed.

Lemma loadChildren_wellFormed adapter n :
  wellFormed n = true ->
  wellFormed (loadChildren adapter n) = true /\
  parentIndex (loadChildren adapter n) = parentIndex n.
Proof.
  intros H. apply wellFormed_split in H as [Hp Hl].
  destruct (childInitialized n) eqn:Hc.
  - unfold loadChildren. rewrite Hc. cbn [negb].
    split; [now apply wellFormed_split|reflexivity].
  - assert (children n = []) as Hk.
    { rewrite lazyInv_unfold, Hc in Hl. cbn [orb] in Hl.
      destruct (children n); [reflexivity|discriminate]. }
    rewrite (loadChildren_first adapter n Hc Hk).
    split; [|reflexivity]. apply wellFormed_split. split.
    + rewrite posInv_unfold.
      cbn [children setChildInitialized setChildren].
      destruct (hasItems adapter (item n)); [|reflexivity].
      now rewrite positionsFrom_loadedFrom, forallb_posInv_loadedFrom.
    + rewrite lazyInv_unfold.
      cbn [childInitialized children setChildInitialized setChildren orb andb].
      apply forallb_lazyInv_fresh.
      destruct (hasItems adapter (item n));
        [apply forallb_isFresh_loadedFrom|reflexivity].
Qed.

Lemma updateAt_parentIndex root p f :
  (forall n, parentIndex (f n) = parentIndex n) ->
  parentIndex (updateAt root p f) = parentIndex root.
Proof.
  intros Hf. destruct p as [|i p]; cbn [updateAt]; [apply Hf|].
  destruct (nth_error (children root) i); reflexivity.
Qed.

Lemma updateAt_wellFormed f :
  (forall n, wellFormed n = true ->
             wellFormed (f n) = true /\ parentIndex (f n) = parentIndex n) ->
  forall p root,
    wellFormed root = true ->
    wellFormed (updateAt root p f) = true /\
    parentIndex (updateAt root p f) = parentIndex root.
Proof.
  intros Hf. induction p as [|i p IH]; intros root H; cbn [updateAt];
    [now apply Hf|].
  destruct (nth_error (children root) i) as [c|] eqn:Hc; [|auto].
  split; [|reflexivity].
  apply wellFormed_split in H as [Hp Hl].
  rewrite posInv_unfold in Hp. apply andb_true_iff in Hp as [Hp1 Hp2].
  rewrite lazyInv_unfold in Hl. apply andb_true_iff in Hl as [Hl1 Hl2].
  destruct (IH c) as [Hw Hpi].
  { apply wellFormed_split. split; eapply forallb_nth; eauto. }
  apply wellFormed_split in Hw as [Hwp Hwl].
  apply wellFormed_split. split.
  - rewrite posInv_setChildren. apply andb_true_iff. split.
    + eapply positionsFrom_setNth; eauto. now rewrite Nat2Z.id.
    + now apply forallb_setNth.
  - rewrite lazyInv_unfold. cbn [children childInitialized setChildren].
    apply andb_true_iff. split; [|now apply forallb_setNth].
    destruct (childInitialized root); [reflexivity|]. cbn [orb] in *.
    destruct (children root); [destruct i; discriminate|discriminate].
Qed.

Lemma getItemNode_wellFormed fuel :
  forall m obj m' node,
    wellFormed (m_root m) = true ->
    getItemNode fuel m obj = Ok (m', node) ->
    wellFormed (m_root m') = true.
Proof.
  induction fuel as [|fuel IH]; intros m obj m' node H E; cbn [getItemNode] in E;
    destruct (getItemParent (m_adapter m) obj =? obj);
    try (injection E as <- <-; exact H);
    destruct (getItemParent (m_adapter m) obj =? nullptr);
    try (injection E as <- <-; exact H); try discriminate.
  bind_inv E. destruct a as [m1 parentNode].
  apply IH in E0; [|exact H].
  destruct (0 <=? indexOf (m_adapter m1) (getItemParent (m_adapter m) obj) obj 0);
    [|injection E as <- <-; exact E0].
  destruct parentNode as [p0|]; [|discriminate].
  bind_inv E.
  destruct (nth_error (children (loadChildren (m_adapter m1) a)) _);
    [|discriminate].
  injection E as <- <-. cbn [m_root setRoot].
  apply deref_nodeAt in E1.
  assert (updateAt (m_root m1) p0 (fun _ => loadChildren (m_adapter m1) a) =
          updateAt (m_root m1) p0 (loadChildren (m_adapter m1))) as ->.
  { clear - E1. revert E1. generalize (m_root m1) as root.
    induction p0 as [|i p IH]; intros root E; cbn [nodeAt updateAt] in *.
    - now injection E as ->.
    - destruct (nth_error (children root) i); [|reflexivity].
      now rewrite (IH _ E). }
  apply updateAt_wellFormed; [|exact E0].
  intros n. apply loadChildren_wellFormed.
Qed.

(** Every operation that changes the shadow tree keeps its invariant: the
    constructor establishes "every child sits at its position, and a node
    that is not initialised has no children" and a completed [syncTree],
    [hasChildren], [rowCount], [getItemNode] and [getItemIndex] preserve
    it. *)
Theorem operations_keep_tree_invariant (m : VirtualTreeModel) :
  wellFormed (m_root m) = true ->
  (forall fuel m' log,
      syncTree fuel m = Ok (m', log) -> wellFormed (m_root m') = true) /\
  (forall idx m' answer,
      hasChildrenAt m idx = Ok (m', answer) -> wellFormed (m_root m') = true) /\
  (forall idx m' count,
      ItemModel.rowCount m idx = Ok (m', count) ->
      wellFormed (m_root m') = true) /\
  (forall fuel obj m' node,
      getItemNode fuel m obj = Ok (m', node) -> wellFormed (m_root m') = true) /\
  (forall fuel obj m' idx,
      getItemIndex fuel m obj = Ok (m', idx) -> wellFormed (m_root m') = true) /\
  (forall fuel adapter m0 log,
      construct fuel adapter = Ok (m0, log) -> wellFormed (m_root m0) = true).
Proof.
  intros H. pose proof H as H'. apply wellFormed_split in H' as [Hp Hl].
  split; [|split; [|split; [|split; [|split]]]].
  - intros fuel m' log E. apply wellFormed_split. split.
    + eapply syncTree_posInv; eauto.
    + unfold syncTree in E. bind_inv E. destruct a as [root' evs].
      injection E as <- <-. cbn [m_root setSyncing setRoot].
      eapply syncNodeList_lazy; [|exact E0].
      now apply lazyInv_children.
  - intros idx m' answer E. unfold hasChildrenAt in E.
    destruct (isValid idx); cbn [negb] in E; [|injection E as <- _; exact H].
    bind_inv E. apply deref_nodeAt in E0.
    destruct (hasChildrenOf (m_adapter m) a) as [n' has] eqn:Hh.
    injection E as <- _. cbn [m_root setRoot].
    assert (updateAt (m_root m) (getNode idx) (fun _ => n') =
            updateAt (m_root m) (getNode idx)
                     (fun n => fst (hasChildrenOf (m_adapter m) n))) as ->.
    { clear - E0 Hh. revert E0. generalize (m_root m) as root.
      induction (getNode idx) as [|i p IH]; intros root E;
        cbn [nodeAt updateAt] in *.
      - injection E as ->. now rewrite Hh.
      - destruct (nth_error (children root) i); [|reflexivity].
        now rewrite (IH _ E). }
    apply updateAt_wellFormed; [|exact H].
    intros n Hn. unfold hasChildrenOf.
    destruct (childInitialized n) eqn:Hc; cbn [fst]; [auto|].
    split; [|reflexivity]. revert Hn. unfold wellFormed.
    destruct n; cbn in *. now rewrite Hc.
  - intros idx m' count E. unfold ItemModel.rowCount in E.
    bind_inv E. bind_inv E. apply deref_nodeAt in E1.
    destruct (m_syncing m); [injection E as <- _; exact H|].
    unfold childCount in E. injection E as <- _. cbn [m_root setRoot].
    assert (updateAt (m_root m) (getNode idx)
                     (fun _ => loadChildren (m_adapter m) a0) =
            updateAt (m_root m) (getNode idx) (loadChildren (m_adapter m)))
      as ->.
    { clear - E1. revert E1. generalize (m_root m) as root.
      induction (getNode idx) as [|i p IH]; intros root E;
        cbn [nodeAt updateAt] in *.
      - now injection E as ->.
      - destruct (nth_error (children root) i); [|reflexivity].
        now rewrite (IH _ E). }
    apply updateAt_wellFormed; [|exact H].
    intros n. apply loadChildren_wellFormed.
  - intros fuel obj m' node E. eapply getItemNode_wellFormed; eauto.
  - intros fuel obj m' idx E. unfold getItemIndex in E.
    bind_inv E. destruct a as [m1 node].
    apply getItemNode_wellFormed in E0; [|exact H].
    destruct node as [p|]; [|injection E as <- _; exact E0].
    bind_inv E. injection E as <- _. exact E0.
  - intros fuel adapter m0 log E. unfold construct in E.
    apply wellFormed_split. split.
    + eapply syncTree_posInv; [|exact E]. reflexivity.
    + unfold syncTree in E. bind_inv E. destruct a as [root' evs].
      injection E as <- <-. cbn [m_root setSyncing setRoot].
      eapply syncNodeList_lazy; [|exact E0]. reflexivity.
Qed.

Lemma operations_keep_tree_invariant_witness :
  exists m',
    ItemModel.rowCount (modelOf cacheAB (nestedSource [itemB; itemX]))
                       (ModelIndex 0 0 [0%nat]) = Ok (m', 2) /\
    wellFormed (m_root m') = true.
Proof.
  destruct (operations_keep_tree_invariant
              (modelOf cacheAB (nestedSource [itemB; itemX])) eq_refl)
    as (_ & _ & H & _).
  destruct (ItemModel.rowCount (modelOf cacheAB (nestedSource [itemB; itemX]))
                               (ModelIndex 0 0 [0%nat]))
    as [[m' count]| |] eqn:E; [|vm_compute in E; discriminate E..].
  assert (count = 2) as -> by (vm_compute in E; now injection E as _ <-).
  exists m'. split; [reflexivity|]. exact (H _ _ _ E).
Defined.

(** ** The structural queries agree *)

Lemma nodeAt_wellFormed p :
  forall root n,
    wellFormed root = true -> nodeAt root p = Some n -> wellFormed n = true.
Proof.
  induction p as [|i p IH]; intros root n H E; cbn [nodeAt] in E.
  - now injection E as <-.
  - destruct (nth_error (children root) i) as [c|] eqn:Hc; [|discriminate].
    apply (IH c); [|exact E].
    apply wellFormed_split in H as [Hp Hl].
    rewrite posInv_unfold in Hp. apply andb_true_iff in Hp as [_ Hp].
    rewrite lazyInv_unfold in Hl. apply andb_true_iff in Hl as [_ Hl].
    apply wellFormed_split. split; eapply forallb_nth; eauto.
Qed.

(** The three structural queries agree on a tree that satisfies its
    invariant: after [rowCount] has answered [count] for a valid index,
    [hasChildren] answers [count > 0] and changes nothing, and [index]
    answers a valid index exactly for the [int] rows [0 <= row < count]
    with a column that is not negative; such an index carries the row asked
    for. *)
Theorem rowCount_hasChildren_index_agree m idx n m' count :
  wellFormed (m_root m) = true ->
  deref m (getNode idx) = Ok n -> m_syncing m = false -> isValid idx = true ->
  ItemModel.rowCount m idx = Ok (m', count) ->
  count < 2 ^ 63 ->
  hasChildrenAt m' idx = Ok (m', 0 <? count) /\
  forall row column,
    - 2 ^ 31 <= row < 2 ^ 31 ->
    exists child,
      ItemModel.index m' row column idx = Ok child /\
      (isValid child = true <-> 0 <= row < count /\ 0 <= column) /\
      (isValid child = true ->
       child = ModelIndex row column (getNode idx ++ [Z.to_nat row])).
Proof.
  intros Hw Hn Hs Hv E Hc.
  rewrite (rowCount_outside_sync m idx n Hn Hs) in E. injection E as <- <-.
  pose proof (deref_updateAt_const m (getNode idx) n
                (loadChildren (m_adapter m) n) Hn) as Hn1.
  pose proof (loadChildren_initialized (m_adapter m) n) as Hini.
  assert (positionsFrom 0 (children (loadChildren (m_adapter m) n)) = true)
    as Hrows.
  { apply deref_nodeAt in Hn.
    pose proof (nodeAt_wellFormed _ _ _ Hw Hn) as Hwn.
    destruct (loadChildren_wellFormed (m_adapter m) n Hwn) as [Hwl _].
    apply wellFormed_split in Hwl as [Hp _].
    rewrite posInv_unfold in Hp. now apply andb_true_iff in Hp as [Hp _]. }
  split.
  - unfold hasChildrenAt. rewrite Hv. cbn [negb]. rewrite Hn1. cbn [bind].
    unfold hasChildrenOf. rewrite Hini.
    apply deref_nodeAt in Hn1.
    now rewrite (updateAt_same _ _ _ Hn1), setRoot_same.
  - intros row column Hrow.
    destruct (Z_le_gt_dec 0 row) as [L1|L1];
      [destruct (Z_lt_ge_dec row
                   (size (children (loadChildren (m_adapter m) n))))
        as [L2|L2]|].
    + destruct (index_row_inside _ row column idx _ Hn1 (conj L1 L2) Hc)
        as (c & Hnth & Ei).
      assert (parentIndex c = row) as Hpc
          by (rewrite (positionsFrom_nth _ _ _ _ Hrows Hnth); lia).
      rewrite Hpc in Ei.
      eexists. split; [exact Ei|]. cbn [isValid]. split.
      * split.
        -- intros H. apply andb_true_iff in H as [_ H].
           apply Z.leb_le in H. lia.
        -- intros [_ H]. apply andb_true_iff.
           split; apply Z.leb_le; lia.
      * reflexivity.
    + exists InvalidIndex.
      split; [apply (index_row_outside _ row column idx _ Hn1 Hrow Hc); lia|].
      cbn [isValid]. split; [split; [discriminate|lia]|discriminate].
    + exists InvalidIndex.
      split; [apply (index_row_outside _ row column idx _ Hn1 Hrow Hc); lia|].
      cbn [isValid]. split; [split; [discriminate|lia]|discriminate].
Qed.

Lemma rowCount_hasChildren_index_agree_witness :
  exists m',
    ItemModel.rowCount (modelOf cacheAB (nestedSource [itemB; itemX]))
                       (ModelIndex 0 0 [0%nat])
    = Ok (m', 2) /\
    hasChildrenAt m' (ModelIndex 0 0 [0%nat]) = Ok (m', true) /\
    exists child,
      ItemModel.index m' 1 (-1) (ModelIndex 0 0 [0%nat]) = Ok child /\
      isValid child = false.
Proof.
  destruct (ItemModel.rowCount (modelOf cacheAB (nestedSource [itemB; itemX]))
                               (ModelIndex 0 0 [0%nat]))
    as [[m' count]| |] eqn:E; [|vm_compute in E; discriminate E..].
  assert (count = 2) as Hc by (vm_compute in E; now injection E as _ <-).
  exists m'. rewrite Hc in *. split; [reflexivity|].
  destruct (rowCount_hasChildren_index_agree
              (modelOf cacheAB (nestedSource [itemB; itemX]))
              (ModelIndex 0 0 [0%nat]) (newNode itemA 0) m' 2
              eq_refl eq_refl eq_refl eq_refl E ltac:(lia)) as [H Hi].
  split; [exact H|].
  destruct (Hi 1 (-1) ltac:(lia)) as (child & Ei & Hiff & _).
  exists child. split; [exact Ei|].
  destruct (isValid child); [|reflexivity].
  destruct Hiff as [Hiff _]. destruct (Hiff eq_refl) as [_ Hneg]. lia.
Defined.
